(** * prm_sim: the roadmap planner (globalmap.cpp) and the planner loop
    (simulator.cpp)

    A shallow embedding of [GlobalMap] and of [Simulator::prmThread] and
    [Simulator::requestGoal], and the properties the specification of the
    planner states about them.

    The definitions come first:
    - [Double]: the arithmetic the sources use on C++ [double]s, as an
      interface; [QDouble] is the instance used to run examples.
    - [GraphOps], [LocalMapOps]: the two collaborators of [GlobalMap] whose
      sources (graph.cpp, localmap.cpp) are not part of the tree, as
      interfaces; [SpecGraphOps] and [SpecGridOps] are instances written
      from the specification.
    - [GlobalMap]: the planner object and its member functions; [build]
      keeps a trace of the calls the specification speaks about.
    - [PlannerState], [planning_cycle]: one pass of the loop of
      [prmThread]; [Threads], [run]: the planner thread and the service
      thread, interleaved.
    - [Runs]: the concrete runs the counterexamples are taken from.
    - [RoadmapShapes], [ThreadShapes], [OtherRuns]: what the functions the
      claims do not speak about are checked against.

    The lemmas follow, and the theorems for the claims C1 to C10 of the
    specification; then further properties (X1, X2, ...) of the other
    functions of the two files: [lookup], [convertPath], [constructPRM],
    [showOverlay], [connectToExistingNodes], what [build] does to the
    roadmap and the image, what a pass of [prmThread] leaves behind, and
    how [requestGoal] and the passes follow each other. *)

From Stdlib Require Import ZArith NArith QArith Qabs Qround List Sorted Bool Lia.
Import ListNotations.

Set Implicit Arguments.
Generalizable All Variables.

(* ================================================================== *)
(** * Numbers *)

(** The operations globalmap.cpp and simulator.cpp apply to [double]s.
    [deqb] is C++ [==]: it is symmetric, but nothing says it is reflexive
    (a NaN differs from itself), and no theorem below needs it to be. *)
Class Double := {
  double : Type;
  dlit : Q -> double;                       (* a decimal literal: 2.5, 10.0 *)
  dadd : double -> double -> double;
  dsub : double -> double -> double;
  dmul : double -> double -> double;
  ddiv : double -> double -> double;
  dabs : double -> double;                  (* std::abs *)
  dsqrt : double -> double;                 (* std::sqrt *)
  dround : double -> double;                (* std::round *)
  deqb : double -> double -> bool;          (* == *)
  dltb : double -> double -> bool;          (* < *)
  deqb_sym : forall a b, deqb a b = deqb b a
}.

(** [std::pow(a, 2)] *)
Definition dpow2 `{Double} (a : double) : double := dmul a a.

(* ================================================================== *)
(** * types.h *)

(** Modelled from the spec: types.h is not among the sources. A VertexId
    is "an opaque non-reusable monotonically-increasing integer"; it is
    taken unbounded. *)
Definition vertex := N.

(** Modelled from the spec: types.h is not among the sources. A WorldOrd
    has "attributes {x, y} in metres, double precision"; the sources build
    one as [{robotPos.position.x, robotPos.position.y}]. *)
Record TGlobalOrd `{Double} := mkOrd { x : double; y : double }.
Arguments mkOrd {_} _ _.

(** The test [v.second.x == ord.x && v.second.y == ord.y] of
    [existsAsVertex] and [lookup]. *)
Definition same_ord `{Double} (a b : TGlobalOrd) : bool :=
  deqb (x a) (x b) && deqb (y a) (y b).

(* ================================================================== *)
(** * std::map<vertex, TGlobalOrd>

    An association list kept in increasing key order, which is the order
    a range-for visits a [std::map] in. *)
Section StdMap.
Context `{Double}.

Definition LUT := list (vertex * TGlobalOrd).

Definition keys (l : LUT) : list vertex := map fst l.

Fixpoint lut_find (v : vertex) (l : LUT) : option TGlobalOrd :=
  match l with
  | [] => None
  | (k, o) :: l' => if (k =? v)%N then Some o else lut_find v l'
  end.

(** [std::map::insert]: an entry whose key is present is left alone. *)
Fixpoint lut_insert (v : vertex) (o : TGlobalOrd) (l : LUT) : LUT :=
  match l with
  | [] => [(v, o)]
  | (k, o') :: l' =>
      if (v <? k)%N then (v, o) :: l
      else if (k =? v)%N then l
      else (k, o') :: lut_insert v o l'
  end.

(** [std::map::operator[]]: a missing key is first inserted with a
    value-initialised ordinate, [{0, 0}]. *)
Definition lut_index (v : vertex) (l : LUT) : TGlobalOrd * LUT :=
  match lut_find v l with
  | Some o => (o, l)
  | None => let o := mkOrd (dlit 0) (dlit 0) in (o, lut_insert v o l)
  end.

End StdMap.

(* ================================================================== *)
(** * graph.h and localmap.h *)

(** Modelled from the spec: graph.h and graph.cpp are not among the
    sources. Section 4.2 of the specification lists the operations of the
    Graph; an implementation is a parameter here, and [SpecGraph] below is
    one written from that section. [mkGraph] is the constructor
    [Graph(MaxGraphDensity, MaxDistance)]. *)
Class GraphOps `{Double} := {
  Graph : Type;
  mkGraph : N -> double -> Graph;
  addVertex : vertex -> Graph -> Graph;
  addEdge : vertex -> vertex -> double -> Graph -> bool * Graph;
  shortestPath : vertex -> vertex -> Graph -> list vertex;
  container : Graph -> list (vertex * list (vertex * double))
}.

(** Modelled from the spec: localmap.h, localmap.cpp and the OpenCV types
    are not among the sources. Section 4.1 of the specification describes
    the Grid; an implementation is a parameter here, and [SpecGrid] below
    is one written from that section. [Mat] is [cv::Mat], [Point] is
    [cv::Point]; the tests [isAccessible] and [canConnect] only read the
    image, [expandConfigSpace] and the two overlay functions write it. *)
Class LocalMapOps `{Double} := {
  Mat : Type;
  Point : Type;
  LocalMap : Type;
  mkLocalMap : double -> double -> LocalMap;
  lmap_setMapSize : double -> LocalMap -> LocalMap;
  point_eqb : Point -> Point -> bool;
  mat_empty : Mat -> bool;
  cvtColor : Mat -> Mat;
  convertToPoint : LocalMap -> TGlobalOrd -> TGlobalOrd -> Point;
  isAccessible : LocalMap -> Mat -> Point -> bool;
  canConnect : LocalMap -> Mat -> Point -> Point -> bool;
  expandConfigSpace : LocalMap -> Mat -> double -> Mat;
  overlayPRM : LocalMap -> Mat -> list (Point * Point) -> Mat;
  overlayPath : LocalMap -> Mat -> list Point -> Mat
}.

(* ================================================================== *)
(** * A small state monad *)

Definition St (S A : Type) : Type := S -> A * S.

Definition ret {S A} (a : A) : St S A := fun s => (a, s).

Definition bind {S A B} (c : St S A) (k : A -> St S B) : St S B :=
  fun s => let (a, s') := c s in k a s'.

Definition get {S} : St S S := fun s => (s, s).
Definition gets {S A} (f : S -> A) : St S A := fun s => (f s, s).
Definition modify {S} (f : S -> S) : St S unit := fun s => (tt, f s).

Declare Scope st_scope.
Delimit Scope st_scope with st.
Notation "x <- c ;; k" := (bind c (fun x => k))
  (at level 61, c at next level, right associativity) : st_scope.
Notation "c ;; k" := (bind c (fun _ => k))
  (at level 61, right associativity) : st_scope.
Open Scope st_scope.

(** Run a command for each element of a list, in order (a range-for). *)
Fixpoint for_each {S A} (l : list A) (body : A -> St S unit) : St S unit :=
  match l with
  | [] => ret tt
  | a :: l' => body a ;; for_each l' body
  end.

(* ================================================================== *)
(** * globalmap.cpp *)

Section GlobalMap.
Context `{D : Double} `{G : !GraphOps} `{L : !LocalMapOps}.

Definition MaxGraphDensity : N := 5.
Definition MaxDistance : double := dlit 2.5.

(** The data members of [GlobalMap]. *)
Record GlobalMap := mkGlobalMap {
  graph_ : Graph;
  lmap_ : LocalMap;
  vertexLUT_ : LUT;
  nextVertexId_ : vertex;
  reference_ : TGlobalOrd;
  mapSize_ : double;
  robotDiameter_ : double
}.

Definition set_graph g (s : GlobalMap) :=
  mkGlobalMap g (lmap_ s) (vertexLUT_ s) (nextVertexId_ s) (reference_ s)
              (mapSize_ s) (robotDiameter_ s).
Definition set_lmap l (s : GlobalMap) :=
  mkGlobalMap (graph_ s) l (vertexLUT_ s) (nextVertexId_ s) (reference_ s)
              (mapSize_ s) (robotDiameter_ s).
Definition set_vertexLUT l (s : GlobalMap) :=
  mkGlobalMap (graph_ s) (lmap_ s) l (nextVertexId_ s) (reference_ s)
              (mapSize_ s) (robotDiameter_ s).
Definition set_nextVertexId n (s : GlobalMap) :=
  mkGlobalMap (graph_ s) (lmap_ s) (vertexLUT_ s) n (reference_ s)
              (mapSize_ s) (robotDiameter_ s).
Definition set_reference r (s : GlobalMap) :=
  mkGlobalMap (graph_ s) (lmap_ s) (vertexLUT_ s) (nextVertexId_ s) r
              (mapSize_ s) (robotDiameter_ s).
Definition set_mapSize z (s : GlobalMap) :=
  mkGlobalMap (graph_ s) (lmap_ s) (vertexLUT_ s) (nextVertexId_ s)
              (reference_ s) z (robotDiameter_ s).

(** [GlobalMap::GlobalMap(mapSize, mapRes, robotDiameter)] *)
Definition GlobalMap_new (mapSize mapRes robotDiameter : double) : GlobalMap :=
  {| graph_ := mkGraph MaxGraphDensity MaxDistance;
     lmap_ := mkLocalMap mapSize mapRes;
     vertexLUT_ := [];
     nextVertexId_ := 0%N;
     reference_ := mkOrd (dlit 0) (dlit 0);
     mapSize_ := mapSize;
     robotDiameter_ := robotDiameter |}.

(** [vertexLUT_[v]] inside a member function. *)
Definition vertexLUT_at (v : vertex) : St GlobalMap TGlobalOrd :=
  fun s => let (o, l) := lut_index v (vertexLUT_ s) in (o, set_vertexLUT l s).

(** [double distance(TGlobalOrd p1, TGlobalOrd p2)] *)
Definition distance (p1 p2 : TGlobalOrd) : double :=
  let a := dabs (dsub (x p2) (x p1)) in
  let b := dabs (dsub (y p2) (y p1)) in
  dsqrt (dadd (dpow2 a) (dpow2 b)).

(** [bool GlobalMap::existsAsVertex(TGlobalOrd ord)] *)
Definition existsAsVertex (ord : TGlobalOrd) (s : GlobalMap) : bool :=
  existsb (fun v => same_ord (snd v) ord) (vertexLUT_ s).

(** [bool GlobalMap::lookup(TGlobalOrd ord, vertex &v)]: the result and
    the final content of [v]; [v] keeps its content when nothing is
    found. *)
Fixpoint lookup_in (ord : TGlobalOrd) (v : vertex) (l : LUT) : bool * vertex :=
  match l with
  | [] => (false, v)
  | vert :: l' =>
      if same_ord (snd vert) ord then (true, fst vert)
      else lookup_in ord v l'
  end.

Definition lookup (ord : TGlobalOrd) (v : vertex) (s : GlobalMap) : bool * vertex :=
  lookup_in ord v (vertexLUT_ s).

(** [vertex GlobalMap::nextVertexId()] *)
Definition nextVertexId : St GlobalMap vertex :=
  fun s => let temp := nextVertexId_ s in
           (temp, set_nextVertexId (nextVertexId_ s + 1)%N s).

(** [vertex GlobalMap::findOrAdd(TGlobalOrd ordinate)]. The local [v] is
    declared without an initialiser; [lookup] always assigns it on the
    branch that calls it ([lookup_exists] below), so the [0] it starts
    from here is never returned. *)
Definition findOrAdd (ordinate : TGlobalOrd) : St GlobalMap vertex :=
  fun s =>
    if existsAsVertex ordinate s then
      (snd (lookup ordinate 0%N s), s)
    else
      (v <- nextVertexId ;;
       modify (fun s => set_graph (addVertex v (graph_ s)) s) ;;
       modify (fun s => set_vertexLUT (lut_insert v ordinate (vertexLUT_ s)) s) ;;
       ret v) s.

(** [void GlobalMap::setReference(const TGlobalOrd reference)] *)
Definition setReference (reference : TGlobalOrd) (s : GlobalMap) : GlobalMap :=
  let s := set_reference (mkOrd (x reference) (y (reference_ s))) s in
  set_reference (mkOrd (x (reference_ s)) (y reference)) s.

(** [void GlobalMap::setMapSize(double mapSize)] *)
Definition setMapSize (mapSize : double) (s : GlobalMap) : GlobalMap :=
  let s := set_mapSize mapSize s in
  set_lmap (lmap_setMapSize mapSize (lmap_ s)) s.

(** [std::vector<TGlobalOrd> GlobalMap::convertPath(std::vector<vertex>)] *)
Fixpoint convertPath (path : list vertex) : St GlobalMap (list TGlobalOrd) :=
  match path with
  | [] => ret []
  | v :: path' =>
      o <- vertexLUT_at v ;;
      ordPath <- convertPath path' ;;
      ret (o :: ordPath)
  end.

(** [std::vector<cv::Point> GlobalMap::convertPath(std::vector<TGlobalOrd>)] *)
Definition convertPath_points (path : list TGlobalOrd) (s : GlobalMap) : list Point :=
  map (convertToPoint (lmap_ s) (reference_ s)) path.

(** The pixel a stored vertex is drawn and collision-checked at:
    [lmap_.convertToPoint(reference_, vertexLUT_[v])]. *)
Definition pointOf (v : vertex) : St GlobalMap Point :=
  o <- vertexLUT_at v ;;
  s <- get ;;
  ret (convertToPoint (lmap_ s) (reference_ s) o).

(** [GlobalMap::constructPRM()] *)
Definition constructPRM : St GlobalMap (list (Point * Point)) :=
  nodes <- gets (fun s => container (graph_ s)) ;;
  fold_left
    (fun (acc : St GlobalMap (list (Point * Point))) node =>
       prm <- acc ;;
       pCurrent <- pointOf (fst node) ;;
       fold_left
         (fun (acc : St GlobalMap (list (Point * Point))) neighbour =>
            prm <- acc ;;
            pNeighbour <- pointOf (fst neighbour) ;;
            if existsb (fun element => point_eqb (fst element) pNeighbour
                                       && point_eqb (snd element) pCurrent) prm
            then ret prm
            else ret (prm ++ [(pCurrent, pNeighbour)]))
         (snd node) (ret prm))
    nodes (ret []).

(** [void GlobalMap::showOverlay(cv::Mat &m, std::vector<TGlobalOrd> path)] *)
Definition showOverlay (m : Mat) (path : list TGlobalOrd) : St GlobalMap Mat :=
  pPath <- gets (convertPath_points path) ;;
  prm <- constructPRM ;;
  s <- get ;;
  let m := overlayPRM (lmap_ s) m prm in
  ret (overlayPath (lmap_ s) m pPath).

(** [void GlobalMap::connectToExistingNodes(cv::Mat &m, vertex node)].
    The range-for runs over the table as it is after [vertexLUT_[node]] on
    the first line; the body no longer changes it, [node] being present. *)
Definition connectToExistingNodes (m : Mat) (node : vertex) : St GlobalMap unit :=
  pNode <- pointOf node ;;
  lut <- gets vertexLUT_ ;;
  for_each lut (fun vert =>
    if (fst vert =? node)%N then ret tt
    else
      s <- get ;;
      let pVertex := convertToPoint (lmap_ s) (reference_ s) (snd vert) in
      if canConnect (lmap_ s) m pNode pVertex then
        oNode <- vertexLUT_at node ;;
        modify (fun s =>
          set_graph (snd (addEdge node (fst vert) (distance oNode (snd vert)) (graph_ s))) s)
      else ret tt).

(** ** build *)

(** The calls [build] makes that the specification speaks about, in the
    order it makes them. The trace is an observation of the run: nothing
    in [build] reads it. *)
Inductive event :=
| Accessible (p : Point) (r : bool)             (* lmap_.isAccessible(m, p) = r *)
| FindOrAdd (o : TGlobalOrd) (v : vertex)       (* findOrAdd(o) = v *)
| ShortestPath (s g : vertex) (r : list vertex) (* graph_.shortestPath(s, g) = r *)
| Iteration (safetyCnt : Z).                    (* the loop body is entered *)

(** What a call of [build] works on: the object, the image [m] it got by
    reference, and the trace. *)
Record BuildState := mkBuildState {
  self : GlobalMap;
  mat : Mat;
  trace : list event
}.

Definition liftG {A} (c : St GlobalMap A) : St BuildState A :=
  fun b => let (a, s) := c (self b) in (a, mkBuildState s (mat b) (trace b)).

Definition log (e : event) : St BuildState unit :=
  modify (fun b => mkBuildState (self b) (mat b) (trace b ++ [e])).

Definition call_isAccessible (p : Point) : St BuildState bool :=
  b <- get ;;
  let r := isAccessible (lmap_ (self b)) (mat b) p in
  log (Accessible p r) ;; ret r.

Definition call_findOrAdd (o : TGlobalOrd) : St BuildState vertex :=
  v <- liftG (findOrAdd o) ;;
  log (FindOrAdd o v) ;; ret v.

Definition call_shortestPath (s g : vertex) : St BuildState (list vertex) :=
  b <- get ;;
  let r := shortestPath s g (graph_ (self b)) in
  log (ShortestPath s g r) ;; ret r.

Definition call_connectToExistingNodes (node : vertex) : St BuildState unit :=
  b <- get ;;
  liftG (connectToExistingNodes (mat b) node).

(** [lmap_.expandConfigSpace(m, robotDiameter_)]: [m] is dilated in place. *)
Definition call_expandConfigSpace : St BuildState unit :=
  modify (fun b =>
    mkBuildState (self b)
      (expandConfigSpace (lmap_ (self b)) (mat b) (robotDiameter_ (self b)))
      (trace b)).

(** [std::round(v * 10.0) / 10.0] *)
Definition round1 (v : double) : double :=
  ddiv (dround (dmul v (dlit 10))) (dlit 10).

(** Lines 119-132: the set-up of the two end vertices. [None] is the
    [return path] of line 126. [vStart] and [vGoal] are declared without
    initialisers: [vStart0] and [vGoal0] are what the two locals hold on
    entry, and what they still hold when the block is skipped. *)
Definition build_setup (vStart0 vGoal0 : vertex) (start goal : TGlobalOrd)
  : St BuildState (option (vertex * vertex)) :=
  b <- get ;;
  if negb (existsAsVertex start (self b)) || negb (existsAsVertex goal (self b)) then
    let pStart := convertToPoint (lmap_ (self b)) (reference_ (self b)) start in
    let pGoal := convertToPoint (lmap_ (self b)) (reference_ (self b)) goal in
    aStart <- call_isAccessible pStart ;;
    if negb aStart then ret None
    else
      aGoal <- call_isAccessible pGoal ;;
      if negb aGoal then ret None
      else
        vStart <- call_findOrAdd start ;;
        vGoal <- call_findOrAdd goal ;;
        ret (Some (vStart, vGoal))
  else ret (Some (vStart0, vGoal0)).

(** Lines 159-189: one pass through the body of the sampling loop, after
    the safety counter. [draw] is what [xDist(generator)] and
    [yDist(generator)] return, some point of
    [reference_ +- mapSize_/2] in each coordinate. [Some path] is
    [foundPath = true]; [None] is either the [continue] or a pass that
    found nothing. *)
Definition sample_once (draw : double * double) (vStart vGoal : vertex)
  : St BuildState (option (list TGlobalOrd)) :=
  b <- get ;;
  let randomOrd := mkOrd (round1 (fst draw)) (round1 (snd draw)) in
  let pRand := convertToPoint (lmap_ (self b)) (reference_ (self b)) randomOrd in
  aRand <- call_isAccessible pRand ;;
  if negb aRand then ret None
  else
    vRand <- call_findOrAdd randomOrd ;;
    call_connectToExistingNodes vRand ;;
    vPath <- call_shortestPath vStart vGoal ;;
    if (0 <? length vPath)%nat then
      path <- liftG (convertPath vPath) ;;
      ret (Some path)
    else ret None.

(** Lines 151-190: [while(!foundPath)]. [safetyCnt] is an [unsigned int].
    The loop is written with fuel: [None] means the fuel ran out before
    the loop was left. [rnd n] is the draw of the pass in which
    [safetyCnt] is [n]. *)
Fixpoint sampling_loop (fuel : nat) (rnd : Z -> double * double)
  (vStart vGoal : vertex) (safetyCnt : Z)
  : St BuildState (option (list TGlobalOrd)) :=
  match fuel with
  | O => ret None
  | S fuel' =>
      let safetyCnt := ((safetyCnt + 1) mod 2 ^ 32)%Z in
      log (Iteration safetyCnt) ;;
      if (safetyCnt =? 1000)%Z then ret (Some [])
      else
        found <- sample_once (rnd safetyCnt) vStart vGoal ;;
        match found with
        | Some path => ret (Some path)
        | None => sampling_loop fuel' rnd vStart vGoal safetyCnt
        end
  end.

(** Lines 134-192: everything after the set-up. *)
Definition build_search (fuel : nat) (rnd : Z -> double * double)
  (vStart vGoal : vertex) : St BuildState (option (list TGlobalOrd)) :=
  vPath <- call_shortestPath vStart vGoal ;;
  if (0 <? length vPath)%nat then
    path <- liftG (convertPath vPath) ;; ret (Some path)
  else
    call_connectToExistingNodes vStart ;;
    call_connectToExistingNodes vGoal ;;
    vPath <- call_shortestPath vStart vGoal ;;
    if (0 <? length vPath)%nat then
      path <- liftG (convertPath vPath) ;; ret (Some path)
    else
      sampling_loop fuel rnd vStart vGoal 0.

(** [std::vector<TGlobalOrd> GlobalMap::build(cv::Mat &m, TGlobalOrd start,
    TGlobalOrd goal)] *)
Definition build (fuel : nat) (rnd : Z -> double * double)
  (vStart0 vGoal0 : vertex) (start goal : TGlobalOrd)
  : St BuildState (option (list TGlobalOrd)) :=
  call_expandConfigSpace ;;
  ends <- build_setup vStart0 vGoal0 start goal ;;
  match ends with
  | None => ret (Some [])
  | Some (vStart, vGoal) => build_search fuel rnd vStart vGoal
  end.

(** A call of [build] on the object [s] with the image [m]. *)
Definition run_build (fuel : nat) (rnd : Z -> double * double)
  (vStart0 vGoal0 : vertex) (m : Mat) (start goal : TGlobalOrd) (s : GlobalMap)
  : option (list TGlobalOrd) * BuildState :=
  build fuel rnd vStart0 vGoal0 start goal (mkBuildState s m []).

End GlobalMap.

Arguments GlobalMap {D G L}.
Arguments BuildState {D G L}.
Arguments event {D L}.

(* ================================================================== *)
(** * simulator.cpp *)

(** The message types simulator.cpp fills in. *)
Module geometry_msgs.
Record Point `{Double} := mkPoint { x : double; y : double; z : double }.
Record Quaternion `{Double} :=
  mkQuaternion { qx : double; qy : double; qz : double; qw : double }.
Record Pose `{Double} := mkPose { position : Point; orientation : Quaternion }.
Arguments mkPoint {_} _ _ _.
Arguments mkQuaternion {_} _ _ _ _.
Arguments mkPose {_} _ _.

(** A default-constructed [Pose]: every field is zero. *)
Definition Pose_default `{Double} : Pose :=
  mkPose (mkPoint (dlit 0) (dlit 0) (dlit 0))
         (mkQuaternion (dlit 0) (dlit 0) (dlit 0) (dlit 0)).
End geometry_msgs.

Section Simulator.
Context `{D : Double} `{G : !GraphOps} `{L : !LocalMapOps}.

(** Modelled from the spec: types.h is not among the sources. The
    WorldBuffer is "a shared structure holding two bounded sequences:
    latest occupancy grids and latest poses"; prmThread reads the fields
    [ogMapDeq] and [poseDeq] under the mutex [access]. *)
Record TWorldInfoBuffer := mkBuffer {
  ogMapDeq : list Mat;
  poseDeq : list geometry_msgs.Pose
}.

(** What is handed to the two publishers, [overlay_] and [path_]. *)
Inductive message :=
| OverlayMsg (image : Mat)                     (* overlay_.publish(msg) *)
| PathMsg (poses : list geometry_msgs.Pose).   (* path_.publish(posePath) *)

(** What a call of [gmap_.build] cannot get from its arguments: the
    content of its two uninitialised locals and the random draws. *)
Record BuildOracle := mkOracle {
  rnd : Z -> double * double;
  vStart0 : vertex;
  vGoal0 : vertex
}.

(** One call of [gmap_.build], as the planner loop sees it. *)
Record BuildCall := mkBuildCall {
  call_start : TGlobalOrd;
  call_goal : TGlobalOrd;
  call_result : list TGlobalOrd
}.

(** The state [prmThread] works on: the members of [Simulator] it uses,
    the file-scope flag [GoalRecieved], and its locals [ogMap] and
    [robotPos], which live across the passes of its loop. [published] and
    [builds] record what was handed to the publishers and which calls of
    [build] were made, oldest first. *)
Record PlannerState := mkPlannerState {
  gmap_ : GlobalMap;
  currentGoal_ : TGlobalOrd;
  GoalRecieved : bool;
  buffer_ : TWorldInfoBuffer;
  ogMap : Mat;
  robotPos : geometry_msgs.Pose;
  published : list message;
  builds : list BuildCall
}.

Definition set_gmap g (p : PlannerState) :=
  mkPlannerState g (currentGoal_ p) (GoalRecieved p) (buffer_ p) (ogMap p)
                 (robotPos p) (published p) (builds p).
Definition set_currentGoal g (p : PlannerState) :=
  mkPlannerState (gmap_ p) g (GoalRecieved p) (buffer_ p) (ogMap p)
                 (robotPos p) (published p) (builds p).
Definition set_GoalRecieved f (p : PlannerState) :=
  mkPlannerState (gmap_ p) (currentGoal_ p) f (buffer_ p) (ogMap p)
                 (robotPos p) (published p) (builds p).
Definition set_buffer b (p : PlannerState) :=
  mkPlannerState (gmap_ p) (currentGoal_ p) (GoalRecieved p) b (ogMap p)
                 (robotPos p) (published p) (builds p).
Definition set_ogMap m (p : PlannerState) :=
  mkPlannerState (gmap_ p) (currentGoal_ p) (GoalRecieved p) (buffer_ p) m
                 (robotPos p) (published p) (builds p).
Definition set_robotPos r (p : PlannerState) :=
  mkPlannerState (gmap_ p) (currentGoal_ p) (GoalRecieved p) (buffer_ p) (ogMap p)
                 r (published p) (builds p).
Definition publish (msg : message) (p : PlannerState) :=
  mkPlannerState (gmap_ p) (currentGoal_ p) (GoalRecieved p) (buffer_ p) (ogMap p)
                 (robotPos p) (published p ++ [msg]) (builds p).
Definition record_build (c : BuildCall) (p : PlannerState) :=
  mkPlannerState (gmap_ p) (currentGoal_ p) (GoalRecieved p) (buffer_ p) (ogMap p)
                 (robotPos p) (published p) (builds p ++ [c]).

(** The request and the response of the service /request_goal. *)
Record Request := mkRequest { req_x : double; req_y : double }.
Record Response := mkResponse { ack : bool }.

(** Lines 90-100: the front of each queue is taken when there is one. *)
Definition consumeWorldData : St PlannerState unit :=
  modify (fun p =>
    match ogMapDeq (buffer_ p) with
    | [] => p
    | front :: rest =>
        set_buffer (mkBuffer rest (poseDeq (buffer_ p))) (set_ogMap front p)
    end) ;;
  modify (fun p =>
    match poseDeq (buffer_ p) with
    | [] => p
    | front :: rest =>
        set_buffer (mkBuffer (ogMapDeq (buffer_ p)) rest) (set_robotPos front p)
    end).

(** The map and the pose a pass works with once it has consumed the
    world data: the front of the queue, or what the local held already. *)
Definition latest_map (p : PlannerState) : Mat :=
  match ogMapDeq (buffer_ p) with [] => ogMap p | front :: _ => front end.
Definition latest_pose (p : PlannerState) : geometry_msgs.Pose :=
  match poseDeq (buffer_ p) with [] => robotPos p | front :: _ => front end.

(** The fuel that lets the sampling loop of [build] run to its end
    ([call_build_returns] below). *)
Definition build_fuel : nat := 1000.

(** [gmap_.build(ogMap, robotOrd, currentGoal_)]: [currentGoal_] is read
    when the call is made, [ogMap] is passed by reference. [None] when
    the call does not return. *)
Definition call_build (orc : BuildOracle) (robotOrd : TGlobalOrd)
  : St PlannerState (option (list TGlobalOrd)) :=
  p <- get ;;
  let goal := currentGoal_ p in
  let (r, b) := run_build build_fuel (rnd orc) (vStart0 orc) (vGoal0 orc)
                          (ogMap p) robotOrd goal (gmap_ p) in
  modify (fun p => set_ogMap (mat b) (set_gmap (self b) p)) ;;
  match r with
  | Some path => modify (record_build (mkBuildCall robotOrd goal path)) ;; ret (Some path)
  | None => ret None
  end.

(** Lines 120-129: [while(path.size() == 0)]. [orc n] serves the call
    made when [cnt] is [n]. Written with fuel, as [sampling_loop] is. *)
Fixpoint retry_loop (fuel : nat) (orc : Z -> BuildOracle) (robotOrd : TGlobalOrd)
  (cnt : Z) (path : list TGlobalOrd) : St PlannerState (option (list TGlobalOrd)) :=
  match fuel with
  | O => ret None
  | S fuel' =>
      if (length path =? 0)%nat then
        let cnt := (cnt + 1)%Z in
        r <- call_build (orc cnt) robotOrd ;;
        match r with
        | None => ret None
        | Some path =>
            if (cnt >? 2)%Z then ret (Some path)
            else retry_loop fuel' orc robotOrd cnt path
        end
      else ret (Some path)
  end.

(** Lines 139-147: the poses of the message sent to /path. *)
Definition posePath (path : list TGlobalOrd) (robotPos : geometry_msgs.Pose)
  : list geometry_msgs.Pose :=
  map (fun waypoint =>
         let w := geometry_msgs.Pose_default in
         geometry_msgs.mkPose
           (geometry_msgs.mkPoint (x waypoint) (y waypoint)
              (geometry_msgs.z (geometry_msgs.position robotPos)))
           (geometry_msgs.orientation w))
      path.

(** Lines 87-113: the start of a pass through the second loop of
    [prmThread], from the point where the wait has returned with a goal.
    [None] is the [continue] of line 108; otherwise the start ordinate
    and the colour copy of the map, made before [build] dilates it. *)
Definition cycle_begin : St PlannerState (option (TGlobalOrd * Mat)) :=
  modify (set_GoalRecieved false) ;;
  consumeWorldData ;;
  p <- get ;;
  let robotOrd := mkOrd (geometry_msgs.x (geometry_msgs.position (robotPos p)))
                        (geometry_msgs.y (geometry_msgs.position (robotPos p))) in
  modify (fun p => set_gmap (setReference robotOrd (gmap_ p)) p) ;;
  if mat_empty (ogMap p) then ret None
  else ret (Some (robotOrd, cvtColor (ogMap p))).

(** Lines 131-151: the overlay and the waypoints are handed to their
    publishers. *)
Definition cycle_finish (colourMap : Mat) (path : list TGlobalOrd)
  : St PlannerState unit :=
  p <- get ;;
  let (colourMap, g) := showOverlay colourMap path (gmap_ p) in
  modify (set_gmap g) ;;
  modify (publish (OverlayMsg colourMap)) ;;
  if (0 <? length path)%nat then
    modify (fun p => publish (PathMsg (posePath path (robotPos p))) p)
  else ret tt.

(** Lines 87-151: one pass through the second loop of [prmThread] with
    no other thread running. [None] when a loop inside does not come to
    its end within its fuel. *)
Definition planning_cycle (fuel : nat) (orc : Z -> BuildOracle)
  : St PlannerState (option unit) :=
  begun <- cycle_begin ;;
  match begun with
  | None => ret (Some tt)
  | Some (robotOrd, colourMap) =>
      let cnt := 1%Z in
      first <- call_build (orc cnt) robotOrd ;;
      match first with
      | None => ret None
      | Some path =>
          r <- retry_loop fuel orc robotOrd cnt path ;;
          match r with
          | None => ret None
          | Some path => cycle_finish colourMap path ;; ret (Some tt)
          end
      end
  end.

(** ** The planner thread and the service thread

    [prmThread] runs in a thread of its own; [requestGoal] runs in the
    thread that serves /request_goal, one request at a time. Both work
    on [currentGoal_] and [GoalRecieved]. [prmThread] holds the mutex
    [GoalProcess] except while it waits; [requestGoal] never takes it, so
    the mutex keeps no step of one thread from falling between two steps
    of the other and is left out.

    A step of the service thread is one of the three assignments of
    [requestGoal]. A step of the planner thread is the return of the
    wait, lines 87-113, one call of [build] (which reads [currentGoal_]
    once, when its argument is copied, and neither shared variable
    after), or lines 131-151. *)

Inductive HandlerPc :=
| Idle                          (* no request is being served *)
| After163 (req : Request)      (* currentGoal_.x is written *)
| After164 (req : Request).     (* currentGoal_.y is written *)

Inductive PlannerPc :=
| AtWait
| AtLine87
| AtBuild (cnt : Z) (robotOrd : TGlobalOrd) (colourMap : Mat)
| AtOverlay (colourMap : Mat) (path : list TGlobalOrd).

Record Threads := mkThreads {
  mem : PlannerState;
  planner : PlannerPc;
  handler : HandlerPc;
  incoming : list Request       (* the requests still to be served *)
}.

(** Line 163, line 164 and line 166 of [requestGoal]. *)
Definition line163 (req : Request) (p : PlannerState) : PlannerState :=
  set_currentGoal (mkOrd (req_x req) (y (currentGoal_ p))) p.
Definition line164 (req : Request) (p : PlannerState) : PlannerState :=
  set_currentGoal (mkOrd (x (currentGoal_ p)) (req_y req)) p.
Definition line166 (p : PlannerState) : PlannerState :=
  set_GoalRecieved true p.

(** A step of the service thread; [None] when it has nothing to do. *)
Definition handler_step (t : Threads) : option Threads :=
  match handler t with
  | Idle =>
      match incoming t with
      | [] => None
      | req :: rest => Some (mkThreads (line163 req (mem t)) (planner t) (After163 req) rest)
      end
  | After163 req => Some (mkThreads (line164 req (mem t)) (planner t) (After164 req) (incoming t))
  | After164 req => Some (mkThreads (line166 (mem t)) (planner t) Idle (incoming t))
  end.

(** A step of the planner thread; [None] when it is blocked in the wait
    (or a call of [build] does not return). *)
Definition planner_step (orc : Z -> BuildOracle) (t : Threads) : option Threads :=
  match planner t with
  | AtWait =>
      if GoalRecieved (mem t)
      then Some (mkThreads (mem t) AtLine87 (handler t) (incoming t))
      else None
  | AtLine87 =>
      let (begun, p) := cycle_begin (mem t) in
      match begun with
      | None => Some (mkThreads p AtWait (handler t) (incoming t))
      | Some (robotOrd, colourMap) =>
          Some (mkThreads p (AtBuild 1 robotOrd colourMap) (handler t) (incoming t))
      end
  | AtBuild cnt robotOrd colourMap =>
      let (r, p) := call_build (orc cnt) robotOrd (mem t) in
      match r with
      | None => None
      | Some path =>
          if (cnt >? 2)%Z || negb (length path =? 0)%nat
          then Some (mkThreads p (AtOverlay colourMap path) (handler t) (incoming t))
          else Some (mkThreads p (AtBuild (cnt + 1) robotOrd colourMap)
                               (handler t) (incoming t))
      end
  | AtOverlay colourMap path =>
      let (_, p) := cycle_finish colourMap path (mem t) in
      Some (mkThreads p AtWait (handler t) (incoming t))
  end.

(** [bool Simulator::requestGoal(Request &req, Response &res)], run as a
    whole. *)
Definition requestGoal (req : Request) : St PlannerState (Response * bool) :=
  modify (line163 req) ;;
  modify (line164 req) ;;
  modify line166 ;;
  ret (mkResponse true, true).

(** Which thread takes the next step. *)
Inductive thread := planner_thread | service_thread.

(** The threads run as a schedule says; [None] when the schedule asks a
    thread to step that cannot. *)
Fixpoint run (orc : Z -> BuildOracle) (schedule : list thread) (t : Threads)
  : option Threads :=
  match schedule with
  | [] => Some t
  | th :: schedule' =>
      match (match th with
             | planner_thread => planner_step orc t
             | service_thread => handler_step t
             end) with
      | Some t' => run orc schedule' t'
      | None => None
      end
  end.

End Simulator.

(* ================================================================== *)
(** * Collaborators written from the specification

    Instances of the three interfaces, used to run [build] and the
    planner loop on concrete inputs. localmap.cpp and graph.cpp are not
    among the sources: the operations of [LocalMap] and [Graph] follow
    sections 4.1 and 4.2 of the specification. *)

(** ** Exact rationals for doubles

    Every operation is exact except [dsqrt], which rounds down to the
    denominator of its argument; it is exact on the squares of rationals,
    which is where the examples below use it. *)
Module QDoubleImpl.
Open Scope Q_scope.

(** [std::round]: to the nearest integer, halves away from zero. *)
Definition round_half_away (q : Q) : Q :=
  if Qle_bool 0 q then inject_Z (Qfloor (q + (1 # 2)))
  else inject_Z (Qceiling (q - (1 # 2))).

Definition sqrt_down (q : Q) : Q :=
  Qred (Z.sqrt (Qnum q * Zpos (Qden q)) # Qden q).
End QDoubleImpl.

#[export] Instance QDouble : Double.
Proof.
  refine {| double := Q;
            dlit q := Qred q;
            dadd a b := Qred (a + b);
            dsub a b := Qred (a - b);
            dmul a b := Qred (a * b);
            ddiv a b := Qred (a / b);
            dabs a := Qred (Qabs a);
            dsqrt := QDoubleImpl.sqrt_down;
            dround a := QDoubleImpl.round_half_away a;
            deqb := Qeq_bool;
            dltb a b := negb (Qle_bool b a);
            deqb_sym := _ |}.
  intros a b.
  destruct (Qeq_bool a b) eqn:E1, (Qeq_bool b a) eqn:E2; try reflexivity.
  - apply Qeq_bool_eq, Qeq_sym, Qeq_eq_bool in E1. congruence.
  - apply Qeq_bool_eq, Qeq_sym, Qeq_eq_bool in E2. congruence.
Defined.

(** ** The Grid of section 4.1 *)
Module SpecGrid.
Open Scope Z_scope.

(** A Cell: [(col, row)]. *)
Definition Cell := (Z * Z)%type.

(** An image: its rows of occupancy bytes and, for a colour copy, the
    segments drawn on it. An image with no row or no column is empty. *)
Record Image := mkImage {
  cells : list (list Z);
  strokes : list (Cell * Cell)
}.

Record Grid := mkGrid { size_m : Q; resolution : Q }.

Definition height (i : Image) : Z := Z.of_nat (length (cells i)).
Definition width (i : Image) : Z :=
  match cells i with [] => 0 | r :: _ => Z.of_nat (length r) end.

Definition empty (i : Image) : bool := (height i =? 0) || (width i =? 0).

Definition byte_at (i : Image) (c : Cell) : option Z :=
  let (col, row) := c in
  if (0 <=? col) && (0 <=? row) then
    match nth_error (cells i) (Z.to_nat row) with
    | Some r => nth_error r (Z.to_nat col)
    | None => None
    end
  else None.

Definition FreeThreshold : Z := 127.

(** Modelled from the spec: [LocalMap::isAccessible], whose source is
    missing. Section 4.1, is_free: "true iff the cell is inside bounds AND
    its occupancy byte exceeds the FreeThreshold". *)
Definition is_free (i : Image) (c : Cell) : bool :=
  match byte_at i c with
  | Some b => FreeThreshold <? b
  | None => false
  end.

Definition round_to_Z (q : Q) : Z := Qfloor (QDoubleImpl.round_half_away q).

(** Modelled from the spec: [LocalMap::convertToPoint], whose source is
    missing. Section 4.1, world_to_cell:
    "col = round((p.x - ref.x)/res + width/2),
    row = round(height/2 - (p.y - ref.y)/res)", the grid being
    [size_m / resolution] cells wide and high. *)
Definition world_to_cell (g : Grid) (ref p : @TGlobalOrd QDouble) : Cell :=
  let n := (size_m g / resolution g)%Q in
  (round_to_Z ((x p - x ref) / resolution g + n / 2)%Q,
   round_to_Z (n / 2 - (y p - y ref) / resolution g)%Q).

(** [lo, lo+1, ..., lo+n-1] *)
Fixpoint zrange (lo : Z) (n : nat) : list Z :=
  match n with
  | O => []
  | S n' => lo :: zrange (lo + 1) n'
  end.

(** Modelled from the spec: [LocalMap::expandConfigSpace], whose source
    is missing. Section 4.1, expand_cspace: "dilate occupied (non-free)
    regions outward by ceil(robot_diameter_m / (2 * resolution)) cells
    using a square structuring element": a cell takes the least byte of
    the cells of the image within that many columns and rows of it. *)
Definition expand_cspace (g : Grid) (i : Image) (robot_diameter_m : Q) : Image :=
  let k := Qceiling (robot_diameter_m / (2 * resolution g))%Q in
  let window := zrange (- k) (Z.to_nat (2 * k + 1)) in
  let dilated (col row : Z) (b : Z) : Z :=
    fold_left (fun acc dr =>
      fold_left (fun acc dc =>
        match byte_at i (col + dc, row + dr) with
        | Some b' => Z.min acc b'
        | None => acc
        end) window acc) window b in
  mkImage
    (map (fun rr => map (fun cb => dilated (fst cb) (fst rr) (snd cb))
                        (combine (zrange 0 (length (snd rr))) (snd rr)))
         (combine (zrange 0 (length (cells i))) (cells i)))
    (strokes i).

(** The cells Bresenham's algorithm visits from [a] to [b]. *)
Fixpoint bresenham (fuel : nat) (x0 y0 x1 y1 dx dy sx sy err : Z) : list Cell :=
  match fuel with
  | O => [(x0, y0)]
  | S fuel' =>
      if (x0 =? x1) && (y0 =? y1) then [(x0, y0)]
      else
        let e2 := 2 * err in
        let stepx := dy <=? e2 in
        let stepy := e2 <=? dx in
        let err' := err + (if stepx then dy else 0) + (if stepy then dx else 0) in
        (x0, y0) :: bresenham fuel' (if stepx then x0 + sx else x0)
                                    (if stepy then y0 + sy else y0)
                                    x1 y1 dx dy sx sy err'
  end.

Definition segment (a b : Cell) : list Cell :=
  let '(x0, y0) := a in
  let '(x1, y1) := b in
  let dx := Z.abs (x1 - x0) in
  let dy := - Z.abs (y1 - y0) in
  bresenham (Z.to_nat (dx - dy)) x0 y0 x1 y1 dx dy
            (if x0 <? x1 then 1 else -1) (if y0 <? y1 then 1 else -1) (dx + dy).

(** Modelled from the spec: [LocalMap::canConnect], whose source is
    missing. Section 4.1, can_connect: "rasterise the segment a->b using
    Bresenham; return true iff every visited cell is free". *)
Definition can_connect (i : Image) (a b : Cell) : bool :=
  forallb (is_free i) (segment a b).

Definition cell_eqb (a b : Cell) : bool := (fst a =? fst b) && (snd a =? snd b).

(** Modelled from the spec: [LocalMap::overlayPRM] and
    [LocalMap::overlayPath], whose source is missing. Section 4.3.5: "for
    every edge in Graph, draw a thin line between the pixel projections of
    its endpoints" and "if a path is supplied, draw its consecutive
    segments". *)
Definition draw_edges (i : Image) (prm : list (Cell * Cell)) : Image :=
  mkImage (cells i) (strokes i ++ prm).

Fixpoint consecutive {A} (l : list A) : list (A * A) :=
  match l with
  | a :: (b :: _) as l' => (a, b) :: consecutive l'
  | _ => []
  end.

Definition draw_path (i : Image) (path : list Cell) : Image :=
  mkImage (cells i) (strokes i ++ consecutive path).

End SpecGrid.

#[export] Instance SpecGridOps : @LocalMapOps QDouble := {|
  Mat := SpecGrid.Image;
  Point := SpecGrid.Cell;
  LocalMap := SpecGrid.Grid;
  mkLocalMap := SpecGrid.mkGrid;
  lmap_setMapSize sz g := SpecGrid.mkGrid sz (SpecGrid.resolution g);
  point_eqb := SpecGrid.cell_eqb;
  mat_empty := SpecGrid.empty;
  cvtColor i := i;
  convertToPoint := SpecGrid.world_to_cell;
  isAccessible _ i p := SpecGrid.is_free i p;
  canConnect _ i a b := SpecGrid.can_connect i a b;
  expandConfigSpace := SpecGrid.expand_cspace;
  overlayPRM _ := SpecGrid.draw_edges;
  overlayPath _ := SpecGrid.draw_path
|}.

(** ** The Graph of section 4.2 *)
Module SpecGraph.
Open Scope Q_scope.

Definition Edges := list (vertex * Q).

(** The nodes are kept in increasing order of their ids. *)
Record T := mk {
  MaxDegree : N;
  MaxEdgeLen : Q;
  nodes : list (vertex * Edges)
}.

Fixpoint find_node (v : vertex) (l : list (vertex * Edges)) : option Edges :=
  match l with
  | [] => None
  | (k, e) :: l' => if (k =? v)%N then Some e else find_node v l'
  end.

Fixpoint put_node (v : vertex) (e : Edges) (l : list (vertex * Edges))
  : list (vertex * Edges) :=
  match l with
  | [] => [(v, e)]
  | (k, e') :: l' =>
      if (v <? k)%N then (v, e) :: l
      else if (k =? v)%N then (v, e) :: l'
      else (k, e') :: put_node v e l'
  end.

Definition neighbours (v : vertex) (g : T) : Edges :=
  match find_node v (nodes g) with Some e => e | None => [] end.

(** Modelled from the spec: [Graph::addVertex], whose source is missing.
    Section 4.2, add_vertex: "insert v with empty neighbour set;
    idempotent if v already present". *)
Definition add_vertex (v : vertex) (g : T) : T :=
  match find_node v (nodes g) with
  | Some _ => g
  | None => mk (MaxDegree g) (MaxEdgeLen g) (put_node v [] (nodes g))
  end.

(** Modelled from the spec: [Graph::addEdge], whose source is missing.
    Section 4.2, add_edge: "refuses and returns false if u==v, w <= 0,
    w > MaxEdgeLen, either endpoint is at capacity, or the edge already
    exists. Otherwise inserts symmetrically and returns true." *)
Definition add_edge (u v : vertex) (w : Q) (g : T) : bool * T :=
  let nu := neighbours u g in
  let nv := neighbours v g in
  if (u =? v)%N
     || Qle_bool w 0
     || negb (Qle_bool w (MaxEdgeLen g))
     || (MaxDegree g <=? N.of_nat (length nu))%N
     || (MaxDegree g <=? N.of_nat (length nv))%N
     || existsb (fun n => (fst n =? v)%N) nu
  then (false, g)
  else (true, mk (MaxDegree g) (MaxEdgeLen g)
                 (put_node v (nv ++ [(u, w)])
                    (put_node u (nu ++ [(v, w)]) (nodes g)))).

(** The tentative distance and the predecessor of each vertex reached. *)
Definition Tentative := list (vertex * (Q * vertex)).

Fixpoint tent_find (v : vertex) (t : Tentative) : option (Q * vertex) :=
  match t with
  | [] => None
  | (k, e) :: t' => if (k =? v)%N then Some e else tent_find v t'
  end.

Fixpoint tent_put (v : vertex) (e : Q * vertex) (t : Tentative) : Tentative :=
  match t with
  | [] => [(v, e)]
  | (k, e') :: t' =>
      if (k =? v)%N then (v, e) :: t' else (k, e') :: tent_put v e t'
  end.

Definition closed_in (v : vertex) (closed : list vertex) : bool :=
  existsb (N.eqb v) closed.

(** The open vertex of least tentative distance, "ties broken by smaller
    VertexId". *)
Definition pick_min (t : Tentative) (closed : list vertex) : option (vertex * Q) :=
  fold_left
    (fun best e =>
       let '(v, (d, _)) := e in
       if closed_in v closed then best
       else match best with
            | None => Some (v, d)
            | Some (bv, bd) =>
                if negb (Qle_bool bd d) || (Qeq_bool d bd && (v <? bv)%N)
                then Some (v, d) else best
            end)
    t None.

Definition relax (u : vertex) (du : Q) (closed : list vertex)
  (t : Tentative) (n : vertex * Q) : Tentative :=
  let (v, w) := n in
  if closed_in v closed then t
  else
    let nd := Qred (du + w) in
    match tent_find v t with
    | Some (d, _) => if negb (Qle_bool d nd) then tent_put v (nd, u) t else t
    | None => tent_put v (nd, u) t
    end.

Fixpoint dijkstra (fuel : nat) (g : T) (t : Tentative) (closed : list vertex)
  : Tentative :=
  match fuel with
  | O => t
  | S fuel' =>
      match pick_min t closed with
      | None => t
      | Some (u, du) =>
          dijkstra fuel' g (fold_left (relax u du (u :: closed)) (neighbours u g) t)
                   (u :: closed)
      end
  end.

Fixpoint walk_back (fuel : nat) (t : Tentative) (src v : vertex)
  (acc : list vertex) : list vertex :=
  match fuel with
  | O => []
  | S fuel' =>
      if (v =? src)%N then src :: acc
      else match tent_find v t with
           | Some (_, p) => walk_back fuel' t src p (v :: acc)
           | None => []
           end
  end.

(** Modelled from the spec: [Graph::shortestPath], whose source is
    missing. Section 4.2, shortest_path: "Dijkstra with a min-priority
    queue keyed by tentative distance. Returns empty when unreachable."
    For [src = dst] it returns [[src]] when [src] is a vertex of the
    graph. *)
Definition shortest_path (src dst : vertex) (g : T) : list vertex :=
  match find_node src (nodes g) with
  | None => []
  | Some _ =>
      let n := S (length (nodes g)) in
      let t := dijkstra n g [(src, (0, src))] [] in
      match tent_find dst t with
      | None => []
      | Some _ => walk_back n t src dst []
      end
  end.

End SpecGraph.

#[export] Instance SpecGraphOps : @GraphOps QDouble := {|
  Graph := SpecGraph.T;
  mkGraph d len := SpecGraph.mk d len [];
  addVertex := SpecGraph.add_vertex;
  addEdge := SpecGraph.add_edge;
  shortestPath := SpecGraph.shortest_path;
  container := SpecGraph.nodes
|}.

(* ================================================================== *)
(** * Operations the sources only declare

    prmplanner.h declares [optimisePath] and [violatingSpace]; no source
    file defines them, and [GlobalMap] calls neither. *)
Section Declared.
Context `{D : Double} `{G : !GraphOps} `{L : !LocalMapOps}.

(** The last ordinate of [rest] that [from] can connect to, with what
    follows it. *)
Fixpoint furthest_connectable (m : Mat) (s : GlobalMap) (from : TGlobalOrd)
  (rest : list TGlobalOrd) : option (TGlobalOrd * list TGlobalOrd) :=
  match rest with
  | [] => None
  | q :: rest' =>
      match furthest_connectable m s from rest' with
      | Some r => Some r
      | None =>
          if canConnect (lmap_ s) m
               (convertToPoint (lmap_ s) (reference_ s) from)
               (convertToPoint (lmap_ s) (reference_ s) q)
          then Some (q, rest') else None
      end
  end.

Fixpoint optimise_from (fuel : nat) (m : Mat) (s : GlobalMap) (from : TGlobalOrd)
  (rest : list TGlobalOrd) : list TGlobalOrd :=
  match fuel, rest with
  | _, [] => [from]
  | O, _ => from :: rest
  | S fuel', q :: rest' =>
      match furthest_connectable m s from rest with
      | Some (pj, after) => from :: optimise_from fuel' m s pj after
      | None => from :: optimise_from fuel' m s q rest'
      end
  end.

(** Modelled from the spec: [PrmPlanner::optimisePath] is declared in
    prmplanner.h and defined nowhere. Section 4.3.4: "Result starts with
    p[0]. Let i = 0. Find the largest j > i such that
    Grid.can_connect(cell(p[i]), cell(p[j])). Append p[j]; set i = j.
    Repeat until i == n." The section does not say what happens when no
    such [j] exists; the next ordinate is kept then. *)
Definition optimisePath (m : Mat) (path : list TGlobalOrd) (s : GlobalMap)
  : list TGlobalOrd :=
  match path with
  | [] => []
  | p0 :: rest => optimise_from (length rest) m s p0 rest
  end.


End Declared.

(* ================================================================== *)
(** * Sequences of calls of findOrAdd *)
Section FindOrAddRuns.
Context `{D : Double} `{G : !GraphOps} `{L : !LocalMapOps}.

(** One call of [findOrAdd]: the object before, the argument, the vertex
    returned and the object after. *)
Record Call := mkCall {
  pre : GlobalMap;
  arg : TGlobalOrd;
  result : vertex;
  post : GlobalMap
}.

(** The calls [findOrAdd(p)] for the ordinates [ps], one after the other. *)
Fixpoint findOrAdd_all (ps : list TGlobalOrd) (s : GlobalMap) : list Call * GlobalMap :=
  match ps with
  | [] => ([], s)
  | p :: ps' =>
      let (v, s') := findOrAdd p s in
      let (calls, s'') := findOrAdd_all ps' s' in
      (mkCall s p v s' :: calls, s'')
  end.

(** The call allocated a vertex id. *)
Definition allocates (c : Call) : bool := negb (existsAsVertex (arg c) (pre c)).

(** The ids handed out by a sequence of calls, in the order of the calls. *)
Definition issued (calls : list Call) : list vertex :=
  map result (filter allocates calls).

(** (R1) No two vertices share a WorldOrd: no two entries of the table
    hold ordinates that compare equal, in either order. *)
Definition no_shared_ord (l : LUT) : Prop :=
  ForallOrdPairs (fun a b => same_ord (snd a) (snd b) = false
                             /\ same_ord (snd b) (snd a) = false) l.

(** What the specification says of one call. *)
Definition findOrAdd_contract (c : Call) : Prop :=
  if existsAsVertex (arg c) (pre c) then
    post c = pre c
    /\ exists o, In (result c, o) (vertexLUT_ (pre c)) /\ same_ord o (arg c) = true
  else
    result c = nextVertexId_ (pre c)
    /\ ~ In (result c) (keys (vertexLUT_ (pre c)))
    /\ vertexLUT_ (post c) = vertexLUT_ (pre c) ++ [(result c, arg c)]
    /\ graph_ (post c) = addVertex (result c) (graph_ (pre c))
    /\ nextVertexId_ (post c) = (result c + 1)%N
    /\ lmap_ (post c) = lmap_ (pre c)
    /\ reference_ (post c) = reference_ (pre c)
    /\ mapSize_ (post c) = mapSize_ (pre c)
    /\ robotDiameter_ (post c) = robotDiameter_ (pre c).

(** The ids of the table are below the next id to hand out. *)
Definition ids_below_next (s : GlobalMap) : Prop :=
  Forall (fun k => (k < nextVertexId_ s)%N) (keys (vertexLUT_ s)).

End FindOrAddRuns.

(* ================================================================== *)
(** * What the traces of build are checked against *)
Section TraceShapes.
Context `{D : Double} `{G : !GraphOps} `{L : !LocalMapOps}.

Definition is_query (e : event) : bool :=
  match e with ShortestPath _ _ _ => true | _ => false end.

Definition is_iteration (e : event) : bool :=
  match e with Iteration _ => true | _ => false end.

(** How often the body of the sampling loop was entered. *)
Definition iterations (evs : list event) : nat :=
  length (filter is_iteration evs).

(** Every shortest-path query among [evs] is a query from [vS] to [vG]. *)
Definition queries_only (vS vG : vertex) (evs : list event) : Prop :=
  Forall (fun e => match e with
                   | ShortestPath s g _ => s = vS /\ g = vG
                   | _ => True
                   end) evs.

(** The trace makes no shortest-path query before it has called
    [findOrAdd(start)] and [findOrAdd(goal)], and every query it makes is
    between the two vertices those calls returned. *)
Definition ends_found_before_queries (start goal : TGlobalOrd)
  (tr : list event) : Prop :=
  exists pre post vS vG,
    tr = pre ++ post
    /\ Forall (fun e => is_query e = false) pre
    /\ In (FindOrAdd start vS) pre
    /\ In (FindOrAdd goal vG) pre
    /\ queries_only vS vG post.

(** [path] is the ordinate translation of [vPath]: each ordinate is the
    entry of the table for the vertex at the same place. *)
Definition translates (vPath : list vertex) (path : list TGlobalOrd)
  (s : GlobalMap) : Prop :=
  Forall2 (fun v o => lut_find v (vertexLUT_ s) = Some o) vPath path.

(** [build] ended on a shortest-path query from [vS] to [vG] that found
    the vertex path [vPath], and returns its translation. *)
Definition returns_found_path (vS vG : vertex) (path : list TGlobalOrd)
  (b : BuildState) : Prop :=
  exists vPath evs,
    trace b = evs ++ [ShortestPath vS vG vPath]
    /\ vPath = shortestPath vS vG (graph_ (self b))
    /\ vPath <> []
    /\ translates vPath path (self b)
    /\ length path = length vPath.

(** The first claim about [build], for one call: it checks accessibility
    first; it returns the empty path when start or goal is not
    accessible; otherwise it calls [findOrAdd] for both before it makes a
    shortest-path query. *)
Definition checks_then_finds (fuel : nat) (rnd : Z -> double * double)
  (vStart0 vGoal0 : vertex) (m : Mat) (start goal : TGlobalOrd)
  (s : GlobalMap) : Prop :=
  let rb := run_build fuel rnd vStart0 vGoal0 m start goal s in
  let m' := expandConfigSpace (lmap_ s) m (robotDiameter_ s) in
  let pStart := convertToPoint (lmap_ s) (reference_ s) start in
  let pGoal := convertToPoint (lmap_ s) (reference_ s) goal in
  (exists rest, trace (snd rb)
                = Accessible pStart (isAccessible (lmap_ s) m' pStart) :: rest)
  /\ if isAccessible (lmap_ s) m' pStart && isAccessible (lmap_ s) m' pGoal
     then ends_found_before_queries start goal (trace (snd rb))
     else fst rb = Some [] /\ self (snd rb) = s
          /\ Forall (fun e => is_query e = false) (trace (snd rb)).

(** The second claim about [build], for one call: a non-empty path it
    returns is [optimisePath] of the translation of the vertex path of
    its last query. *)
Definition returns_optimised (fuel : nat) (rnd : Z -> double * double)
  (vStart0 vGoal0 : vertex) (m : Mat) (start goal : TGlobalOrd)
  (s : GlobalMap) : Prop :=
  let rb := run_build fuel rnd vStart0 vGoal0 m start goal s in
  match fst rb with
  | Some (p :: path) =>
      exists vS vG vPath evs translation,
        trace (snd rb) = evs ++ [ShortestPath vS vG vPath]
        /\ translates vPath translation (self (snd rb))
        /\ p :: path = optimisePath (mat (snd rb)) translation (self (snd rb))
  | _ => True
  end.


(** Every shortest-path query of the trace came back empty. *)
Definition no_path_found (tr : list event) : Prop :=
  Forall (fun e => match e with ShortestPath _ _ r => r = [] | _ => True end) tr.


End TraceShapes.

(* ================================================================== *)
(** * What a pass of the planner loop is checked against *)
Section PassShapes.
Context `{D : Double} `{G : !GraphOps} `{L : !LocalMapOps}.

Definition is_path_msg (msg : message) : bool :=
  match msg with PathMsg _ => true | OverlayMsg _ => false end.

(** What a pass handed to the publishers. *)
Definition published_by (p p' : PlannerState) : list message :=
  skipn (length (published p)) (published p').

(** The calls of [build] a pass made. *)
Definition built_by (p p' : PlannerState) : list BuildCall :=
  skipn (length (builds p)) (builds p').

(** What one pass of the planner loop does, from the state [p] it starts
    in: the calls of [build] it makes and what it hands to the
    publishers. *)
Definition pass_outcome (p p' : PlannerState) : Prop :=
  if mat_empty (latest_map p) then
    published p' = published p /\ builds p' = builds p
  else
    exists front c img,
      builds p' = builds p ++ front ++ [c]
      /\ (length front <= 2)%nat
      /\ Forall (fun c => call_result c = []) front
      /\ (call_result c = [] -> length front = 2%nat)
      /\ Forall (fun c =>
           call_start c = mkOrd (geometry_msgs.x (geometry_msgs.position (latest_pose p)))
                                (geometry_msgs.y (geometry_msgs.position (latest_pose p)))
           /\ call_goal c = currentGoal_ p) (front ++ [c])
      /\ published p'
         = published p ++ OverlayMsg img
             :: (if (0 <? length (call_result c))%nat
                 then [PathMsg (posePath (call_result c) (latest_pose p))]
                 else []).

End PassShapes.

(* ================================================================== *)
(** * Runs on a 40 x 40 map

    The planner of the examples has a 4 m map at 0.1 m per cell and a
    robot 0.2 m wide, on the Grid and the Graph written from the
    specification; the reference is the origin, so a world ordinate
    [(x, y)] is the cell [(20 + 10 x, 20 - 10 y)]. *)
Module Runs.
Open Scope Q_scope.

(** An image of [n] rows of [n] free cells. *)
Definition free_image (n : nat) : SpecGrid.Image :=
  SpecGrid.mkImage (repeat (repeat 255%Z n) n) [].

Fixpoint set_nth {A} (n : nat) (a : A) (l : list A) : list A :=
  match l, n with
  | [], _ => []
  | _ :: l', O => a :: l'
  | b :: l', S n' => b :: set_nth n' a l'
  end.

(** The image with the cell [c] occupied. *)
Definition occupy (c : SpecGrid.Cell) (i : SpecGrid.Image) : SpecGrid.Image :=
  let (col, row) := c in
  SpecGrid.mkImage
    (set_nth (Z.to_nat row)
       (set_nth (Z.to_nat col) 0%Z (nth (Z.to_nat row) (SpecGrid.cells i) []))
       (SpecGrid.cells i))
    (SpecGrid.strokes i).

Definition fresh_planner : GlobalMap := GlobalMap_new 4 (1 # 10) (2 # 10).

(** ** A first call, and a second one with the same ends *)

Definition start : TGlobalOrd := mkOrd (-3 # 2) 0.
Definition goal : TGlobalOrd := mkOrd (3 # 2) 0.
Definition origin : TGlobalOrd := mkOrd 0 0.

(** Every draw falls into the cell of the origin. *)
Definition at_origin (n : Z) : Q * Q := (2 # 100, 1 # 100).

(** From the new planner on the free map: start and goal are 3 m apart,
    further than an edge may be long, and the first sample joins them. *)
Definition first_build :=
  run_build 1000 at_origin 7%N 9%N (free_image 40) start goal fresh_planner.

(** The map with the cell of the goal occupied. *)
Definition blocked : SpecGrid.Image := occupy (35, 20)%Z (free_image 40).

(** The same start and goal again, on the planner the first call left,
    with the goal now in an obstacle. The two locals hold the vertices
    [0] and [1] the first call left in them. *)
Definition second_build :=
  run_build 1000 at_origin 0%N 1%N blocked start goal (self (snd first_build)).

(** ** Samples next to each other *)

Definition far_start : TGlobalOrd := mkOrd (-19 # 10) 0.
Definition far_goal : TGlobalOrd := mkOrd (19 # 10) 0.

(** The first draw is [(-1, 0)], the second [(-0.9, 0)], one cell further. *)
Definition close_draws (n : Z) : Q * Q :=
  if (n =? 1)%Z then (-1, 0) else if (n =? 2)%Z then (-9 # 10, 0) else (9 # 10, 0).


(** ** A pass of the planner loop on an empty map *)

Definition pose_at (px py pz : Q) : geometry_msgs.Pose :=
  geometry_msgs.mkPose (geometry_msgs.mkPoint px py pz)
                       (geometry_msgs.mkQuaternion 0 0 0 1).

Definition oracle (n : Z) : BuildOracle := mkOracle at_origin 0%N 0%N.

Definition empty_image : SpecGrid.Image := SpecGrid.mkImage [] [].

(** A goal is pending, and the map at the front of the queue is empty. *)
Definition with_empty_map : PlannerState :=
  mkPlannerState fresh_planner goal true
    (mkBuffer [empty_image] [pose_at 0 0 0])
    empty_image geometry_msgs.Pose_default [] [].

(** ** Two requests and the planner thread *)

(** The planner waits; the free map and a pose at the origin are queued;
    two requests come in: first [(5, 5)], outside the map, then [(1, 1)]. *)
Definition two_requests : Threads :=
  mkThreads
    (mkPlannerState fresh_planner origin false
       (mkBuffer [free_image 40] [pose_at 0 0 0])
       empty_image geometry_msgs.Pose_default [] [])
    AtWait Idle [mkRequest 5 5; mkRequest 1 1].

(** The first request is served; the planner wakes, starts its pass and
    calls [build], which returns nothing; the second request is served up
    to line 163; the planner calls [build] again; the service thread
    goes on to lines 164 and 166; the planner calls [build] a third time
    and publishes. *)
Definition torn_schedule : list thread :=
  [service_thread; service_thread; service_thread;
   planner_thread; planner_thread; planner_thread;
   service_thread;
   planner_thread;
   service_thread; service_thread;
   planner_thread; planner_thread].

End Runs.

(* ================================================================== *)
(** * What the other functions of globalmap.cpp are checked against *)
Section RoadmapShapes.
Context `{D : Double} `{G : !GraphOps} `{L : !LocalMapOps}.

(** The keys of a [std::map] are strictly increasing. *)
Definition map_ok (l : LUT) : Prop := StronglySorted N.lt (keys l).

(** The test for it: each key is below the next one. *)
Fixpoint increasing (ks : list vertex) : bool :=
  match ks with
  | k :: (k' :: _) as ks' => (k <? k')%N && increasing ks'
  | _ => true
  end.

(** The ordinate [operator[]] gives for a key with no entry. *)
Definition default_ord : TGlobalOrd := mkOrd (dlit 0) (dlit 0).

(** What [vertexLUT_[v]] evaluates to on the table [l]. *)
Definition entry_or_default (v : vertex) (l : LUT) : TGlobalOrd :=
  match lut_find v l with Some o => o | None => default_ord end.

(** [s'] has the members of [s] other than the graph, the table and the
    next id. *)
Definition same_settings (s s' : GlobalMap) : Prop :=
  lmap_ s' = lmap_ s /\ reference_ s' = reference_ s
  /\ mapSize_ s' = mapSize_ s /\ robotDiameter_ s' = robotDiameter_ s.

(** Every entry of the table of [s] is an entry of the table of [s']. *)
Definition entries_kept (s s' : GlobalMap) : Prop :=
  forall k o, lut_find k (vertexLUT_ s) = Some o ->
              lut_find k (vertexLUT_ s') = Some o.

(** Every vertex the graph's container lists, as a node or as a
    neighbour, has an entry in the table. *)
Definition graph_known (s : GlobalMap) : bool :=
  forallb (fun node =>
             match lut_find (fst node) (vertexLUT_ s) with
             | Some _ =>
                 forallb (fun neighbour =>
                            match lut_find (fst neighbour) (vertexLUT_ s) with
                            | Some _ => true
                            | None => false
                            end) (snd node)
             | None => false
             end) (container (graph_ s)).

(** The test of [std::find_if] in [constructPRM]: [prm] holds the pair
    [(b, a)]. *)
Definition holds_reverse (a b : Point) (prm : list (Point * Point)) : bool :=
  existsb (fun element => point_eqb (fst element) b && point_eqb (snd element) a) prm.

(** How many neighbour entries the graph's container lists. *)
Definition neighbour_entries (s : GlobalMap) : nat :=
  list_sum (map (fun node => length (snd node)) (container (graph_ s))).

(** What the body of the range-for of [connectToExistingNodes] does to the
    graph for one entry of the table, [oNode] being the ordinate of
    [node]. *)
Definition connect_to (m : Mat) (node : vertex) (oNode : TGlobalOrd) (s : GlobalMap)
  (g : Graph) (vert : vertex * TGlobalOrd) : Graph :=
  if (fst vert =? node)%N then g
  else if canConnect (lmap_ s) m
            (convertToPoint (lmap_ s) (reference_ s) oNode)
            (convertToPoint (lmap_ s) (reference_ s) (snd vert))
       then snd (addEdge node (fst vert) (distance oNode (snd vert)) g)
       else g.

(** [m] after [n] calls of [lmap_.expandConfigSpace(m, robotDiameter_)]. *)
Definition dilated (n : nat) (s : GlobalMap) (m : Mat) : Mat :=
  Nat.iter n (fun m => expandConfigSpace (lmap_ s) m (robotDiameter_ s)) m.

(** [s'] is [s] but for entries [{0, 0}] under keys that had none: what
    reading the table with [operator[]] can do to the object. *)
Definition adds_defaults_only (s s' : GlobalMap) : Prop :=
  graph_ s' = graph_ s /\ nextVertexId_ s' = nextVertexId_ s
  /\ same_settings s s'
  /\ forall k, lut_find k (vertexLUT_ s') = lut_find k (vertexLUT_ s)
               \/ (lut_find k (vertexLUT_ s) = None
                   /\ lut_find k (vertexLUT_ s') = Some default_ord).

(** The body of the inner range-for of [constructPRM], run on the pairs
    listed so far and the object. *)
Definition prm_neighbour (pCurrent : Point) (acc : list (Point * Point) * GlobalMap)
  (neighbour : vertex * double) : list (Point * Point) * GlobalMap :=
  let (pNeighbour, s) := pointOf (fst neighbour) (snd acc) in
  (if holds_reverse pCurrent pNeighbour (fst acc) then fst acc
   else fst acc ++ [(pCurrent, pNeighbour)], s).

(** The body of the outer range-for of [constructPRM]. *)
Definition prm_node (acc : list (Point * Point) * GlobalMap)
  (node : vertex * list (vertex * double)) : list (Point * Point) * GlobalMap :=
  let (pCurrent, s) := pointOf (fst node) (snd acc) in
  fold_left (prm_neighbour pCurrent) (snd node) (fst acc, s).

(** From [s] to [s'] the roadmap has only grown, by at most [n] vertex
    ids: the members other than the graph, the table and the next id are
    the same; the next id went up by at most [n]; and the table, when its
    keys were in order, still has them in order and has kept every
    entry. *)
Definition grows_by (n : N) (s s' : GlobalMap) : Prop :=
  same_settings s s'
  /\ (nextVertexId_ s <= nextVertexId_ s' <= nextVertexId_ s + n)%N
  /\ (map_ok (vertexLUT_ s) ->
      map_ok (vertexLUT_ s') /\ entries_kept s s').

End RoadmapShapes.

(* ================================================================== *)
(** * What the two threads are checked against *)
Section ThreadShapes.
Context `{D : Double} `{G : !GraphOps} `{L : !LocalMapOps}.

(** The service thread serves [n] requests from beginning to end. *)
Definition serve (n : nat) : list thread := repeat service_thread (3 * n).

(** The ordinate a request asks for. *)
Definition requested (req : Request) : TGlobalOrd := mkOrd (req_x req) (req_y req).

End ThreadShapes.

(* ================================================================== *)
(** * Further runs on the 40 x 40 map *)
Module OtherRuns.
Import Runs.
Open Scope Q_scope.

(** The draws of [at_origin] for the passes 1 to 999, and a point outside
    the map for every other number. *)
Definition at_origin_in_range (n : Z) : Q * Q :=
  if ((1 <=? n) && (n <=? 999))%Z then at_origin n else (5, 5).

(** The roadmap the first call of [build] left. *)
Definition after_first_build : GlobalMap := self (snd first_build).

(** A later call of [build], with two new ends, on that roadmap. *)
Definition later_build :=
  run_build 1000 close_draws 0%N 0%N (free_image 40) far_start far_goal
            after_first_build.

(** A goal is pending, and the free map is at the front of the queue. *)
Definition with_free_map : PlannerState :=
  mkPlannerState fresh_planner goal true
    (mkBuffer [free_image 40] [pose_at 0 0 0])
    empty_image geometry_msgs.Pose_default [] [].

(** The planner thread is about to return from the wait, and has. *)
Definition about_to_wake : Threads := mkThreads with_free_map AtWait Idle [].
Definition woken : Threads := mkThreads with_free_map AtLine87 Idle [].

(** The first of the two requests is served up to line 163. *)
Definition first_request_begun : Threads :=
  mkThreads (line163 (mkRequest 5 5) (mem two_requests)) AtWait
            (After163 (mkRequest 5 5)) [mkRequest 1 1].

End OtherRuns.

(* ================================================================== *)
(** * The state monad, unfolded *)

Lemma bind_run {S A B} (c : St S A) (k : A -> St S B) (s : S) :
  bind c k s = k (fst (c s)) (snd (c s)).
Proof. unfold bind. now destruct (c s). Qed.

Ltac run_st :=
  repeat (rewrite ?bind_run; unfold ret, get, gets, modify; simpl).

(* ================================================================== *)
(** * The vertex table *)
Section StdMapFacts.
Context `{Double}.

Lemma same_ord_sym (a b : TGlobalOrd) : same_ord a b = same_ord b a.
Proof. unfold same_ord. now rewrite (deqb_sym (x a)), (deqb_sym (y a)). Qed.

Lemma lut_insert_above v o l :
  Forall (fun k => (k < v)%N) (keys l) -> lut_insert v o l = l ++ [(v, o)].
Proof.
  induction l as [|[k o'] l IH]; simpl; intros Hk; [reflexivity|].
  inversion Hk as [|? ? Hlt Hrest]; subst.
  destruct (N.ltb_spec v k); [lia|].
  destruct (N.eqb_spec k v); [lia|].
  now rewrite IH.
Qed.

Lemma lut_index_present v o l :
  lut_find v l = Some o -> lut_index v l = (o, l).
Proof. unfold lut_index. now intros ->. Qed.

Lemma lut_find_in v l :
  In v (keys l) -> exists o, lut_find v l = Some o.
Proof.
  induction l as [|[k o'] l IH]; simpl; [tauto|].
  intros [->|Hin].
  - rewrite N.eqb_refl. eauto.
  - destruct (k =? v)%N; eauto.
Qed.

End StdMapFacts.

(* ================================================================== *)
(** * findOrAdd and the vertex table *)
Section FindOrAddFacts.
Context `{D : Double} `{G : !GraphOps} `{L : !LocalMapOps}.

Lemma existsAsVertex_false (p : TGlobalOrd) (s : GlobalMap) :
  existsAsVertex p s = false ->
  Forall (fun e => same_ord (snd e) p = false /\ same_ord p (snd e) = false)
         (vertexLUT_ s).
Proof.
  unfold existsAsVertex. intros E. apply Forall_forall. intros e He.
  assert (H : same_ord (snd e) p = false).
  { destruct (same_ord (snd e) p) eqn:Es; [|reflexivity].
    assert (existsb (fun v => same_ord (snd v) p) (vertexLUT_ s) = true)
      by (apply existsb_exists; eauto).
    congruence. }
  split; [assumption|]. now rewrite same_ord_sym.
Qed.

(** When [existsAsVertex] holds, [lookup] finds an entry whose ordinate
    compares equal, whatever its out-parameter held before. *)
Lemma lookup_exists (p : TGlobalOrd) (v0 : vertex) (s : GlobalMap) :
  existsAsVertex p s = true ->
  exists o, lookup p v0 s = (true, snd (lookup p v0 s))
            /\ In (snd (lookup p v0 s), o) (vertexLUT_ s)
            /\ same_ord o p = true.
Proof.
  unfold existsAsVertex, lookup.
  induction (vertexLUT_ s) as [|[k o] l IH]; simpl; [discriminate|].
  destruct (same_ord o p) eqn:E; simpl.
  - intros _. exists o. auto.
  - intros H. destruct (IH H) as (o' & H1 & H2 & H3).
    exists o'. auto.
Qed.

Lemma ForallOrdPairs_snoc {A} (R : A -> A -> Prop) (l : list A) (a : A) :
  ForallOrdPairs R l -> Forall (fun b => R b a) l -> ForallOrdPairs R (l ++ [a]).
Proof.
  induction 1 as [|b l Hb Hl IH]; simpl; intros Ha.
  - constructor; constructor.
  - inversion Ha; subst. constructor.
    + apply Forall_app. split; [assumption|]. constructor; [assumption|constructor].
    + now apply IH.
Qed.

Lemma StronglySorted_snoc (l : list N) (a : N) :
  StronglySorted N.lt l -> Forall (fun b => (b < a)%N) l ->
  StronglySorted N.lt (l ++ [a]).
Proof.
  induction 1 as [|b l Hl IH Hb]; simpl; intros Ha.
  - constructor; constructor.
  - inversion Ha; subst. constructor.
    + now apply IH.
    + apply Forall_app. split; [assumption|]. constructor; [assumption|constructor].
Qed.

(** One call from an object whose ids are below the next one. *)
Lemma findOrAdd_call (p : TGlobalOrd) (s : GlobalMap) :
  ids_below_next s ->
  findOrAdd_contract (mkCall s p (fst (findOrAdd p s)) (snd (findOrAdd p s))).
Proof.
  intros Hb. unfold findOrAdd_contract, findOrAdd. simpl.
  destruct (existsAsVertex p s) eqn:E; simpl.
  - split; [reflexivity|].
    destruct (lookup_exists p 0%N s E) as (o & _ & Hin & Ho). eauto.
  - run_st. unfold ids_below_next in Hb.
    repeat split.
    + intros Hin. rewrite Forall_forall in Hb. specialize (Hb _ Hin). lia.
    + now apply lut_insert_above.
Qed.

Lemma findOrAdd_keeps (p : TGlobalOrd) (s : GlobalMap) :
  ids_below_next s -> no_shared_ord (vertexLUT_ s) ->
  ids_below_next (snd (findOrAdd p s))
  /\ no_shared_ord (vertexLUT_ (snd (findOrAdd p s)))
  /\ (nextVertexId_ s <= nextVertexId_ (snd (findOrAdd p s)))%N.
Proof.
  intros Hb Hn. pose proof (findOrAdd_call p Hb) as C.
  unfold findOrAdd_contract in C. simpl in C.
  destruct (existsAsVertex p s) eqn:E.
  - destruct C as [-> _]. repeat split; auto. lia.
  - destruct C as (Hv & _ & Hl & _ & Hnext & _).
    unfold ids_below_next, no_shared_ord. rewrite Hl, Hnext, Hv.
    unfold keys. rewrite map_app. simpl. repeat split.
    + apply Forall_app. split.
      * eapply Forall_impl; [|exact Hb]. simpl. intros; lia.
      * constructor; [lia|constructor].
    + apply ForallOrdPairs_snoc; [assumption|].
      apply existsAsVertex_false in E.
      eapply Forall_impl; [|exact E]. simpl. tauto.
    + lia.
Qed.

(** A sequence of calls from an object whose ids are below the next one
    and whose table shares no ordinate. *)
Lemma findOrAdd_all_from (ps : list TGlobalOrd) :
  forall s : GlobalMap,
    ids_below_next s -> no_shared_ord (vertexLUT_ s) ->
    Forall findOrAdd_contract (fst (findOrAdd_all ps s))
    /\ ids_below_next (snd (findOrAdd_all ps s))
    /\ no_shared_ord (vertexLUT_ (snd (findOrAdd_all ps s)))
    /\ (nextVertexId_ s <= nextVertexId_ (snd (findOrAdd_all ps s)))%N
    /\ Forall (fun v => (nextVertexId_ s <= v)%N) (issued (fst (findOrAdd_all ps s)))
    /\ StronglySorted N.lt (issued (fst (findOrAdd_all ps s)))
    /\ keys (vertexLUT_ (snd (findOrAdd_all ps s)))
       = keys (vertexLUT_ s) ++ issued (fst (findOrAdd_all ps s)).
Proof.
  induction ps as [|p ps IH]; intros s Hb Hn; simpl.
  - unfold issued; simpl. rewrite app_nil_r.
    repeat split; auto; try constructor. lia.
  - pose proof (findOrAdd_call p Hb) as C.
    destruct (findOrAdd_keeps p Hb Hn) as (Hb' & Hn' & Hle).
    destruct (findOrAdd p s) as [v s'] eqn:Ef. simpl in *.
    specialize (IH s' Hb' Hn').
    destruct (findOrAdd_all ps s') as [calls s''] eqn:Ea. simpl in *.
    destruct IH as (I1 & I2 & I3 & I4 & I5 & I6 & I7).
    split; [constructor; assumption|].
    split; [exact I2|]. split; [exact I3|]. split; [lia|].
    unfold issued in *. cbn [filter].
    replace (allocates (mkCall s p v s')) with (negb (existsAsVertex p s))
      by reflexivity.
    unfold findOrAdd_contract in C. simpl in C.
    destruct (existsAsVertex p s) eqn:E; simpl.
    + destruct C as [-> _]. auto.
    + destruct C as (Hv & _ & Hl & _ & Hnext & _).
      assert (Hafter : Forall (fun u => (v < u)%N) (map result (filter allocates calls))).
      { eapply Forall_impl; [|exact I5]. simpl. intros; lia. }
      split; [|split].
      * constructor; [lia|]. eapply Forall_impl; [|exact Hafter]. simpl. intros; lia.
      * constructor; assumption.
      * rewrite I7, Hl. unfold keys. rewrite map_app. simpl.
        now rewrite <- app_assoc.
Qed.

End FindOrAddFacts.

(* ================================================================== *)
(** * The steps of build *)
Section BuildFacts.
Context `{D : Double} `{G : !GraphOps} `{L : !LocalMapOps}.

Lemma lut_find_insert_absent (v k : vertex) (o : TGlobalOrd) (l : LUT) :
  lut_find v l = None ->
  lut_find k (lut_insert v o l) = if (v =? k)%N then Some o else lut_find k l.
Proof.
  induction l as [|[k0 o0] l IH]; simpl; [reflexivity|].
  destruct (N.eqb_spec k0 v) as [->|Hk0]; [discriminate|]. intros Hv.
  destruct (N.ltb_spec v k0); simpl; [reflexivity|].
  rewrite (IH Hv).
  destruct (N.eqb_spec k0 k) as [->|]; [|reflexivity].
  destruct (N.eqb_spec v k); [congruence|reflexivity].
Qed.

(** [vertexLUT_[v]]: afterwards the table holds what was returned for
    [v], and every entry it held before. *)
Lemma lut_index_spec (v : vertex) (l : LUT) :
  lut_find v (snd (lut_index v l)) = Some (fst (lut_index v l))
  /\ forall k o, lut_find k l = Some o -> lut_find k (snd (lut_index v l)) = Some o.
Proof.
  unfold lut_index. destruct (lut_find v l) eqn:E; simpl.
  - auto.
  - split.
    + rewrite lut_find_insert_absent by exact E. now rewrite N.eqb_refl.
    + intros k o Hk. rewrite lut_find_insert_absent by exact E.
      destruct (N.eqb_spec v k); [congruence|assumption].
Qed.

Lemma vertexLUT_at_frame (v : vertex) (s : GlobalMap) :
  let s' := snd (vertexLUT_at v s) in
  graph_ s' = graph_ s /\ lmap_ s' = lmap_ s /\ reference_ s' = reference_ s
  /\ nextVertexId_ s' = nextVertexId_ s.
Proof.
  unfold vertexLUT_at. destruct (lut_index v (vertexLUT_ s)). simpl. auto.
Qed.

Lemma convertPath_spec (vPath : list vertex) :
  forall s : GlobalMap,
    let r := convertPath vPath s in
    translates vPath (fst r) (snd r)
    /\ length (fst r) = length vPath
    /\ graph_ (snd r) = graph_ s
    /\ forall k o, lut_find k (vertexLUT_ s) = Some o ->
                   lut_find k (vertexLUT_ (snd r)) = Some o.
Proof.
  induction vPath as [|v vPath IH]; intros s; simpl.
  - repeat split; auto. constructor.
  - run_st.
    set (s1 := snd (vertexLUT_at v s)).
    destruct (IH s1) as (T & Len & Gr & Keep).
    destruct (vertexLUT_at_frame v s) as (Gs & _).
    assert (Hv : lut_find v (vertexLUT_ s1) = Some (fst (vertexLUT_at v s))
                 /\ forall k o, lut_find k (vertexLUT_ s) = Some o ->
                                lut_find k (vertexLUT_ s1) = Some o).
    { subst s1. unfold vertexLUT_at.
      pose proof (lut_index_spec v (vertexLUT_ s)) as Hi.
      destruct (lut_index v (vertexLUT_ s)). simpl in *. exact Hi. }
    destruct Hv as (Hv & Keep1).
    repeat split.
    + constructor; [|exact T]. apply Keep. exact Hv.
    + now rewrite Len.
    + fold s1. now rewrite Gr.
    + intros k o Hk. apply Keep, Keep1, Hk.
Qed.

(** The calls of [build], run on a state. *)
Lemma liftG_run {A} (c : St GlobalMap A) (b : BuildState) :
  liftG c b = (fst (c (self b)),
               mkBuildState (snd (c (self b))) (mat b) (trace b)).
Proof. unfold liftG. now destruct (c (self b)). Qed.

Lemma call_isAccessible_run (p : Point) (b : BuildState) :
  call_isAccessible p b
  = (isAccessible (lmap_ (self b)) (mat b) p,
     mkBuildState (self b) (mat b)
       (trace b ++ [Accessible p (isAccessible (lmap_ (self b)) (mat b) p)])).
Proof. reflexivity. Qed.

Lemma call_findOrAdd_run (o : TGlobalOrd) (b : BuildState) :
  call_findOrAdd o b
  = (fst (findOrAdd o (self b)),
     mkBuildState (snd (findOrAdd o (self b))) (mat b)
       (trace b ++ [FindOrAdd o (fst (findOrAdd o (self b)))])).
Proof.
  unfold call_findOrAdd. rewrite bind_run, liftG_run. reflexivity.
Qed.

Lemma call_shortestPath_run (s g : vertex) (b : BuildState) :
  call_shortestPath s g b
  = (shortestPath s g (graph_ (self b)),
     mkBuildState (self b) (mat b)
       (trace b ++ [ShortestPath s g (shortestPath s g (graph_ (self b)))])).
Proof. reflexivity. Qed.

Lemma call_connectToExistingNodes_run (node : vertex) (b : BuildState) :
  call_connectToExistingNodes node b
  = (tt, mkBuildState (snd (connectToExistingNodes (mat b) node (self b)))
                      (mat b) (trace b)).
Proof.
  unfold call_connectToExistingNodes. rewrite bind_run. simpl.
  rewrite liftG_run. now destruct (fst (connectToExistingNodes (mat b) node (self b))).
Qed.

Lemma queries_only_app (vS vG : vertex) (e1 e2 : list event) :
  queries_only vS vG e1 -> queries_only vS vG e2 -> queries_only vS vG (e1 ++ e2).
Proof. unfold queries_only. intros. apply Forall_app. auto. Qed.

Lemma iterations_app (e1 e2 : list event) :
  iterations (e1 ++ e2) = (iterations e1 + iterations e2)%nat.
Proof. unfold iterations. now rewrite filter_app, length_app. Qed.

(** A query that found a vertex path, followed by its translation. *)
Lemma found_then_converted (vS vG : vertex) (b : BuildState) :
  let vPath := shortestPath vS vG (graph_ (self b)) in
  let b1 := snd (call_shortestPath vS vG b) in
  let r := liftG (convertPath vPath) b1 in
  (0 <? length vPath)%nat = true ->
  returns_found_path vS vG (fst r) (snd r)
  /\ trace (snd r) = trace b ++ [ShortestPath vS vG vPath]
  /\ mat (snd r) = mat b
  /\ fst r <> [].
Proof.
  intros vPath b1 r Hlen. subst r b1.
  rewrite call_shortestPath_run, liftG_run. simpl. fold vPath.
  destruct (convertPath_spec vPath (self b)) as (T & Len & Gr & _).
  assert (Hne : vPath <> []).
  { intros E. rewrite E in Hlen. discriminate. }
  repeat split; auto.
  - exists vPath, (trace b). simpl. rewrite Gr. repeat split; auto.
  - intros E. rewrite E in Len. destruct vPath; [congruence|discriminate].
Qed.

(** One pass of the sampling loop: what it adds to the trace, and what
    it returns when it finds a path. *)
Lemma sample_once_spec (draw : double * double) (vS vG : vertex) (b : BuildState) :
  let r := sample_once draw vS vG b in
  exists evs,
    trace (snd r) = trace b ++ evs
    /\ queries_only vS vG evs
    /\ iterations evs = 0%nat
    /\ mat (snd r) = mat b
    /\ match fst r with
       | Some path => path <> [] /\ returns_found_path vS vG path (snd r)
       | None => True
       end.
Proof.
  unfold sample_once. rewrite bind_run. unfold get. cbn [fst snd].
  rewrite bind_run, call_isAccessible_run. cbn [fst snd].
  destruct (isAccessible _ _ _) eqn:Eacc; cbn [negb].
  - rewrite bind_run, call_findOrAdd_run. cbn [fst snd].
    rewrite bind_run, call_connectToExistingNodes_run. cbn [fst snd].
    match goal with
    | |- context [bind (call_shortestPath vS vG) _ ?st] => remember st as b2 eqn:Eb2
    end.
    assert (Htr : exists e1 e2, trace b2 = trace b ++ [e1; e2]
                                /\ is_query e1 = false /\ is_query e2 = false
                                /\ is_iteration e1 = false /\ is_iteration e2 = false).
    { subst b2. cbn [trace]. rewrite <- app_assoc. do 2 eexists.
      split; [reflexivity|]. auto. }
    assert (Hm : mat b2 = mat b) by (subst b2; reflexivity).
    clear Eb2. destruct Htr as (e1 & e2 & Htr & Q1 & Q2 & I1 & I2).
    rewrite bind_run.
    change (fst (call_shortestPath vS vG b2))
      with (shortestPath vS vG (graph_ (self b2))).
    pose proof (found_then_converted vS vG b2) as F. cbv zeta in F.
    destruct (0 <? length (shortestPath vS vG (graph_ (self b2))))%nat eqn:El.
    + specialize (F eq_refl). destruct F as (F1 & F2 & F3 & F4).
      rewrite bind_run. unfold ret. cbn [fst snd].
      exists ([e1; e2] ++ [ShortestPath vS vG (shortestPath vS vG (graph_ (self b2)))]).
      split; [rewrite F2, Htr, <- app_assoc; reflexivity|].
      split; [|split; [|split; [congruence|split; assumption]]].
      * destruct e1, e2; try discriminate; repeat constructor; auto.
      * unfold iterations. simpl. rewrite I1, I2. reflexivity.
    + unfold ret. cbn [fst snd].
      exists ([e1; e2] ++ [ShortestPath vS vG (shortestPath vS vG (graph_ (self b2)))]).
      split; [rewrite call_shortestPath_run; cbn [snd trace];
              rewrite Htr, <- app_assoc; reflexivity|].
      split; [|split; [|split; [|exact I]]].
      * destruct e1, e2; try discriminate; repeat constructor; auto.
      * unfold iterations. simpl. rewrite I1, I2. reflexivity.
      * rewrite call_shortestPath_run. cbn [snd mat]. exact Hm.
  - unfold ret. cbn [fst snd trace mat].
    eexists. split; [reflexivity|].
    repeat split; auto. repeat constructor.
Qed.

(** One turn of [sampling_loop], written out. *)
Lemma sampling_loop_S (rnd : Z -> double * double) (vS vG : vertex) (fuel : nat)
  (cnt : Z) (b : BuildState) :
  sampling_loop (S fuel) rnd vS vG cnt b
  = let cnt' := ((cnt + 1) mod 2 ^ 32)%Z in
    let b1 := mkBuildState (self b) (mat b) (trace b ++ [Iteration cnt']) in
    if (cnt' =? 1000)%Z then (Some [], b1)
    else match fst (sample_once (rnd cnt') vS vG b1) with
         | Some path => (Some path, snd (sample_once (rnd cnt') vS vG b1))
         | None => sampling_loop fuel rnd vS vG cnt'
                     (snd (sample_once (rnd cnt') vS vG b1))
         end.
Proof.
  cbn [sampling_loop]. rewrite bind_run. cbv zeta.
  change (snd (log (Iteration ((cnt + 1) mod 2 ^ 32)) b))
    with (mkBuildState (self b) (mat b)
            (trace b ++ [Iteration ((cnt + 1) mod 2 ^ 32)%Z])).
  destruct (_ =? 1000)%Z; [reflexivity|].
  rewrite bind_run.
  destruct (fst (sample_once _ vS vG _)); reflexivity.
Qed.

Lemma sampling_loop_trace (rnd : Z -> double * double) (vS vG : vertex) (fuel : nat) :
  forall (cnt : Z) (b : BuildState),
    let r := sampling_loop fuel rnd vS vG cnt b in
    exists evs,
      trace (snd r) = trace b ++ evs
      /\ queries_only vS vG evs
      /\ mat (snd r) = mat b
      /\ match fst r with
         | Some path => path = [] \/ returns_found_path vS vG path (snd r)
         | None => True
         end.
Proof.
  induction fuel as [|fuel IH]; intros cnt b; cbv zeta.
  - exists []. cbn. rewrite app_nil_r. repeat split; auto. constructor.
  - rewrite sampling_loop_S. cbv zeta.
    set (cnt' := ((cnt + 1) mod 2 ^ 32)%Z).
    set (b1 := mkBuildState (self b) (mat b) (trace b ++ [Iteration cnt'])).
    destruct (cnt' =? 1000)%Z.
    + exists [Iteration cnt']. cbn [fst snd]. repeat split; auto.
      repeat constructor.
    + destruct (sample_once_spec (rnd cnt') vS vG b1) as (evs & E1 & E2 & _ & E4 & E5).
      cbv zeta in *.
      destruct (fst (sample_once (rnd cnt') vS vG b1)) as [path|] eqn:Ef.
      * exists (Iteration cnt' :: evs). cbn [fst snd].
        split; [rewrite E1; subst b1; cbn [trace]; rewrite <- app_assoc; reflexivity|].
        split; [constructor; [exact I|exact E2]|].
        split; [rewrite E4; reflexivity|]. right. apply E5.
      * destruct (IH cnt' (snd (sample_once (rnd cnt') vS vG b1)))
          as (evs' & F1 & F2 & F3 & F4).
        exists (Iteration cnt' :: evs ++ evs').
        split; [rewrite F1, E1; subst b1; cbn [trace];
                rewrite <- !app_assoc; reflexivity|].
        split; [constructor; [exact I|now apply queries_only_app]|].
        split; [rewrite F3, E4; reflexivity|]. exact F4.
Qed.

(** With fuel for the passes left until the safety counter reaches 1000,
    the loop comes to its end, after no more passes than that. *)
Lemma sampling_loop_ends (rnd : Z -> double * double) (vS vG : vertex) (fuel : nat) :
  forall (cnt : Z) (b : BuildState),
    (0 <= cnt < 1000)%Z -> (Z.to_nat (1000 - cnt) <= fuel)%nat ->
    let r := sampling_loop fuel rnd vS vG cnt b in
    exists path, fst r = Some path
      /\ (iterations (trace (snd r)) <= iterations (trace b) + Z.to_nat (1000 - cnt))%nat.
Proof.
  induction fuel as [|fuel IH]; intros cnt b Hc Hf; cbv zeta.
  - lia.
  - rewrite sampling_loop_S. cbv zeta.
    assert (Hmod : ((cnt + 1) mod 2 ^ 32 = cnt + 1)%Z)
      by (apply Z.mod_small; lia).
    rewrite Hmod.
    set (b1 := mkBuildState (self b) (mat b) (trace b ++ [Iteration (cnt + 1)])).
    assert (Hi1 : iterations (trace b1) = S (iterations (trace b))).
    { subst b1. cbn [trace]. rewrite iterations_app. cbn. lia. }
    destruct (Z.eqb_spec (cnt + 1) 1000).
    + exists []. cbn [fst snd]. split; [reflexivity|]. lia.
    + destruct (sample_once_spec (rnd (cnt + 1)%Z) vS vG b1) as (evs & E1 & _ & E3 & _).
      cbv zeta in *.
      set (b2 := snd (sample_once (rnd (cnt + 1)%Z) vS vG b1)) in *.
      assert (Hi2 : iterations (trace b2) = S (iterations (trace b))).
      { rewrite E1, iterations_app, E3, Hi1. lia. }
      destruct (fst (sample_once (rnd (cnt + 1)%Z) vS vG b1)) as [path|].
      * exists path. cbn [fst snd]. split; [reflexivity|]. lia.
      * destruct (IH (cnt + 1)%Z b2) as (path & P1 & P2); [lia|lia|].
        exists path. split; [exact P1|]. lia.
Qed.

(** Lines 134-192, written out. *)
Lemma build_search_eq (fuel : nat) (rnd : Z -> double * double)
  (vS vG : vertex) (b : BuildState) :
  build_search fuel rnd vS vG b
  = let b1 := snd (call_shortestPath vS vG b) in
    if (0 <? length (shortestPath vS vG (graph_ (self b))))%nat then
      (Some (fst (liftG (convertPath (shortestPath vS vG (graph_ (self b)))) b1)),
       snd (liftG (convertPath (shortestPath vS vG (graph_ (self b)))) b1))
    else
      let b2 := snd (call_connectToExistingNodes vG
                       (snd (call_connectToExistingNodes vS b1))) in
      let b3 := snd (call_shortestPath vS vG b2) in
      if (0 <? length (shortestPath vS vG (graph_ (self b2))))%nat then
        (Some (fst (liftG (convertPath (shortestPath vS vG (graph_ (self b2)))) b3)),
         snd (liftG (convertPath (shortestPath vS vG (graph_ (self b2)))) b3))
      else sampling_loop fuel rnd vS vG 0 b3.
Proof.
  unfold build_search. rewrite bind_run. cbv zeta.
  change (fst (call_shortestPath vS vG b)) with (shortestPath vS vG (graph_ (self b))).
  destruct (0 <? length (shortestPath vS vG (graph_ (self b))))%nat.
  - rewrite bind_run. reflexivity.
  - rewrite !bind_run.
    set (b2 := snd (call_connectToExistingNodes vG _)).
    change (fst (call_shortestPath vS vG b2))
      with (shortestPath vS vG (graph_ (self b2))).
    destruct (0 <? length (shortestPath vS vG (graph_ (self b2))))%nat.
    + rewrite bind_run. reflexivity.
    + reflexivity.
Qed.

Lemma connect_keeps_trace (node : vertex) (b : BuildState) :
  trace (snd (call_connectToExistingNodes node b)) = trace b
  /\ mat (snd (call_connectToExistingNodes node b)) = mat b.
Proof. rewrite call_connectToExistingNodes_run. auto. Qed.

Lemma build_search_trace (fuel : nat) (rnd : Z -> double * double)
  (vS vG : vertex) (b : BuildState) :
  let r := build_search fuel rnd vS vG b in
  exists evs,
    trace (snd r)
    = trace b ++ ShortestPath vS vG (shortestPath vS vG (graph_ (self b))) :: evs
    /\ queries_only vS vG evs
    /\ mat (snd r) = mat b
    /\ match fst r with
       | Some path => path = [] \/ returns_found_path vS vG path (snd r)
       | None => True
       end.
Proof.
  cbv zeta. rewrite build_search_eq. cbv zeta.
  pose proof (found_then_converted vS vG b) as F1. cbv zeta in F1.
  destruct (0 <? length (shortestPath vS vG (graph_ (self b))))%nat.
  - destruct (F1 eq_refl) as (A1 & A2 & A3 & A4). cbn [fst snd].
    eexists. split; [exact A2|]. repeat split; auto.
    repeat constructor.
  - clear F1.
    set (b1 := snd (call_shortestPath vS vG b)).
    set (b2 := snd (call_connectToExistingNodes vG
                      (snd (call_connectToExistingNodes vS b1)))).
    assert (H2 : trace b2 = trace b ++ [ShortestPath vS vG (shortestPath vS vG (graph_ (self b)))]
                 /\ mat b2 = mat b).
    { subst b2. destruct (connect_keeps_trace vG (snd (call_connectToExistingNodes vS b1))) as [-> ->].
      destruct (connect_keeps_trace vS b1) as [-> ->]. subst b1.
      rewrite call_shortestPath_run. auto. }
    destruct H2 as (Ht2 & Hm2).
    pose proof (found_then_converted vS vG b2) as F2. cbv zeta in F2.
    destruct (0 <? length (shortestPath vS vG (graph_ (self b2))))%nat.
    + destruct (F2 eq_refl) as (A1 & A2 & A3 & A4). cbn [fst snd].
      eexists. split; [rewrite A2, Ht2, <- app_assoc; reflexivity|].
      split; [repeat constructor; auto|]. split; [congruence|]. right. exact A1.
    + destruct (sampling_loop_trace rnd vS vG fuel 0 (snd (call_shortestPath vS vG b2)))
        as (evs & E1 & E2 & E3 & E4).
      cbv zeta in *.
      eexists. split.
      { rewrite E1, call_shortestPath_run. cbn [snd trace].
        rewrite Ht2, <- !app_assoc. reflexivity. }
      split.
      { constructor; [auto|]. exact E2. }
      split; [|exact E4].
      rewrite E3, call_shortestPath_run. cbn [snd mat]. exact Hm2.
Qed.

Lemma build_search_ends (k : nat) (rnd : Z -> double * double)
  (vS vG : vertex) (b : BuildState) :
  let r := build_search (1000 + k) rnd vS vG b in
  exists path, fst r = Some path
    /\ (iterations (trace (snd r)) <= iterations (trace b) + 1000)%nat.
Proof.
  cbv zeta. rewrite build_search_eq. cbv zeta.
  pose proof (found_then_converted vS vG b) as F1. cbv zeta in F1.
  destruct (0 <? length (shortestPath vS vG (graph_ (self b))))%nat.
  - destruct (F1 eq_refl) as (_ & A2 & _). cbn [fst snd].
    eexists. split; [reflexivity|]. rewrite A2, iterations_app.
    unfold iterations at 2. cbn [filter is_iteration length]. lia.
  - clear F1.
    set (b1 := snd (call_shortestPath vS vG b)).
    set (b2 := snd (call_connectToExistingNodes vG
                      (snd (call_connectToExistingNodes vS b1)))).
    assert (Ht2 : trace b2 = trace b ++ [ShortestPath vS vG (shortestPath vS vG (graph_ (self b)))]).
    { subst b2. destruct (connect_keeps_trace vG (snd (call_connectToExistingNodes vS b1))) as [-> _].
      destruct (connect_keeps_trace vS b1) as [-> _]. subst b1.
      rewrite call_shortestPath_run. auto. }
    pose proof (found_then_converted vS vG b2) as F2. cbv zeta in F2.
    destruct (0 <? length (shortestPath vS vG (graph_ (self b2))))%nat.
    + destruct (F2 eq_refl) as (_ & A2 & _). cbn [fst snd].
      eexists. split; [reflexivity|].
      rewrite A2, Ht2, !iterations_app.
      unfold iterations at 2 3. cbn [filter is_iteration length]. lia.
    + destruct (sampling_loop_ends rnd vS vG (fuel := 1000 + k) (cnt := 0)
                  (snd (call_shortestPath vS vG b2))) as (path & P1 & P2);
        [lia|lia|].
      cbv zeta in *. exists path. split; [exact P1|].
      assert (Hit : iterations (trace (snd (call_shortestPath vS vG b2)))
                    = iterations (trace b)).
      { rewrite call_shortestPath_run. cbn [snd trace].
        rewrite Ht2, !iterations_app.
        unfold iterations at 2 3. cbn [filter is_iteration length]. lia. }
      rewrite Hit in P2.
      change (Z.to_nat (1000 - 0)) with 1000%nat in P2. exact P2.
Qed.

(** Lines 119-132, written out. *)
Lemma build_setup_eq (v1 v2 : vertex) (start goal : TGlobalOrd) (b : BuildState) :
  build_setup v1 v2 start goal b
  = let s := self b in
    let pStart := convertToPoint (lmap_ s) (reference_ s) start in
    let pGoal := convertToPoint (lmap_ s) (reference_ s) goal in
    let aStart := isAccessible (lmap_ s) (mat b) pStart in
    let aGoal := isAccessible (lmap_ s) (mat b) pGoal in
    let fS := findOrAdd start s in
    let fG := findOrAdd goal (snd fS) in
    if negb (existsAsVertex start s) || negb (existsAsVertex goal s) then
      if aStart then
        if aGoal then
          (Some (fst fS, fst fG),
           mkBuildState (snd fG) (mat b)
             (trace b ++ [Accessible pStart true; Accessible pGoal true;
                          FindOrAdd start (fst fS); FindOrAdd goal (fst fG)]))
        else (None, mkBuildState s (mat b)
                      (trace b ++ [Accessible pStart true; Accessible pGoal false]))
      else (None, mkBuildState s (mat b) (trace b ++ [Accessible pStart false]))
    else (Some (v1, v2), b).
Proof.
  unfold build_setup. rewrite bind_run. unfold get. cbn [fst snd]. cbv zeta.
  destruct (negb (existsAsVertex start (self b)) || negb (existsAsVertex goal (self b)));
    [|reflexivity].
  rewrite bind_run, call_isAccessible_run. cbn [fst snd].
  destruct (isAccessible (lmap_ (self b)) (mat b)
              (convertToPoint (lmap_ (self b)) (reference_ (self b)) start)) eqn:E1;
    cbn [negb]; [|reflexivity].
  rewrite bind_run, call_isAccessible_run. cbn [fst snd self mat trace].
  destruct (isAccessible (lmap_ (self b)) (mat b)
              (convertToPoint (lmap_ (self b)) (reference_ (self b)) goal)) eqn:E2;
    cbn [negb].
  - rewrite bind_run, call_findOrAdd_run. cbn [fst snd].
    rewrite bind_run, call_findOrAdd_run. cbn [fst snd self mat trace].
    unfold ret. rewrite <- !app_assoc. reflexivity.
  - unfold ret. rewrite <- !app_assoc. reflexivity.
Qed.

(** [build], written out. *)
Lemma run_build_eq (fuel : nat) (rnd : Z -> double * double) (v1 v2 : vertex)
  (m : Mat) (start goal : TGlobalOrd) (s : GlobalMap) :
  run_build fuel rnd v1 v2 m start goal s
  = let b0 := mkBuildState s (expandConfigSpace (lmap_ s) m (robotDiameter_ s)) [] in
    match fst (build_setup v1 v2 start goal b0) with
    | None => (Some [], snd (build_setup v1 v2 start goal b0))
    | Some (vS, vG) => build_search fuel rnd vS vG (snd (build_setup v1 v2 start goal b0))
    end.
Proof.
  unfold run_build, build. rewrite bind_run.
  change (snd (call_expandConfigSpace (mkBuildState s m [])))
    with (mkBuildState s (expandConfigSpace (lmap_ s) m (robotDiameter_ s)) []).
  rewrite bind_run. cbv zeta.
  destruct (fst (build_setup v1 v2 start goal _)) as [[vS vG]|]; reflexivity.
Qed.

End BuildFacts.

(* ================================================================== *)
(** * The passes of the planner loop, written out *)
Section CycleFacts.
Context `{D : Double} `{G : !GraphOps} `{L : !LocalMapOps}.

(** Lines 87-113, written out. *)
Lemma cycle_begin_eq (p : PlannerState) :
  cycle_begin p
  = let pose := latest_pose p in
    let robotOrd := mkOrd (geometry_msgs.x (geometry_msgs.position pose))
                          (geometry_msgs.y (geometry_msgs.position pose)) in
    (if mat_empty (latest_map p) then None
     else Some (robotOrd, cvtColor (latest_map p)),
     mkPlannerState (setReference robotOrd (gmap_ p)) (currentGoal_ p) false
       (mkBuffer (tl (ogMapDeq (buffer_ p))) (tl (poseDeq (buffer_ p))))
       (latest_map p) pose (published p) (builds p)).
Proof.
  unfold cycle_begin, consumeWorldData, latest_pose, latest_map.
  rewrite !bind_run. unfold modify, get. cbn [fst snd].
  destruct p as [g cg gr [maps poses] om rp pub bs]. cbn.
  destruct maps, poses; cbn; destruct (mat_empty _); reflexivity.
Qed.

End CycleFacts.

(* ================================================================== *)
(** * A call of build, from its beginning to its end *)
Section BuildEnds.
Context `{D : Double} `{G : !GraphOps} `{L : !LocalMapOps}.

Lemma build_setup_no_iteration (v1 v2 : vertex) (start goal : TGlobalOrd)
  (s : GlobalMap) (m : Mat) :
  iterations (trace (snd (build_setup v1 v2 start goal (mkBuildState s m [])))) = 0%nat.
Proof.
  rewrite build_setup_eq. cbv zeta.
  repeat match goal with |- context [if ?c then _ else _] => destruct c end;
    reflexivity.
Qed.

Lemma run_build_ends (k : nat) (rnd : Z -> double * double) (vStart0 vGoal0 : vertex)
  (m : Mat) (start goal : TGlobalOrd) (s : GlobalMap) :
  let rb := run_build (1000 + k) rnd vStart0 vGoal0 m start goal s in
  exists path,
    fst rb = Some path
    /\ (iterations (trace (snd rb)) <= 1000)%nat
    /\ (path = [] \/ exists vS vG, returns_found_path vS vG path (snd rb)).
Proof.
  cbv zeta. rewrite run_build_eq. cbv zeta.
  pose proof (build_setup_no_iteration vStart0 vGoal0 start goal s
                (expandConfigSpace (lmap_ s) m (robotDiameter_ s))) as H0.
  set (b0 := mkBuildState s _ []) in *.
  destruct (fst (build_setup vStart0 vGoal0 start goal b0)) as [[vS vG]|].
  - destruct (build_search_ends k rnd vS vG (snd (build_setup vStart0 vGoal0 start goal b0)))
      as (path & P1 & P2).
    destruct (build_search_trace (1000 + k) rnd vS vG
                (snd (build_setup vStart0 vGoal0 start goal b0))) as (evs & _ & _ & _ & E4).
    cbv zeta in *. rewrite P1 in E4. exists path. split; [exact P1|].
    split; [lia|]. destruct E4; [left|right]; eauto.
  - exists []. cbn [fst snd]. split; [reflexivity|]. split; [lia|]. auto.
Qed.

End BuildEnds.

(* ================================================================== *)
(** * What a pass of the sampling loop does to the table *)
Section SamplingFacts.
Context `{D : Double} `{G : !GraphOps} `{L : !LocalMapOps}.







(** The object after one pass of the sampling loop. *)
Lemma sample_once_self (draw : double * double) (vS vG : vertex) (b : BuildState) :
  let randomOrd := mkOrd (round1 (fst draw)) (round1 (snd draw)) in
  let pRand := convertToPoint (lmap_ (self b)) (reference_ (self b)) randomOrd in
  let found := findOrAdd randomOrd (self b) in
  let s2 := snd (connectToExistingNodes (mat b) (fst found) (snd found)) in
  let vPath := shortestPath vS vG (graph_ s2) in
  self (snd (sample_once draw vS vG b))
  = if isAccessible (lmap_ (self b)) (mat b) pRand then
      if (0 <? length vPath)%nat then snd (convertPath vPath s2) else s2
    else self b.
Proof.
  cbv zeta. unfold sample_once. rewrite bind_run. unfold get. cbn [fst snd].
  rewrite bind_run, call_isAccessible_run. cbn [fst snd].
  destruct (isAccessible _ _ _); cbn [negb]; [|reflexivity].
  rewrite bind_run, call_findOrAdd_run. cbn [fst snd].
  rewrite bind_run, call_connectToExistingNodes_run. cbn [fst snd self mat].
  rewrite bind_run, call_shortestPath_run. cbn [fst snd self].
  destruct (0 <? length _)%nat; [|reflexivity].
  rewrite bind_run, liftG_run. reflexivity.
Qed.

End SamplingFacts.

(* ================================================================== *)
(** * The planner loop *)
Section PlannerLoopFacts.
Context `{D : Double} `{G : !GraphOps} `{L : !LocalMapOps}.

(** A call of [gmap_.build] from the planner loop returns; it leaves the
    goal, the flag, the queues, the pose and what was published alone,
    and is recorded with the start, the goal and the path returned. *)
Lemma call_build_returns (orc : BuildOracle) (robotOrd : TGlobalOrd)
  (p : PlannerState) :
  exists path g m,
    call_build orc robotOrd p
    = (Some path,
       mkPlannerState g (currentGoal_ p) (GoalRecieved p) (buffer_ p) m
         (robotPos p) (published p)
         (builds p ++ [mkBuildCall robotOrd (currentGoal_ p) path])).
Proof.
  unfold call_build. rewrite bind_run. unfold get. cbn [fst snd].
  destruct (run_build_ends 0 (rnd orc) (vStart0 orc) (vGoal0 orc) (ogMap p)
              robotOrd (currentGoal_ p) (gmap_ p)) as (path & P1 & _).
  cbv zeta in P1. change (1000 + 0)%nat with build_fuel in P1.
  destruct (run_build build_fuel (rnd orc) (vStart0 orc) (vGoal0 orc) (ogMap p)
              robotOrd (currentGoal_ p) (gmap_ p)) as [r b].
  cbn [fst] in P1. subst r.
  exists path, (self b), (mat b).
  rewrite !bind_run. unfold modify, ret. cbn [fst snd]. reflexivity.
Qed.

(** The retries of lines 120-129 after a first call of [build] that
    returned [path]: at most two more calls, each made because the one
    before returned the empty path, the last one giving the path the
    loop ends with; and when that path is empty, both were made. *)
Lemma retry_loop_spec (k : nat) (orc : Z -> BuildOracle) (robotOrd : TGlobalOrd)
  (path : list TGlobalOrd) (p : PlannerState) :
  exists path' g m calls,
    retry_loop (2 + k) orc robotOrd 1 path p
    = (Some path',
       mkPlannerState g (currentGoal_ p) (GoalRecieved p) (buffer_ p) m
         (robotPos p) (published p) (builds p ++ calls))
    /\ (length calls <= 2)%nat
    /\ Forall (fun c => call_start c = robotOrd /\ call_goal c = currentGoal_ p) calls
    /\ Forall (fun c => call_result c = []) (removelast calls)
    /\ last (map call_result calls) path = path'
    /\ (calls <> [] -> path = [])
    /\ (path' = [] -> length calls = 2%nat).
Proof.
  change (2 + k)%nat with (S (S k)). cbn [retry_loop].
  destruct path as [|o path]; cbn [length Nat.eqb].
  2:{ exists (o :: path), (gmap_ p), (ogMap p), [].
      rewrite app_nil_r. destruct p. cbn. repeat split; auto; try constructor.
      all: intros; congruence. }
  rewrite bind_run.
  destruct (call_build_returns (orc (1 + 1)%Z) robotOrd p) as (path2 & g2 & m2 & E2).
  rewrite E2. cbn [fst snd]. change (1 + 1 >? 2)%Z with false. cbv iota.
  set (p2 := mkPlannerState g2 _ _ _ m2 _ _ _).
  destruct path2 as [|o2 path2]; cbn [length Nat.eqb].
  2:{ exists (o2 :: path2), g2, m2, [mkBuildCall robotOrd (currentGoal_ p) (o2 :: path2)].
      unfold ret. repeat split; auto; try (repeat constructor; fail).
      all: intros; congruence. }
  destruct k as [|k]; cbn [retry_loop]; cbn [length Nat.eqb];
    rewrite bind_run;
    destruct (call_build_returns (orc (1 + 1 + 1)%Z) robotOrd p2) as (path3 & g3 & m3 & E3);
    rewrite E3; cbn [fst snd]; change (1 + 1 + 1 >? 2)%Z with true; cbv iota;
    exists path3, g3, m3,
      [mkBuildCall robotOrd (currentGoal_ p) []; mkBuildCall robotOrd (currentGoal_ p) path3];
    unfold ret; subst p2; cbn [currentGoal_ GoalRecieved buffer_ robotPos published builds];
    rewrite <- app_assoc; repeat split; auto; repeat constructor.
Qed.

(** Lines 131-151, written out. *)
Lemma cycle_finish_eq (colourMap : Mat) (path : list TGlobalOrd) (p : PlannerState) :
  snd (cycle_finish colourMap path p)
  = let shown := showOverlay colourMap path (gmap_ p) in
    mkPlannerState (snd shown) (currentGoal_ p) (GoalRecieved p) (buffer_ p)
      (ogMap p) (robotPos p)
      (published p ++ OverlayMsg (fst shown)
         :: (if (0 <? length path)%nat then [PathMsg (posePath path (robotPos p))]
             else []))
      (builds p).
Proof.
  unfold cycle_finish. rewrite bind_run. unfold get. cbn [fst snd]. cbv zeta.
  destruct (showOverlay colourMap path (gmap_ p)) as [img g].
  rewrite !bind_run. unfold modify. cbn [fst snd].
  destruct (0 <? length path)%nat; unfold ret; destruct p;
    unfold publish, set_gmap; cbn; rewrite <- ?app_assoc; reflexivity.
Qed.

Lemma planning_cycle_spec (k : nat) (orc : Z -> BuildOracle) (p : PlannerState) :
  fst (planning_cycle (2 + k) orc p) = Some tt
  /\ pass_outcome p (snd (planning_cycle (2 + k) orc p)).
Proof.
  unfold planning_cycle, pass_outcome. rewrite bind_run, cycle_begin_eq. cbv zeta.
  cbn [fst snd].
  destruct (mat_empty (latest_map p)).
  { unfold ret. cbn. auto. }
  set (robotOrd := mkOrd _ _).
  set (p1 := mkPlannerState _ _ _ _ _ _ _ _).
  rewrite bind_run.
  destruct (call_build_returns (orc 1%Z) robotOrd p1) as (path1 & g1 & m1 & E1).
  rewrite E1. cbn [fst snd].
  set (p2 := mkPlannerState g1 _ _ _ m1 _ _ _).
  rewrite bind_run.
  destruct (retry_loop_spec k orc robotOrd path1 p2)
    as (path' & g & m & calls & E & Hlen & Hcalls & Hfront & Hlast & Hretry & Hfinal).
  rewrite E. cbn [fst snd]. rewrite bind_run. unfold ret. cbn [fst snd].
  split; [reflexivity|].
  rewrite cycle_finish_eq. cbv zeta.
  cbn [published builds robotPos]. subst p2. cbn [published builds robotPos currentGoal_] in *.
  subst p1. cbn [published builds robotPos currentGoal_] in *.
  destruct calls as [|c1 calls].
  - cbn in Hlast. subst path'.
    exists [], (mkBuildCall robotOrd (currentGoal_ p) path1). eexists.
    rewrite app_nil_r. cbn [app length call_result].
    repeat split; auto; repeat constructor; cbn; auto.
  - assert (Hp1 : path1 = []) by (apply Hretry; discriminate). subst path1.
    assert (Hsplit : exists front c, c1 :: calls = front ++ [c]).
    { exists (removelast (c1 :: calls)), (last (c1 :: calls) c1).
      apply app_removelast_last. discriminate. }
    destruct Hsplit as (front & c & Hsplit). rewrite Hsplit in *.
    rewrite removelast_last in Hfront.
    rewrite map_app in Hlast. cbn [map] in Hlast. rewrite last_last in Hlast.
    subst path'.
    rewrite length_app in Hlen, Hfinal. cbn [length] in Hlen, Hfinal.
    exists (mkBuildCall robotOrd (currentGoal_ p) [] :: front), c. eexists.
    cbn [app length]. rewrite <- !app_assoc. cbn [app].
    split; [reflexivity|]. split; [lia|].
    split; [constructor; [reflexivity|exact Hfront]|].
    split; [intros Hc; specialize (Hfinal Hc); lia|].
    split; [constructor; [cbn; auto|exact Hcalls]|]. reflexivity.
Qed.

Lemma skipn_length_app {A} (l l' : list A) : skipn (length l) (l ++ l') = l'.
Proof.
  rewrite skipn_app, skipn_all, Nat.sub_diag. reflexivity.
Qed.

Lemma posePath_spec (path : list TGlobalOrd) (pose : geometry_msgs.Pose) :
  Forall2 (fun o w =>
             geometry_msgs.x (geometry_msgs.position w) = x o
             /\ geometry_msgs.y (geometry_msgs.position w) = y o
             /\ geometry_msgs.z (geometry_msgs.position w)
                = geometry_msgs.z (geometry_msgs.position pose))
          path (posePath path pose).
Proof.
  induction path as [|o path IH]; cbn; constructor; auto.
Qed.

End PlannerLoopFacts.

(* ================================================================== *)
(** * The two threads *)
Section ThreadFacts.
Context `{D : Double} `{G : !GraphOps} `{L : !LocalMapOps}.

(** X19. A step of the service thread writes [currentGoal_] or [GoalRecieved]
    and nothing else: the planner thread stays where it is, and so do the
    roadmap, the map, the pose, the queues, what was published and the
    calls of [build] made. *)
Lemma handler_step_leaves_the_planner_alone (t t' : Threads) :
  handler_step t = Some t' ->
  planner t' = planner t
  /\ gmap_ (mem t') = gmap_ (mem t)
  /\ buffer_ (mem t') = buffer_ (mem t)
  /\ ogMap (mem t') = ogMap (mem t)
  /\ robotPos (mem t') = robotPos (mem t)
  /\ published (mem t') = published (mem t)
  /\ builds (mem t') = builds (mem t).
Proof.
  unfold handler_step.
  destruct (handler t) as [|req|req]; [destruct (incoming t) as [|req rest]|..];
    intros E; inversion E; subst; cbn; auto 10.
Qed.

Ltac pstep := unfold planner_step at 1; cbn [planner mem handler incoming].

(** Left alone from line 87, the planner thread makes the pass
    [planning_cycle] describes, in at most five steps, and is back at
    the wait. *)
Lemma planner_alone_makes_a_pass (k : nat) (orc : Z -> BuildOracle) (t : Threads) :
  planner t = AtLine87 ->
  exists n,
    (n <= 5)%nat
    /\ run orc (repeat planner_thread n) t
       = Some (mkThreads (snd (planning_cycle (2 + k) orc (mem t))) AtWait
                         (handler t) (incoming t)).
Proof.
  destruct t as [p pc h inc]. cbn [planner mem handler incoming]. intros ->.
  unfold planning_cycle. rewrite bind_run.
  destruct (cycle_begin p) as [[[robotOrd colourMap]|] p1] eqn:Eb; cbn [fst snd].
  2:{ exists 1%nat. split; [lia|]. cbn [repeat run]. pstep. rewrite Eb. reflexivity. }
  rewrite bind_run.
  destruct (call_build_returns (orc 1%Z) robotOrd p1) as (path1 & g1 & m1 & E1).
  rewrite E1. cbn [fst snd].
  set (p2 := mkPlannerState g1 _ _ _ m1 _ _ _) in *.
  rewrite bind_run. change (2 + k)%nat with (S (S k)). cbn [retry_loop].
  destruct path1 as [|o1 path1]; cbn [length Nat.eqb].
  2:{ exists 3%nat. split; [lia|]. cbn [repeat run].
      pstep. rewrite Eb. pstep. rewrite E1.
      change (1 >? 2)%Z with false. cbn [length Nat.eqb negb orb].
      pstep. unfold ret. cbn [fst snd]. rewrite bind_run. cbn [fst snd].
      destruct (cycle_finish colourMap (o1 :: path1) p2). reflexivity. }
  rewrite bind_run.
  destruct (call_build_returns (orc (1 + 1)%Z) robotOrd p2) as (path2 & g2 & m2 & E2).
  rewrite E2. cbn [fst snd]. change (1 + 1 >? 2)%Z with false. cbv iota.
  set (p3 := mkPlannerState g2 _ _ _ m2 _ _ _) in *.
  destruct path2 as [|o2 path2].
  2:{ exists 4%nat. split; [lia|]. cbn [repeat run].
      pstep. rewrite Eb. pstep. rewrite E1.
      change (1 >? 2)%Z with false. cbn [length Nat.eqb negb orb].
      pstep. rewrite E2.
      change (1 + 1 >? 2)%Z with false. cbn [length Nat.eqb negb orb].
      pstep.
      destruct k; cbn [retry_loop length Nat.eqb]; unfold ret; cbn [fst snd];
        rewrite bind_run; cbn [fst snd];
        destruct (cycle_finish colourMap (o2 :: path2) p3); reflexivity. }
  exists 5%nat. split; [lia|]. cbn [repeat run].
  pstep. rewrite Eb. pstep. rewrite E1.
  change (1 >? 2)%Z with false. cbn [length Nat.eqb negb orb].
  pstep. rewrite E2.
  change (1 + 1 >? 2)%Z with false. cbn [length Nat.eqb negb orb].
  pstep.
  destruct (call_build_returns (orc (1 + 1 + 1)%Z) robotOrd p3) as (path3 & g3 & m3 & E3).
  rewrite E3. change (1 + 1 + 1 >? 2)%Z with true. cbn [orb].
  pstep.
  destruct k; cbn [retry_loop length Nat.eqb]; rewrite bind_run, E3;
    cbn [fst snd]; change (1 + 1 + 1 >? 2)%Z with true; cbv iota;
    unfold ret; cbn [fst snd]; rewrite bind_run; cbn [fst snd];
    match goal with |- context [cycle_finish ?c ?pa ?st] =>
      destruct (cycle_finish c pa st) end; reflexivity.
Qed.

End ThreadFacts.

(* ================================================================== *)
(** * The claims about GlobalMap *)
Section GlobalMapClaims.
Context `{D : Double} `{G : !GraphOps} `{L : !LocalMapOps}.

(** C1, as amended. When start or goal is not a vertex of the network
    yet, [build] checks accessibility first, returns the empty path and
    leaves the roadmap alone when start or goal is not accessible, and
    otherwise calls [findOrAdd(start)] and [findOrAdd(goal)] before it
    makes any shortest-path query, every query being between the two
    vertices they returned. When both are vertices already, [build] checks
    no accessibility and calls no [findOrAdd]: its first call is a
    shortest-path query. *)
Theorem build_checks_and_finds_unless_both_known
  (fuel : nat) (rnd : Z -> double * double) (vStart0 vGoal0 : vertex)
  (m : Mat) (start goal : TGlobalOrd) (s : GlobalMap) :
  if negb (existsAsVertex start s) || negb (existsAsVertex goal s)
  then checks_then_finds fuel rnd vStart0 vGoal0 m start goal s
  else exists vS vG r rest,
         trace (snd (run_build fuel rnd vStart0 vGoal0 m start goal s))
         = ShortestPath vS vG r :: rest.
Proof.
  unfold checks_then_finds. cbv zeta.
  rewrite run_build_eq. cbv zeta. rewrite build_setup_eq. cbv zeta.
  cbn [self mat trace].
  set (m' := expandConfigSpace (lmap_ s) m (robotDiameter_ s)).
  set (pStart := convertToPoint (lmap_ s) (reference_ s) start).
  set (pGoal := convertToPoint (lmap_ s) (reference_ s) goal).
  destruct (negb (existsAsVertex start s) || negb (existsAsVertex goal s)).
  - destruct (isAccessible (lmap_ s) m' pStart) eqn:Es;
      [destruct (isAccessible (lmap_ s) m' pGoal) eqn:Eg|]; cbn [fst snd andb].
    + match goal with
      | |- context [build_search fuel rnd ?vS ?vG ?b] =>
          destruct (build_search_trace fuel rnd vS vG b) as (evs & E1 & E2 & _)
      end.
      cbv zeta in E1. rewrite E1. cbn [trace app]. split; [eauto|].
      eexists [_; _; _; _], _, _, _.
      split; [reflexivity|].
      split; [repeat constructor|].
      split; [cbn; auto|]. split; [cbn; auto|].
      constructor; auto.
    + cbn. split; [eauto|]. repeat split; auto.
    + cbn. split; [eauto|]. repeat split; auto.
  - cbn [fst snd].
    destruct (build_search_trace fuel rnd vStart0 vGoal0
                (mkBuildState s m' [])) as (evs & E1 & _).
    cbv zeta in E1. rewrite E1. cbn [trace app]. eauto.
Qed.

(** C2, as amended. [build] returns, and a non-empty path it returns is
    the ordinate translation of the vertex path its last shortest-path
    query found: ordinate for vertex, each the entry of the network table
    for that vertex, with as many ordinates as the vertex path has
    vertices. No optimisation pass is applied to it. *)
Theorem build_returns_translation
  (k : nat) (rnd : Z -> double * double) (vStart0 vGoal0 : vertex)
  (m : Mat) (start goal : TGlobalOrd) (s : GlobalMap) :
  let rb := run_build (1000 + k) rnd vStart0 vGoal0 m start goal s in
  exists path,
    fst rb = Some path
    /\ (path = [] \/ exists vS vG, returns_found_path vS vG path (snd rb)).
Proof.
  cbv zeta.
  destruct (run_build_ends k rnd vStart0 vGoal0 m start goal s) as (path & P1 & _ & P3).
  exists path. auto.
Qed.

(** C4. [build] returns on every input: given fuel for 1000 passes of the
    sampling loop (and however much more), the call comes to its end
    after at most 1000 passes, and it returns the empty path when no
    shortest-path query found a vertex path. *)
Theorem build_returns_within_1000_passes
  (k : nat) (rnd : Z -> double * double) (vStart0 vGoal0 : vertex)
  (m : Mat) (start goal : TGlobalOrd) (s : GlobalMap) :
  let rb := run_build (1000 + k) rnd vStart0 vGoal0 m start goal s in
  exists path,
    fst rb = Some path
    /\ (iterations (trace (snd rb)) <= 1000)%nat
    /\ (no_path_found (trace (snd rb)) -> path = []).
Proof.
  cbv zeta.
  destruct (run_build_ends k rnd vStart0 vGoal0 m start goal s) as (path & P1 & P2 & P3).
  cbv zeta in *. exists path. split; [exact P1|]. split; [exact P2|].
  intros Hno.
  destruct P3 as [|(vS & vG & vPath & evs & T1 & _ & T3 & _)]; [assumption|].
  unfold no_path_found in Hno. rewrite T1 in Hno.
  apply Forall_app in Hno. destruct Hno as [_ Hno].
  inversion Hno; subst. contradiction.
Qed.

(** C8. From the object the constructor makes, under every sequence of
    calls of [findOrAdd]: each call returns a vertex of the table whose
    ordinate compares equal to its argument and changes nothing, or, when
    there is none, returns the next id, not in the table before, and adds
    the pair to the table and the vertex to the graph; in the end no two
    entries of the table share an ordinate, the ids handed out are
    strictly increasing in the order of the calls, and they are the keys
    of the table. *)
Theorem findOrAdd_keeps_ordinates_apart_and_ids_fresh
  (mapSize mapRes robotDiameter : double) (ps : list TGlobalOrd) :
  let run := findOrAdd_all ps (GlobalMap_new mapSize mapRes robotDiameter) in
  Forall findOrAdd_contract (fst run)
  /\ no_shared_ord (vertexLUT_ (snd run))
  /\ StronglySorted N.lt (issued (fst run))
  /\ keys (vertexLUT_ (snd run)) = issued (fst run).
Proof.
  cbv zeta.
  destruct (findOrAdd_all_from ps (s := GlobalMap_new mapSize mapRes robotDiameter))
    as (H1 & _ & H3 & _ & _ & H6 & H7).
  - constructor.
  - constructor.
  - auto.
Qed.

(** C10. [setReference(r)] writes the reference and nothing else: the
    graph, the table, the next id (and the map object, the map size and
    the robot diameter) are as before. So the answers of [existsAsVertex]
    are as before, while the pixel of every stored vertex is now computed
    from its unchanged ordinate and the new reference; and this is what
    the planner loop does with each pose it consumes, before it calls
    [build]. *)
Theorem setReference_changes_the_reference_only
  (r : TGlobalOrd) (s : GlobalMap) :
  graph_ (setReference r s) = graph_ s
  /\ vertexLUT_ (setReference r s) = vertexLUT_ s
  /\ nextVertexId_ (setReference r s) = nextVertexId_ s
  /\ lmap_ (setReference r s) = lmap_ s
  /\ mapSize_ (setReference r s) = mapSize_ s
  /\ robotDiameter_ (setReference r s) = robotDiameter_ s
  /\ reference_ (setReference r s) = r
  /\ (forall p, existsAsVertex p (setReference r s) = existsAsVertex p s)
  /\ (forall v, fst (pointOf v (setReference r s))
                = convertToPoint (lmap_ s) r (fst (lut_index v (vertexLUT_ s))))
  /\ (forall p : PlannerState,
        gmap_ (snd (cycle_begin p))
        = setReference
            (mkOrd (geometry_msgs.x (geometry_msgs.position (latest_pose p)))
                   (geometry_msgs.y (geometry_msgs.position (latest_pose p))))
            (gmap_ p)).
Proof.
  repeat split.
  - destruct r; reflexivity.
  - intros v. unfold pointOf, vertexLUT_at. rewrite bind_run. cbn [fst snd].
    cbn [vertexLUT_ setReference set_reference].
    destruct (lut_index v (vertexLUT_ s)) as [o l]. cbn. now destruct r.
  - intros p. rewrite cycle_begin_eq. reflexivity.
Qed.

End GlobalMapClaims.

Section SamplingClaim.
Context `{D : Double} `{G : !GraphOps} `{L : !LocalMapOps}.


End SamplingClaim.

(* ================================================================== *)
(** * The claims about the planner loop *)
Section PlannerLoopClaims.
Context `{D : Double} `{G : !GraphOps} `{L : !LocalMapOps}.

(** C5. For the goal it processes, a pass of the planner loop comes to
    its end having called [build] at most 3 times; every call but the
    last returned the empty path (a call is repeated only because the
    one before returned nothing); when the last one returns the empty
    path too, it was the third (or there was none, the map being empty),
    and no waypoint message is published. *)
Theorem planner_loop_calls_build_at_most_three_times
  (k : nat) (orc : Z -> BuildOracle) (p : PlannerState) :
  let r := planning_cycle (2 + k) orc p in
  let calls := built_by p (snd r) in
  fst r = Some tt
  /\ builds (snd r) = builds p ++ calls
  /\ (length calls <= 3)%nat
  /\ Forall (fun c => call_result c = []) (removelast calls)
  /\ (last (map call_result calls) [] = [] ->
      (calls = [] \/ length calls = 3%nat)
      /\ Forall (fun msg => is_path_msg msg = false) (published_by p (snd r))).
Proof.
  cbv zeta. destruct (planning_cycle_spec k orc p) as (H1 & H2).
  split; [exact H1|]. unfold pass_outcome, built_by, published_by in *.
  destruct (mat_empty (latest_map p)).
  - destruct H2 as (Hp & Hb). rewrite Hp, Hb, !skipn_all. cbn.
    rewrite app_nil_r. repeat split; auto.
  - destruct H2 as (front & c & img & Hb & Hlen & Hfront & Hfinal & _ & Hp).
    rewrite Hb, Hp, !skipn_length_app.
    split; [reflexivity|]. split; [rewrite length_app; cbn; lia|].
    split; [rewrite removelast_last; exact Hfront|].
    rewrite map_app. cbn [map]. rewrite last_last, length_app. cbn [length].
    intros Hc. split; [right; specialize (Hfinal Hc); lia|].
    rewrite Hc. cbn. repeat constructor.
Qed.

(** C6, as amended. In a pass of the planner loop whose map is not
    empty, exactly one overlay image is published, whether the path the
    last call of [build] returned is empty or not, and a waypoint message
    is published after it if and only if that path is not empty. In a
    pass whose map is empty nothing is published. *)
Theorem planner_loop_publishes_one_overlay_unless_map_empty
  (k : nat) (orc : Z -> BuildOracle) (p : PlannerState) :
  let p' := snd (planning_cycle (2 + k) orc p) in
  let path := last (map call_result (built_by p p')) [] in
  if mat_empty (latest_map p) then published_by p p' = []
  else exists img,
         published_by p p'
         = OverlayMsg img
             :: (if (0 <? length path)%nat
                 then [PathMsg (posePath path (latest_pose p))] else []).
Proof.
  cbv zeta. destruct (planning_cycle_spec k orc p) as (_ & H2).
  unfold pass_outcome, built_by, published_by in *.
  destruct (mat_empty (latest_map p)).
  - destruct H2 as (Hp & _). rewrite Hp, skipn_all. reflexivity.
  - destruct H2 as (front & c & img & Hb & _ & _ & _ & _ & Hp).
    rewrite Hb, Hp, !skipn_length_app.
    rewrite map_app. cbn [map]. rewrite last_last. eauto.
Qed.

(** C7. Every waypoint message a pass of the planner loop publishes
    holds one pose for each ordinate of the path the last call of [build]
    returned, in the order of the path; the pose's x and y are the
    ordinate's, and its z is the z of the robot pose the pass took from
    the queue at its start (or still held, the queue being empty). *)
Theorem waypoints_are_the_path_at_the_pose_height
  (k : nat) (orc : Z -> BuildOracle) (p : PlannerState) :
  let p' := snd (planning_cycle (2 + k) orc p) in
  let path := last (map call_result (built_by p p')) [] in
  Forall (fun msg =>
            match msg with
            | OverlayMsg _ => True
            | PathMsg poses =>
                Forall2 (fun o w =>
                           geometry_msgs.x (geometry_msgs.position w) = x o
                           /\ geometry_msgs.y (geometry_msgs.position w) = y o
                           /\ geometry_msgs.z (geometry_msgs.position w)
                              = geometry_msgs.z (geometry_msgs.position (latest_pose p)))
                        path poses
            end)
         (published_by p p').
Proof.
  cbv zeta. destruct (planning_cycle_spec k orc p) as (_ & H2).
  unfold pass_outcome, built_by, published_by in *.
  destruct (mat_empty (latest_map p)).
  - destruct H2 as (Hp & _). rewrite Hp, skipn_all. constructor.
  - destruct H2 as (front & c & img & Hb & _ & _ & _ & _ & Hp).
    rewrite Hb, Hp, !skipn_length_app.
    rewrite map_app. cbn [map]. rewrite last_last.
    constructor; [exact I|].
    destruct (0 <? length (call_result c))%nat; constructor; [|constructor].
    apply posePath_spec.
Qed.

End PlannerLoopClaims.

(* ================================================================== *)
(** * The claims as they stand, taken apart *)
Section ClaimsTakenApart.
Context `{D : Double} `{G : !GraphOps} `{L : !LocalMapOps}.

Lemma checks_then_finds_starts_with_check
  (fuel : nat) (rnd : Z -> double * double) (vStart0 vGoal0 : vertex)
  (m : Mat) (start goal : TGlobalOrd) (s : GlobalMap) :
  checks_then_finds fuel rnd vStart0 vGoal0 m start goal s ->
  exists a rest,
    trace (snd (run_build fuel rnd vStart0 vGoal0 m start goal s))
    = Accessible (convertToPoint (lmap_ s) (reference_ s) start) a :: rest.
Proof. intros [[rest H] _]. eauto. Qed.

Lemma returns_optimised_inv
  (fuel : nat) (rnd : Z -> double * double) (vStart0 vGoal0 : vertex)
  (m : Mat) (start goal : TGlobalOrd) (s : GlobalMap) (path : list TGlobalOrd) :
  returns_optimised fuel rnd vStart0 vGoal0 m start goal s ->
  fst (run_build fuel rnd vStart0 vGoal0 m start goal s) = Some path ->
  path <> [] ->
  exists vS vG vPath evs translation,
    trace (snd (run_build fuel rnd vStart0 vGoal0 m start goal s))
    = evs ++ [ShortestPath vS vG vPath]
    /\ Forall2 (fun v o =>
                  lut_find v (vertexLUT_ (self (snd (run_build fuel rnd vStart0 vGoal0
                                                       m start goal s)))) = Some o)
               vPath translation
    /\ path = optimisePath
                (mat (snd (run_build fuel rnd vStart0 vGoal0 m start goal s)))
                translation
                (self (snd (run_build fuel rnd vStart0 vGoal0 m start goal s))).
Proof.
  unfold returns_optimised. cbv zeta. intros H E Hne. rewrite E in H.
  destruct path as [|p path]; [congruence|]. exact H.
Qed.


End ClaimsTakenApart.

(* ================================================================== *)
(** * What the runs show *)
Module RunFacts.
Import Runs.
Open Scope Q_scope.

(** The left-hand side is run by the virtual machine and compared with
    the right-hand side, without normalising the type of the two. *)
Ltac run_vm :=
  match goal with |- _ = ?r => vm_cast_no_check (eq_refl r) end.

(** C1 fails on the second call: the goal is in an obstacle, and the
    call returns the path of three ordinates all the same; its only call
    is a shortest-path query, with no accessibility check and no
    [findOrAdd] before it. *)
Lemma second_build_checks_nothing :
  isAccessible (lmap_ (self (snd first_build)))
    (expandConfigSpace (lmap_ (self (snd first_build))) blocked
       (robotDiameter_ (self (snd first_build))))
    (convertToPoint (lmap_ (self (snd first_build)))
       (reference_ (self (snd first_build))) goal) = false
  /\ fst second_build = Some [start; origin; goal]
  /\ trace (snd second_build) = [ShortestPath 0%N 1%N [0%N; 2%N; 1%N]]
  /\ ~ checks_then_finds 1000 at_origin 0%N 1%N blocked start goal
         (self (snd first_build)).
Proof.
  split; [run_vm|]. split; [run_vm|]. split; [run_vm|].
  intros C. apply checks_then_finds_starts_with_check in C.
  destruct C as (a & rest & H).
  assert (Et : trace (snd (run_build 1000 at_origin 0%N 1%N blocked start goal
                             (self (snd first_build))))
               = [ShortestPath 0%N 1%N [0%N; 2%N; 1%N]]) by run_vm.
  rewrite Et in H. discriminate H.
Qed.

(** C2 fails on the first call: it returns the three ordinates of the
    vertex path [0, 2, 1], while [optimisePath] of them is the start and
    the goal alone, the map being free between the two. *)
Lemma first_build_is_not_optimised :
  fst first_build = Some [start; origin; goal]
  /\ optimisePath (mat (snd first_build)) [start; origin; goal] (self (snd first_build))
     = [start; goal]
  /\ ~ returns_optimised 1000 at_origin 7%N 9%N (free_image 40) start goal fresh_planner.
Proof.
  split; [run_vm|]. split; [run_vm|].
  intros C.
  assert (Ef : fst (run_build 1000 at_origin 7%N 9%N (free_image 40) start goal
                      fresh_planner) = Some [start; origin; goal]) by run_vm.
  assert (Hne : [start; origin; goal] <> []) by discriminate.
  pose proof (@returns_optimised_inv QDouble SpecGraphOps SpecGridOps 1000 at_origin
                7%N 9%N (free_image 40) start goal fresh_planner
                [start; origin; goal] C Ef Hne) as Hinv.
  destruct Hinv as (vS & vG & vPath & evs & translation & Htr & Htrans & Hopt).
  assert (Et : trace (snd (run_build 1000 at_origin 7%N 9%N (free_image 40) start goal
                             fresh_planner))
               = [Accessible (5, 20)%Z true; Accessible (35, 20)%Z true;
                  FindOrAdd start 0%N; FindOrAdd goal 1%N;
                  ShortestPath 0%N 1%N []; ShortestPath 0%N 1%N [];
                  Iteration 1; Accessible (20, 20)%Z true; FindOrAdd origin 2%N]
                 ++ [ShortestPath 0%N 1%N [0%N; 2%N; 1%N]]) by run_vm.
  rewrite Et in Htr. apply app_inj_tail in Htr. destruct Htr as [_ Hq].
  inversion Hq; subst vS vG vPath. clear Hq.
  assert (El : vertexLUT_ (self (snd (run_build 1000 at_origin 7%N 9%N (free_image 40)
                                        start goal fresh_planner)))
               = [(0%N, start); (1%N, goal); (2%N, origin)]) by run_vm.
  rewrite El in Htrans.
  inversion Htrans as [|v0 o0 l0 t0 H0 Hr0]; subst. clear Htrans.
  inversion Hr0 as [|v1 o1 l1 t1 H1 Hr1]; subst. clear Hr0.
  inversion Hr1 as [|v2 o2 l2 t2 H2 Hr2]; subst. clear Hr1.
  inversion Hr2; subst. clear Hr2.
  cbn in H0, H1, H2.
  injection H0 as <-. injection H1 as <-. injection H2 as <-.
  assert (Eo : optimisePath
                 (mat (snd (run_build 1000 at_origin 7%N 9%N (free_image 40) start goal
                              fresh_planner)))
                 [start; origin; goal]
                 (self (snd (run_build 1000 at_origin 7%N 9%N (free_image 40) start goal
                               fresh_planner)))
               = [start; goal]) by run_vm.
  rewrite Eo in Hopt. discriminate Hopt.
Qed.



(** C6 fails on a pass whose map is empty: nothing is published. *)
Lemma empty_map_publishes_no_overlay :
  mat_empty (latest_map with_empty_map) = true
  /\ published_by with_empty_map (snd (planning_cycle 2 oracle with_empty_map)) = []
  /\ ~ exists img rest,
         published_by with_empty_map (snd (planning_cycle 2 oracle with_empty_map))
         = OverlayMsg img :: rest.
Proof.
  split; [run_vm|]. split; [run_vm|].
  intros (img & rest & H).
  replace (published_by with_empty_map (snd (planning_cycle 2 oracle with_empty_map)))
    with (@nil message) in H by (symmetry; run_vm).
  discriminate H.
Qed.

(** C9 fails on the two requests: the second call of [build] in the pass
    is made between lines 163 and 164 of the second request and gets the
    goal [(1, 5)], which no request carried. *)
Lemma a_goal_nobody_requested_is_built :
  option_map (fun t => map call_goal (builds (mem t)))
             (run oracle torn_schedule two_requests)
  = Some [mkOrd 5 5; mkOrd 1 5; mkOrd 1 1].
Proof. run_vm. Qed.

End RunFacts.

(* ================================================================== *)
(** * The vertex table, kept in key order *)
Section MapOkFacts.
Context `{Double}.

Lemma map_ok_by_test (l : LUT) : increasing (keys l) = true -> map_ok l.
Proof.
  unfold map_ok. intros Hinc. apply Sorted_StronglySorted; [exact N.lt_trans|].
  induction (keys l) as [|k ks IH]; [constructor|].
  destruct ks as [|k' ks]; [repeat constructor|].
  cbn [increasing] in Hinc. apply andb_true_iff in Hinc. destruct Hinc as [Hk Hinc].
  constructor; [exact (IH Hinc)|]. constructor. now apply N.ltb_lt.
Qed.

Lemma lut_find_of_In (k : vertex) (o : TGlobalOrd) (l : LUT) :
  map_ok l -> In (k, o) l -> lut_find k l = Some o.
Proof.
  unfold map_ok. induction l as [|[k0 o0] l IH]; cbn; [tauto|].
  intros Hs [E|Hin].
  - injection E as -> ->. now rewrite N.eqb_refl.
  - inversion Hs as [|? ? Hs' Hlt]; subst.
    destruct (N.eqb_spec k0 k) as [->|]; [|auto].
    rewrite Forall_forall in Hlt.
    assert (k < k)%N by (apply Hlt; apply in_map_iff; exists (k, o); auto). lia.
Qed.

Lemma lut_find_is_In (k : vertex) (o : TGlobalOrd) (l : LUT) :
  lut_find k l = Some o -> In (k, o) l.
Proof.
  induction l as [|[k0 o0] l IH]; cbn; [discriminate|].
  destruct (N.eqb_spec k0 k) as [->|]; [|auto].
  intros E. injection E as ->. auto.
Qed.

(** [std::map::insert] with a key that is present changes nothing. *)
Lemma lut_insert_present (v : vertex) (o o' : TGlobalOrd) (l : LUT) :
  map_ok l -> lut_find v l = Some o' -> lut_insert v o l = l.
Proof.
  unfold map_ok. induction l as [|[k0 o0] l IH]; cbn; [discriminate|].
  intros Hs. inversion Hs as [|? ? Hs' Hlt]; subst.
  destruct (N.eqb_spec k0 v) as [->|Hne].
  - intros _. now rewrite N.ltb_irrefl.
  - intros Hf. destruct (N.ltb_spec v k0) as [Hlt'|]; [|now rewrite IH].
    apply lut_find_is_In in Hf.
    rewrite Forall_forall in Hlt.
    assert (k0 < v)%N by (apply Hlt; apply in_map_iff; exists (v, o'); auto). lia.
Qed.

Lemma keys_lut_insert_absent (v : vertex) (o : TGlobalOrd) (l : LUT) :
  forall k, In k (keys (lut_insert v o l)) -> k = v \/ In k (keys l).
Proof.
  induction l as [|[k0 o0] l IH]; cbn; intros k.
  - intuition (subst; auto).
  - destruct (N.ltb_spec v k0); cbn; [intuition (subst; auto)|].
    destruct (N.eqb_spec k0 v); cbn; [intuition (subst; auto)|].
    intros [->|Hin]; [tauto|]. destruct (IH _ Hin); tauto.
Qed.

Lemma lut_insert_ok (v : vertex) (o : TGlobalOrd) (l : LUT) :
  map_ok l -> map_ok (lut_insert v o l).
Proof.
  unfold map_ok. induction l as [|[k0 o0] l IH]; cbn; intros Hs.
  - repeat constructor.
  - inversion Hs as [|? ? Hs' Hlt]; subst.
    destruct (N.ltb_spec v k0).
    + cbn. constructor; [exact Hs|]. constructor; [assumption|].
      eapply Forall_impl; [|exact Hlt]. cbn. intros; lia.
    + destruct (N.eqb_spec k0 v); [exact Hs|].
      cbn. constructor; [auto|].
      apply Forall_forall. intros k Hk.
      destruct (keys_lut_insert_absent _ _ _ _ Hk) as [->|Hin]; [lia|].
      rewrite Forall_forall in Hlt. auto.
Qed.

(** With or without an entry under [v], [insert] keeps every entry. *)
Lemma lut_insert_keeps (v k : vertex) (o o' : TGlobalOrd) (l : LUT) :
  map_ok l -> lut_find k l = Some o' -> lut_find k (lut_insert v o l) = Some o'.
Proof.
  intros Hs Hk. destruct (lut_find v l) as [ov|] eqn:Ev.
  - now rewrite lut_insert_present with (o' := ov).
  - rewrite lut_find_insert_absent by exact Ev.
    destruct (N.eqb_spec v k); [congruence|assumption].
Qed.

End MapOkFacts.

(* ================================================================== *)
(** * Reading the table *)
Section RoadmapFacts.
Context `{D : Double} `{G : !GraphOps} `{L : !LocalMapOps}.

Lemma lookup_in_app (ord : TGlobalOrd) (v : vertex) (l l' : LUT) :
  existsb (fun e => same_ord (snd e) ord) l = false ->
  lookup_in ord v (l ++ l') = lookup_in ord v l'.
Proof.
  induction l as [|e l IH]; cbn; [reflexivity|].
  destruct (same_ord (snd e) ord); cbn; [discriminate|auto].
Qed.

Lemma set_vertexLUT_same (s : GlobalMap) : set_vertexLUT (vertexLUT_ s) s = s.
Proof. now destruct s. Qed.

(** [vertexLUT_[v]], run on an object. *)
Lemma vertexLUT_at_run (v : vertex) (s : GlobalMap) :
  vertexLUT_at v s
  = (entry_or_default v (vertexLUT_ s),
     match lut_find v (vertexLUT_ s) with
     | Some _ => s
     | None => set_vertexLUT (lut_insert v default_ord (vertexLUT_ s)) s
     end).
Proof.
  unfold vertexLUT_at, lut_index, entry_or_default.
  destruct (lut_find v (vertexLUT_ s)); [now rewrite set_vertexLUT_same|reflexivity].
Qed.

Lemma vertexLUT_at_find (v k : vertex) (s : GlobalMap) :
  lut_find k (vertexLUT_ (snd (vertexLUT_at v s)))
  = match lut_find k (vertexLUT_ s) with
    | Some o => Some o
    | None => if (k =? v)%N then Some default_ord else None
    end.
Proof.
  rewrite vertexLUT_at_run. cbn [snd].
  destruct (lut_find v (vertexLUT_ s)) eqn:Ev.
  - destruct (lut_find k (vertexLUT_ s)) eqn:Ek; [reflexivity|].
    destruct (N.eqb_spec k v); [congruence|reflexivity].
  - cbn [vertexLUT_ set_vertexLUT]. rewrite lut_find_insert_absent by exact Ev.
    rewrite (N.eqb_sym v k).
    destruct (N.eqb_spec k v) as [->|]; [now rewrite Ev|].
    now destruct (lut_find k (vertexLUT_ s)).
Qed.

Lemma vertexLUT_at_settings (v : vertex) (s : GlobalMap) :
  graph_ (snd (vertexLUT_at v s)) = graph_ s
  /\ nextVertexId_ (snd (vertexLUT_at v s)) = nextVertexId_ s
  /\ same_settings s (snd (vertexLUT_at v s)).
Proof.
  rewrite vertexLUT_at_run. cbn [snd]. unfold same_settings.
  destruct (lut_find v (vertexLUT_ s)); cbn; auto 10.
Qed.

Lemma same_settings_refl (s : GlobalMap) : same_settings s s.
Proof. unfold same_settings. auto. Qed.

Lemma same_settings_trans (s1 s2 s3 : GlobalMap) :
  same_settings s1 s2 -> same_settings s2 s3 -> same_settings s1 s3.
Proof.
  unfold same_settings. intros (A1 & A2 & A3 & A4) (B1 & B2 & B3 & B4).
  repeat split; congruence.
Qed.

End RoadmapFacts.

Section RoadmapProperties.
Context `{D : Double} `{G : !GraphOps} `{L : !LocalMapOps}.

(** X1. [lookup] answers as [existsAsVertex] does. When it finds something,
    the vertex it puts into [v] is the key of the first entry, in key
    order, whose ordinate compares equal to [ord]; when it finds nothing,
    [v] holds what it held before. *)
Theorem lookup_finds_the_first_equal_ordinate
  (ord : TGlobalOrd) (v0 : vertex) (s : GlobalMap) :
  fst (lookup ord v0 s) = existsAsVertex ord s
  /\ if existsAsVertex ord s then
       exists before o after,
         vertexLUT_ s = before ++ (snd (lookup ord v0 s), o) :: after
         /\ same_ord o ord = true
         /\ Forall (fun e => same_ord (snd e) ord = false) before
     else snd (lookup ord v0 s) = v0.
Proof.
  unfold lookup, existsAsVertex.
  induction (vertexLUT_ s) as [|[k o] l IH]; cbn [lookup_in existsb fst snd].
  - auto.
  - destruct (same_ord o ord) eqn:E; cbn [orb fst snd].
    + split; [reflexivity|]. exists [], o, l. auto.
    + destruct IH as [IH1 IH2]. split; [exact IH1|].
      destruct (existsb _ l); [|exact IH2].
      destruct IH2 as (before & o' & after & E1 & E2 & E3).
      exists ((k, o) :: before), o', after. rewrite E1 at 1.
      split; [reflexivity|]. split; [exact E2|]. constructor; assumption.
Qed.

(** X2. Calling [findOrAdd] a second time with an ordinate that equals itself
    gives the vertex the first call gave, and changes nothing. *)
Theorem findOrAdd_again_gives_the_same_vertex (p : TGlobalOrd) (s : GlobalMap) :
  ids_below_next s ->
  same_ord p p = true ->
  findOrAdd p (snd (findOrAdd p s)) = findOrAdd p s.
Proof.
  intros Hb Hp. unfold findOrAdd at 2 3.
  destruct (existsAsVertex p s) eqn:E.
  - cbn [snd]. unfold findOrAdd. now rewrite E.
  - rewrite !bind_run. unfold nextVertexId, modify, ret. cbn [fst snd].
    unfold findOrAdd, existsAsVertex, lookup.
    cbn [vertexLUT_ set_vertexLUT set_graph set_nextVertexId].
    rewrite lut_insert_above by exact Hb.
    rewrite existsb_app. unfold existsAsVertex in E. rewrite E. cbn [existsb snd orb].
    rewrite Hp. cbn [orb].
    rewrite lookup_in_app by exact E. cbn [lookup_in snd fst]. now rewrite Hp.
Qed.

(** X3. [convertPath] gives, for each vertex of the path, its entry in the
    table, and the ordinate [{0, 0}] for a vertex that has none; such a
    vertex has the entry [{0, 0}] afterwards. The entries there were, the
    graph, the next id and the other members are as before. *)
Theorem convertPath_gives_entries_and_defaults (path : list vertex) :
  forall s : GlobalMap,
    let r := convertPath path s in
    fst r = map (fun v => entry_or_default v (vertexLUT_ s)) path
    /\ (forall k, lut_find k (vertexLUT_ (snd r))
                  = match lut_find k (vertexLUT_ s) with
                    | Some o => Some o
                    | None => if existsb (N.eqb k) path then Some default_ord else None
                    end)
    /\ graph_ (snd r) = graph_ s
    /\ nextVertexId_ (snd r) = nextVertexId_ s
    /\ same_settings s (snd r).
Proof.
  induction path as [|v path IH]; intros s; cbv zeta; cbn [convertPath].
  - unfold ret. cbn [fst snd map existsb].
    split; [reflexivity|]. split; [|auto using same_settings_refl].
    intros k. now destruct (lut_find k (vertexLUT_ s)).
  - rewrite !bind_run. unfold ret. cbn [fst snd map existsb].
    set (s1 := snd (vertexLUT_at v s)).
    destruct (IH s1) as (I1 & I2 & I3 & I4 & I5).
    destruct (vertexLUT_at_settings v s) as (V3 & V4 & V5). fold s1 in V3, V4, V5.
    assert (Hd : forall k, entry_or_default k (vertexLUT_ s1)
                           = entry_or_default k (vertexLUT_ s)).
    { intros k. unfold entry_or_default. subst s1. rewrite vertexLUT_at_find.
      destruct (lut_find k (vertexLUT_ s)); [reflexivity|].
      now destruct (k =? v)%N. }
    split; [|split; [|split; [congruence|split; [congruence|]]]].
    + rewrite I1. rewrite vertexLUT_at_run. cbn [fst]. f_equal.
      apply map_ext. intros k. apply Hd.
    + intros k. rewrite I2. subst s1. rewrite vertexLUT_at_find.
      destruct (lut_find k (vertexLUT_ s)); [reflexivity|].
      destruct (k =? v)%N; cbn [orb]; [|reflexivity].
      reflexivity.
    + eapply same_settings_trans; eassumption.
Qed.

(** X4. The ordinate of the vertex [findOrAdd(p)] returns, read back through
    [convertPath], is [p] itself when the vertex is new, and an ordinate
    that compares equal to [p] when it was there; reading it back changes
    nothing. *)
Theorem convertPath_reads_back_findOrAdd (p : TGlobalOrd) (s : GlobalMap) :
  map_ok (vertexLUT_ s) ->
  ids_below_next s ->
  let found := findOrAdd p s in
  exists o,
    convertPath [fst found] (snd found) = ([o], snd found)
    /\ if existsAsVertex p s then same_ord o p = true else o = p.
Proof.
  intros Hs Hb. cbv zeta.
  pose proof (findOrAdd_call p Hb) as C. unfold findOrAdd_contract in C.
  cbn [pre arg result post] in C.
  set (found := findOrAdd p s) in *.
  assert (Hfind : exists o, lut_find (fst found) (vertexLUT_ (snd found)) = Some o
                            /\ if existsAsVertex p s then same_ord o p = true else o = p).
  { destruct (existsAsVertex p s).
    - destruct C as (-> & o & Hin & Ho). exists o. split; [|exact Ho].
      now apply lut_find_of_In.
    - destruct C as (Cv & Cnew & Cl & _). exists p. split; [|reflexivity].
      rewrite Cl. clear - Cnew. induction (vertexLUT_ s) as [|[k o] l IH]; cbn.
      + now rewrite N.eqb_refl.
      + cbn in Cnew. destruct (N.eqb_spec k (fst found)); [tauto|]. apply IH. tauto. }
  destruct Hfind as (o & Hf & Ho). exists o. split; [|exact Ho].
  cbn [convertPath]. rewrite !bind_run. unfold ret. cbn [fst snd].
  rewrite vertexLUT_at_run. unfold entry_or_default. rewrite Hf. reflexivity.
Qed.

End RoadmapProperties.

(* ================================================================== *)
(** * The overlay *)
Section FoldFacts.

(** A [fold_left] whose accumulator is a command, run on a state. *)
Lemma fold_left_bind_run {S A B} (f : B -> A -> St S B) (l : list A) :
  forall (c : St S B) (s : S),
    fold_left (fun acc x => b <- acc ;; f b x) l c s
    = fold_left (fun bs x => f (fst bs) x (snd bs)) l (c s).
Proof.
  induction l as [|x l IH]; intros c s; cbn [fold_left]; [reflexivity|].
  rewrite IH, bind_run. reflexivity.
Qed.

End FoldFacts.

Section OverlayFacts.
Context `{D : Double} `{G : !GraphOps} `{L : !LocalMapOps}.

Lemma adds_defaults_only_refl (s : GlobalMap) : adds_defaults_only s s.
Proof. unfold adds_defaults_only. auto using same_settings_refl. Qed.

Lemma adds_defaults_only_trans (s1 s2 s3 : GlobalMap) :
  adds_defaults_only s1 s2 -> adds_defaults_only s2 s3 -> adds_defaults_only s1 s3.
Proof.
  intros (A1 & A2 & A3 & A4) (B1 & B2 & B3 & B4).
  split; [congruence|]. split; [congruence|].
  split; [eapply same_settings_trans; eassumption|].
  intros k. destruct (A4 k) as [Ea|[Ea1 Ea2]], (B4 k) as [Eb|[Eb1 Eb2]].
  - left. congruence.
  - right. split; congruence.
  - right. split; congruence.
  - congruence.
Qed.

Lemma vertexLUT_at_adds_defaults_only (v : vertex) (s : GlobalMap) :
  adds_defaults_only s (snd (vertexLUT_at v s)).
Proof.
  destruct (vertexLUT_at_settings v s) as (V1 & V2 & V3).
  split; [exact V1|]. split; [exact V2|]. split; [exact V3|].
  intros k. rewrite vertexLUT_at_find.
  destruct (lut_find k (vertexLUT_ s)); [auto|].
  destruct (k =? v)%N; auto.
Qed.

(** [lmap_.convertToPoint(reference_, vertexLUT_[v])], run on an object. *)
Lemma pointOf_run (v : vertex) (s : GlobalMap) :
  pointOf v s
  = (convertToPoint (lmap_ s) (reference_ s) (entry_or_default v (vertexLUT_ s)),
     snd (vertexLUT_at v s)).
Proof.
  unfold pointOf. rewrite !bind_run. unfold get, ret. cbn [fst snd].
  destruct (vertexLUT_at_settings v s) as (_ & _ & -> & -> & _).
  rewrite vertexLUT_at_run. reflexivity.
Qed.

Lemma pointOf_known (v : vertex) (o : TGlobalOrd) (s : GlobalMap) :
  lut_find v (vertexLUT_ s) = Some o ->
  pointOf v s = (convertToPoint (lmap_ s) (reference_ s) o, s).
Proof.
  intros E. rewrite pointOf_run, vertexLUT_at_run. unfold entry_or_default.
  rewrite E. reflexivity.
Qed.

(** No pair of the list comes after its reverse. *)
Lemma no_reverse_snoc (prm : list (Point * Point)) (a b : Point) :
  (forall l1 a' b' l2, prm = l1 ++ (a', b') :: l2 -> holds_reverse a' b' l1 = false) ->
  holds_reverse a b prm = false ->
  forall l1 a' b' l2, prm ++ [(a, b)] = l1 ++ (a', b') :: l2 ->
                      holds_reverse a' b' l1 = false.
Proof.
  intros Hprm Hab l1 a' b' l2 E.
  destruct (exists_last (l := (a', b') :: l2)) as (l2' & x & El); [discriminate|].
  rewrite El, app_assoc in E. apply app_inj_tail in E. destruct E as [E1 E2].
  destruct l2' as [|y l2'].
  - cbn in El. injection El as <-. rewrite app_nil_r in E1. subst l1.
    now injection E2 as <- <-.
  - cbn in El. injection El as <- _. eapply Hprm. exact E1.
Qed.

End OverlayFacts.

Section ConstructFacts.
Context `{D : Double} `{G : !GraphOps} `{L : !LocalMapOps}.

Lemma fold_left_same {A B} (g g' : B -> A -> B) (l : list A) :
  (forall b x, g b x = g' b x) -> forall b, fold_left g l b = fold_left g' l b.
Proof.
  intros E. induction l as [|x l IH]; intros b; cbn [fold_left]; [reflexivity|].
  now rewrite E, IH.
Qed.

(** [constructPRM] as the two loops, run on an object. *)
Lemma constructPRM_run (s : GlobalMap) :
  constructPRM s = fold_left prm_node (container (graph_ s)) ([], s).
Proof.
  unfold constructPRM. rewrite bind_run. unfold gets. cbn [fst snd].
  rewrite fold_left_bind_run. unfold ret at 1.
  apply fold_left_same. intros [prm s1] node. cbn [fst snd].
  rewrite bind_run. unfold prm_node. cbn [fst snd].
  destruct (pointOf (fst node) s1) as [pCurrent s2]. cbn [fst snd].
  rewrite fold_left_bind_run. unfold ret at 1.
  apply fold_left_same. intros [prm' s3] neighbour. cbn [fst snd].
  rewrite bind_run. unfold prm_neighbour. cbn [fst snd].
  destruct (pointOf (fst neighbour) s3) as [pNeighbour s4]. cbn [fst snd].
  unfold holds_reverse. now destruct (existsb _ prm').
Qed.

Lemma prm_neighbour_spec (s : GlobalMap) (pCurrent : Point)
  (nbs : list (vertex * double)) :
  forall acc,
    (forall l1 a b l2, fst acc = l1 ++ (a, b) :: l2 -> holds_reverse a b l1 = false) ->
    adds_defaults_only s (snd acc) ->
    let r := fold_left (prm_neighbour pCurrent) nbs acc in
    (forall l1 a b l2, fst r = l1 ++ (a, b) :: l2 -> holds_reverse a b l1 = false)
    /\ adds_defaults_only s (snd r)
    /\ (length (fst r) <= length (fst acc) + length nbs)%nat.
Proof.
  induction nbs as [|nb nbs IH]; intros [prm s1] Hrf Hs; cbv zeta; cbn [fold_left fst snd length] in *.
  - split; [exact Hrf|]. split; [exact Hs|]. lia.
  - set (pN := convertToPoint (lmap_ s1) (reference_ s1)
                  (entry_or_default (fst nb) (vertexLUT_ s1))).
    set (s2 := snd (vertexLUT_at (fst nb) s1)).
    replace (prm_neighbour pCurrent (prm, s1) nb)
      with (if holds_reverse pCurrent pN prm then prm
            else prm ++ [(pCurrent, pN)], s2)
      by (unfold prm_neighbour; cbn [fst snd]; now rewrite pointOf_run).
    assert (Hs2 : adds_defaults_only s s2).
    { eapply adds_defaults_only_trans; [exact Hs|apply vertexLUT_at_adds_defaults_only]. }
    destruct (holds_reverse pCurrent pN prm) eqn:Eh.
    + destruct (IH (prm, s2) Hrf Hs2) as (I1 & I2 & I3). cbn [fst snd] in *.
      split; [exact I1|]. split; [exact I2|]. lia.
    + destruct (IH (prm ++ [(pCurrent, pN)], s2)) as (I1 & I2 & I3).
      * cbn [fst]. now apply no_reverse_snoc.
      * exact Hs2.
      * cbn [fst snd] in *. rewrite length_app in I3. cbn [length] in I3.
        split; [exact I1|]. split; [exact I2|]. lia.
Qed.

Lemma prm_node_spec (s : GlobalMap) (nodes : list (vertex * list (vertex * double))) :
  forall acc,
    (forall l1 a b l2, fst acc = l1 ++ (a, b) :: l2 -> holds_reverse a b l1 = false) ->
    adds_defaults_only s (snd acc) ->
    let r := fold_left prm_node nodes acc in
    (forall l1 a b l2, fst r = l1 ++ (a, b) :: l2 -> holds_reverse a b l1 = false)
    /\ adds_defaults_only s (snd r)
    /\ (length (fst r)
        <= length (fst acc) + list_sum (map (fun node => length (snd node)) nodes))%nat.
Proof.
  induction nodes as [|node nodes IH]; intros [prm s1] Hrf Hs; cbv zeta;
    cbn [fold_left fst snd] in *.
  - split; [exact Hrf|]. split; [exact Hs|]. cbn. lia.
  - set (pC := convertToPoint (lmap_ s1) (reference_ s1)
                  (entry_or_default (fst node) (vertexLUT_ s1))).
    set (s2 := snd (vertexLUT_at (fst node) s1)).
    replace (prm_node (prm, s1) node)
      with (fold_left (prm_neighbour pC) (snd node) (prm, s2))
      by (unfold prm_node; cbn [fst snd]; now rewrite pointOf_run).
    assert (Hs2 : adds_defaults_only s s2).
    { eapply adds_defaults_only_trans; [exact Hs|apply vertexLUT_at_adds_defaults_only]. }
    destruct (prm_neighbour_spec pC (snd node) (prm, s2) Hrf Hs2) as (J1 & J2 & J3).
    cbn [fst snd] in *.
    destruct (IH _ J1 J2) as (I1 & I2 & I3).
    split; [exact I1|]. split; [exact I2|].
    cbn [map]. unfold list_sum in *. cbn [fold_right]. lia.
Qed.

(** When every vertex of the container has an entry, the two loops leave
    the object as it is. *)
Lemma prm_node_known (s : GlobalMap) (nodes : list (vertex * list (vertex * double))) :
  forallb (fun node =>
             match lut_find (fst node) (vertexLUT_ s) with
             | Some _ =>
                 forallb (fun neighbour =>
                            match lut_find (fst neighbour) (vertexLUT_ s) with
                            | Some _ => true
                            | None => false
                            end) (snd node)
             | None => false
             end) nodes = true ->
  forall prm, snd (fold_left prm_node nodes (prm, s)) = s.
Proof.
  induction nodes as [|node nodes IH]; cbn [forallb fold_left]; intros Hk prm;
    [reflexivity|].
  apply andb_true_iff in Hk. destruct Hk as [Hn Hk].
  destruct (lut_find (fst node) (vertexLUT_ s)) as [o|] eqn:Eo; [|discriminate].
  set (pC := convertToPoint (lmap_ s) (reference_ s) o).
  replace (prm_node (prm, s) node)
    with (fold_left (prm_neighbour pC) (snd node) (prm, s))
    by (unfold prm_node; cbn [fst snd]; now rewrite (pointOf_known _ _ Eo)).
  assert (Hin : forall prm', exists prm'',
             fold_left (prm_neighbour pC) (snd node) (prm', s) = (prm'', s)).
  { clear - Hn. induction (snd node) as [|nb nbs IHn]; intros prm'; cbn [fold_left].
    - eauto.
    - cbn [forallb] in Hn. apply andb_true_iff in Hn. destruct Hn as [Hb Hn].
      destruct (lut_find (fst nb) (vertexLUT_ s)) as [ob|] eqn:Eb; [|discriminate].
      replace (prm_neighbour pC (prm', s) nb)
        with (if holds_reverse pC (convertToPoint (lmap_ s) (reference_ s) ob) prm'
              then prm'
              else prm' ++ [(pC, convertToPoint (lmap_ s) (reference_ s) ob)], s)
        by (unfold prm_neighbour; cbn [fst snd]; now rewrite (pointOf_known _ _ Eb)).
      apply IHn. exact Hn. }
  destruct (Hin prm) as (prm'' & ->). apply IH. exact Hk.
Qed.

Lemma constructPRM_adds_defaults_only (s : GlobalMap) :
  adds_defaults_only s (snd (constructPRM s)).
Proof.
  rewrite constructPRM_run.
  destruct (prm_node_spec (s := s) (container (graph_ s)) ([], s)) as (_ & H & _);
    [cbn [fst]; intros [|x l1] a b l2 E; discriminate E
    |apply adds_defaults_only_refl|exact H].
Qed.

(** [showOverlay], run on an object. *)
Lemma showOverlay_run (m : Mat) (path : list TGlobalOrd) (s : GlobalMap) :
  showOverlay m path s
  = (overlayPath (lmap_ s) (overlayPRM (lmap_ s) m (fst (constructPRM s)))
       (map (convertToPoint (lmap_ s) (reference_ s)) path),
     snd (constructPRM s)).
Proof.
  unfold showOverlay. rewrite !bind_run. unfold gets, get, ret. cbn [fst snd].
  destruct (constructPRM_adds_defaults_only s) as (_ & _ & (-> & _) & _).
  reflexivity.
Qed.

End ConstructFacts.

Section OverlayProperties.
Context `{D : Double} `{G : !GraphOps} `{L : !LocalMapOps}.

(** X5. [constructPRM] lists no pair of points after its reverse, and at most
    one pair for each neighbour entry of the graph's container. It
    changes neither the graph, nor the next id, nor the other members,
    nor an entry of the table; a vertex of the container that had no
    entry has the entry [{0, 0}] afterwards. *)
Theorem constructPRM_lists_no_pair_after_its_reverse (s : GlobalMap) :
  let r := constructPRM s in
  (forall l1 a b l2, fst r = l1 ++ (a, b) :: l2 -> holds_reverse a b l1 = false)
  /\ (length (fst r) <= neighbour_entries s)%nat
  /\ adds_defaults_only s (snd r).
Proof.
  cbv zeta. rewrite constructPRM_run.
  destruct (prm_node_spec (s := s) (container (graph_ s)) ([], s)) as (H1 & H2 & H3).
  - cbn [fst]. intros [|x l1] a b l2 E; discriminate E.
  - apply adds_defaults_only_refl.
  - cbn [fst snd length] in *. unfold neighbour_entries. auto.
Qed.

(** X6. [showOverlay] draws the pairs of [constructPRM] and then the path,
    converted with the reference the object has at the call, and leaves the
    roadmap alone but for entries [{0, 0}] it may add to the table. *)
Theorem showOverlay_draws_and_leaves_the_roadmap
  (m : Mat) (path : list TGlobalOrd) (s : GlobalMap) :
  fst (showOverlay m path s)
  = overlayPath (lmap_ s) (overlayPRM (lmap_ s) m (fst (constructPRM s)))
      (map (convertToPoint (lmap_ s) (reference_ s)) path)
  /\ adds_defaults_only s (snd (showOverlay m path s)).
Proof.
  rewrite showOverlay_run. cbn [fst snd].
  split; [reflexivity|apply constructPRM_adds_defaults_only].
Qed.

(** X7. When every vertex the graph's container lists has an entry in the
    table, [showOverlay] leaves the object exactly as it is. *)
Theorem showOverlay_changes_nothing_when_graph_known
  (m : Mat) (path : list TGlobalOrd) (s : GlobalMap) :
  graph_known s = true ->
  snd (showOverlay m path s) = s.
Proof.
  intros Hk. rewrite showOverlay_run. cbn [snd].
  rewrite constructPRM_run. now apply prm_node_known.
Qed.

End OverlayProperties.

(* ================================================================== *)
(** * Connecting a node *)
Section ConnectFacts.
Context `{D : Double} `{G : !GraphOps} `{L : !LocalMapOps}.

Lemma set_graph_same (s : GlobalMap) : set_graph (graph_ s) s = s.
Proof. now destruct s. Qed.

(** A range-for whose body acts on one part [b] of the state. *)
Lemma for_each_fold {S A B} (body : A -> St S unit) (inj : B -> S)
  (step : B -> A -> B) (l : list A) :
  (forall a b, snd (body a (inj b)) = inj (step b a)) ->
  forall b, for_each l body (inj b) = (tt, inj (fold_left step l b)).
Proof.
  intros Hbody. induction l as [|a l IH]; intros b; cbn [for_each fold_left].
  - reflexivity.
  - rewrite bind_run, Hbody. apply IH.
Qed.

(** The body of the range-for of [connectToExistingNodes], run on the
    object [s] with the graph [g], [node] having the entry [oNode]. *)
Lemma connect_body_run (m : Mat) (node : vertex) (oNode : TGlobalOrd) (s : GlobalMap)
  (vert : vertex * TGlobalOrd) (g : Graph) :
  lut_find node (vertexLUT_ s) = Some oNode ->
  snd ((if (fst vert =? node)%N then ret tt
        else
          s0 <- get ;;
          let pVertex := convertToPoint (lmap_ s0) (reference_ s0) (snd vert) in
          if canConnect (lmap_ s0) m
               (convertToPoint (lmap_ s) (reference_ s) oNode) pVertex then
            oNode <- vertexLUT_at node ;;
            modify (fun s =>
              set_graph (snd (addEdge node (fst vert) (distance oNode (snd vert))
                                      (graph_ s))) s)
          else ret tt) (set_graph g s))
  = set_graph (connect_to m node oNode s g vert) s.
Proof.
  intros Hn. unfold connect_to.
  destruct (fst vert =? node)%N; [reflexivity|].
  rewrite bind_run. unfold get. cbn [fst snd lmap_ reference_ set_graph].
  destruct (canConnect _ _ _ _); [|reflexivity].
  rewrite bind_run, vertexLUT_at_run. unfold entry_or_default.
  change (vertexLUT_ (set_graph g s)) with (vertexLUT_ s). rewrite Hn. reflexivity.
Qed.

End ConnectFacts.

Section ConnectProperties.
Context `{D : Double} `{G : !GraphOps} `{L : !LocalMapOps}.

(** X8. For a [node] that has an entry, [connectToExistingNodes] changes the
    graph and nothing else: it goes through the other entries of the
    table in key order and calls [addEdge(node, v, distance)] for each one
    whose pixel [canConnect] to the pixel of [node], both taken under the
    current reference; it never asks for an edge from [node] to itself. *)
Theorem connectToExistingNodes_adds_edges_from_the_node_only
  (m : Mat) (node : vertex) (oNode : TGlobalOrd) (s : GlobalMap) :
  lut_find node (vertexLUT_ s) = Some oNode ->
  snd (connectToExistingNodes m node s)
  = set_graph (fold_left (connect_to m node oNode s) (vertexLUT_ s) (graph_ s)) s.
Proof.
  intros Hn. unfold connectToExistingNodes.
  rewrite bind_run, (pointOf_known _ _ Hn). cbn [fst snd].
  rewrite bind_run. unfold gets at 1. cbn [fst snd].
  match goal with
  | |- snd (for_each ?l ?body _) = _ =>
      pose proof (for_each_fold body (fun g => set_graph g s)
                    (connect_to m node oNode s) l
                    (fun vert g => @connect_body_run _ _ _ m node oNode s vert g Hn) (graph_ s)) as H
  end.
  cbv beta in H. rewrite set_graph_same in H. exact (f_equal snd H).
Qed.

(** X9. For a [node] that has no entry, [connectToExistingNodes] first gives
    it the entry [{0, 0}], through [vertexLUT_[node]], and then connects it
    as it does a vertex at that ordinate. *)
Theorem connectToExistingNodes_gives_an_unknown_node_the_default
  (m : Mat) (node : vertex) (s : GlobalMap) :
  lut_find node (vertexLUT_ s) = None ->
  let s1 := set_vertexLUT (lut_insert node default_ord (vertexLUT_ s)) s in
  lut_find node (vertexLUT_ s1) = Some default_ord
  /\ snd (connectToExistingNodes m node s)
     = set_graph (fold_left (connect_to m node default_ord s1)
                    (vertexLUT_ s1) (graph_ s1)) s1.
Proof.
  intros Hn s1.
  assert (H1 : lut_find node (vertexLUT_ s1) = Some default_ord).
  { subst s1. cbn [vertexLUT_ set_vertexLUT].
    rewrite lut_find_insert_absent by exact Hn. now rewrite N.eqb_refl. }
  split; [exact H1|].
  unfold connectToExistingNodes.
  rewrite bind_run, pointOf_run, vertexLUT_at_run. unfold entry_or_default.
  rewrite Hn. cbn [fst snd]. fold s1.
  rewrite bind_run. unfold gets at 1. cbn [fst snd].
  match goal with
  | |- snd (for_each ?l ?body _) = _ =>
      pose proof (for_each_fold body (fun g => set_graph g s1)
                    (connect_to m node default_ord s1) l
                    (fun vert g => @connect_body_run _ _ _ m node default_ord s1 vert g H1)
                    (graph_ s1)) as H
  end.
  cbv beta in H. rewrite set_graph_same in H. exact (f_equal snd H).
Qed.

End ConnectProperties.

(* ================================================================== *)
(** * How a call of build changes the roadmap *)
Section GrowthFacts.
Context `{D : Double} `{G : !GraphOps} `{L : !LocalMapOps}.

Lemma grows_by_refl (s : GlobalMap) : grows_by 0 s s.
Proof.
  split; [apply same_settings_refl|]. split; [lia|].
  intros Hs. split; [exact Hs|]. intros k o E. exact E.
Qed.

Lemma grows_by_trans (n m : N) (s1 s2 s3 : GlobalMap) :
  grows_by n s1 s2 -> grows_by m s2 s3 -> grows_by (n + m) s1 s3.
Proof.
  intros (A1 & A2 & A3) (B1 & B2 & B3).
  split; [eapply same_settings_trans; eassumption|]. split; [lia|].
  intros Hs. destruct (A3 Hs) as (A4 & A5). destruct (B3 A4) as (B4 & B5).
  split; [exact B4|]. intros k o E. apply B5, A5, E.
Qed.

Lemma grows_by_more (n m : N) (s s' : GlobalMap) :
  (n <= m)%N -> grows_by n s s' -> grows_by m s s'.
Proof.
  intros Hle (A1 & A2 & A3). split; [exact A1|]. split; [lia|exact A3].
Qed.

Lemma vertexLUT_at_grows (v : vertex) (s : GlobalMap) :
  grows_by 0 s (snd (vertexLUT_at v s)).
Proof.
  destruct (vertexLUT_at_settings v s) as (_ & V2 & V3).
  split; [exact V3|]. split; [rewrite V2; lia|].
  intros Hs. split.
  - rewrite vertexLUT_at_run. cbn [snd].
    destruct (lut_find v (vertexLUT_ s)); [exact Hs|].
    cbn [vertexLUT_ set_vertexLUT]. now apply lut_insert_ok.
  - intros k o E. rewrite vertexLUT_at_find, E. reflexivity.
Qed.

Lemma set_graph_grows (g : Graph) (s : GlobalMap) : grows_by 0 s (set_graph g s).
Proof.
  split; [unfold same_settings; cbn; auto|]. split; [cbn; lia|].
  intros Hs. split; [exact Hs|]. intros k o E. exact E.
Qed.

Lemma findOrAdd_grows (p : TGlobalOrd) (s : GlobalMap) :
  grows_by 1 s (snd (findOrAdd p s)).
Proof.
  unfold findOrAdd. destruct (existsAsVertex p s).
  - cbn [snd]. apply (grows_by_more (n := 0)); [lia|apply grows_by_refl].
  - rewrite !bind_run. unfold nextVertexId, modify, ret. cbn [fst snd].
    split; [unfold same_settings; cbn; auto|]. split; [cbn; lia|].
    cbn [vertexLUT_ set_vertexLUT set_graph set_nextVertexId].
    intros Hs. split; [now apply lut_insert_ok|].
    intros k o E. cbn [vertexLUT_ set_vertexLUT]. now apply lut_insert_keeps.
Qed.

Lemma for_each_grows {A} (body : A -> St GlobalMap unit) (l : list A) :
  (forall a s, grows_by 0 s (snd (body a s))) ->
  forall s, grows_by 0 s (snd (for_each l body s)).
Proof.
  intros Hbody. induction l as [|a l IH]; intros s; cbn [for_each].
  - apply grows_by_refl.
  - rewrite bind_run. apply (grows_by_trans (n := 0) (m := 0) (Hbody a s)), IH.
Qed.

Lemma connectToExistingNodes_grows (m : Mat) (node : vertex) (s : GlobalMap) :
  grows_by 0 s (snd (connectToExistingNodes m node s)).
Proof.
  unfold connectToExistingNodes, pointOf.
  rewrite !bind_run. unfold get, gets, ret. cbn [fst snd].
  apply (grows_by_trans (n := 0) (m := 0) (vertexLUT_at_grows node s)).
  apply for_each_grows. intros vert s'.
  destruct (fst vert =? node)%N; [apply grows_by_refl|].
  rewrite bind_run. unfold get. cbn [fst snd].
  destruct (canConnect _ _ _ _); [|apply grows_by_refl].
  rewrite bind_run. unfold modify. cbn [fst snd].
  apply (grows_by_trans (n := 0) (m := 0) (vertexLUT_at_grows node s')).
  apply set_graph_grows.
Qed.

Lemma convertPath_grows (vPath : list vertex) :
  forall s : GlobalMap, grows_by 0 s (snd (convertPath vPath s)).
Proof.
  induction vPath as [|v vPath IH]; intros s; cbn [convertPath].
  - apply grows_by_refl.
  - rewrite !bind_run. unfold ret. cbn [fst snd].
    apply (grows_by_trans (n := 0) (m := 0) (vertexLUT_at_grows v s)), IH.
Qed.

Lemma sample_once_grows (draw : double * double) (vS vG : vertex) (b : BuildState) :
  grows_by 1 (self b) (self (snd (sample_once draw vS vG b))).
Proof.
  pose proof (sample_once_self draw vS vG b) as E. cbv zeta in E. rewrite E.
  destruct (isAccessible _ _ _).
  - set (found := findOrAdd _ (self b)).
    set (s2 := snd (connectToExistingNodes (mat b) (fst found) (snd found))).
    assert (H2 : grows_by 1 (self b) s2).
    { apply (@grows_by_trans 1 0 (self b) (snd found) s2);
        [apply findOrAdd_grows|apply connectToExistingNodes_grows]. }
    destruct (0 <? length _)%nat; [|exact H2].
    apply (grows_by_trans (n := 1) (m := 0) H2), convertPath_grows.
  - apply (grows_by_more (n := 0)); [lia|apply grows_by_refl].
Qed.

(** From a safety counter below 1000 the sampling loop hands out no more
    ids than it has passes left before the counter reaches 1000. *)
Lemma sampling_loop_grows (rnd : Z -> double * double) (vS vG : vertex) (fuel : nat) :
  forall (cnt : Z) (b : BuildState),
    (0 <= cnt <= 999)%Z ->
    grows_by (Z.to_N (999 - cnt)) (self b)
             (self (snd (sampling_loop fuel rnd vS vG cnt b))).
Proof.
  induction fuel as [|fuel IH]; intros cnt b Hc.
  - cbn. apply (grows_by_more (n := 0)); [lia|apply grows_by_refl].
  - rewrite sampling_loop_S. cbv zeta.
    assert (Hmod : ((cnt + 1) mod 2 ^ 32 = cnt + 1)%Z) by (apply Z.mod_small; lia).
    rewrite Hmod.
    set (b1 := mkBuildState (self b) (mat b) (trace b ++ [Iteration (cnt + 1)])).
    destruct (Z.eqb_spec (cnt + 1) 1000).
    + cbn [snd self]. apply (grows_by_more (n := 0)); [lia|apply grows_by_refl].
    + pose proof (sample_once_grows (rnd (cnt + 1)%Z) vS vG b1) as H1.
      change (self b1) with (self b) in H1.
      destruct (fst (sample_once (rnd (cnt + 1)%Z) vS vG b1)).
      * cbn [snd]. apply (grows_by_more (n := 1)); [lia|exact H1].
      * apply (grows_by_more (n := 1 + Z.to_N (999 - (cnt + 1)))); [lia|].
        apply (grows_by_trans H1). apply IH. lia.
Qed.

Lemma build_search_grows (fuel : nat) (rnd : Z -> double * double)
  (vS vG : vertex) (b : BuildState) :
  grows_by 999 (self b) (self (snd (build_search fuel rnd vS vG b))).
Proof.
  rewrite build_search_eq. cbv zeta.
  rewrite call_shortestPath_run. cbn [snd].
  destruct (0 <? length (shortestPath vS vG (graph_ (self b))))%nat.
  - rewrite liftG_run. cbn [snd self].
    apply (grows_by_more (n := 0)); [lia|apply convertPath_grows].
  - rewrite !call_connectToExistingNodes_run. cbn [snd self mat].
    set (s2 := snd (connectToExistingNodes (mat b) vG
                      (snd (connectToExistingNodes (mat b) vS (self b))))).
    assert (H2 : grows_by 0 (self b) s2).
    { apply (grows_by_trans (n := 0) (m := 0)
               (connectToExistingNodes_grows (mat b) vS (self b))).
      apply connectToExistingNodes_grows. }
    rewrite call_shortestPath_run. cbn [snd self].
    destruct (0 <? length (shortestPath vS vG (graph_ s2)))%nat.
    + rewrite liftG_run. cbn [snd self].
      apply (grows_by_more (n := 0)); [lia|].
      apply (grows_by_trans (n := 0) (m := 0) H2), convertPath_grows.
    + apply (grows_by_trans (n := 0) (m := 999) H2).
      match goal with
      | |- grows_by _ _ (self (snd (sampling_loop _ _ _ _ _ ?b3))) =>
          apply (sampling_loop_grows rnd vS vG fuel (cnt := 0) b3)
      end. lia.
Qed.

Lemma build_setup_grows (v1 v2 : vertex) (start goal : TGlobalOrd) (b : BuildState) :
  grows_by 2 (self b) (self (snd (build_setup v1 v2 start goal b))).
Proof.
  rewrite build_setup_eq. cbv zeta.
  destruct (negb _ || negb _).
  - destruct (isAccessible _ _ _); [destruct (isAccessible _ _ _)|]; cbn [snd self].
    + apply (grows_by_trans (n := 1) (m := 1) (findOrAdd_grows start (self b))).
      apply findOrAdd_grows.
    + apply (grows_by_more (n := 0)); [lia|apply grows_by_refl].
    + apply (grows_by_more (n := 0)); [lia|apply grows_by_refl].
  - cbn [snd]. apply (grows_by_more (n := 0)); [lia|apply grows_by_refl].
Qed.

(** A call of [build], from the object it is called on to the object it
    leaves. *)
Lemma run_build_grows (fuel : nat) (rnd : Z -> double * double) (v1 v2 : vertex)
  (m : Mat) (start goal : TGlobalOrd) (s : GlobalMap) :
  grows_by 1001 s (self (snd (run_build fuel rnd v1 v2 m start goal s))).
Proof.
  rewrite run_build_eq. cbv zeta.
  set (b0 := mkBuildState s _ []).
  pose proof (build_setup_grows v1 v2 start goal b0) as H1.
  change (self b0) with s in H1.
  destruct (fst (build_setup v1 v2 start goal b0)) as [[vS vG]|].
  - apply (grows_by_trans (n := 2) (m := 999) H1), build_search_grows.
  - cbn [snd]. apply (grows_by_more (n := 2)); [lia|exact H1].
Qed.

(** What [build] leaves in the image it got by reference. *)
Lemma run_build_mat (fuel : nat) (rnd : Z -> double * double) (v1 v2 : vertex)
  (m : Mat) (start goal : TGlobalOrd) (s : GlobalMap) :
  mat (snd (run_build fuel rnd v1 v2 m start goal s))
  = expandConfigSpace (lmap_ s) m (robotDiameter_ s).
Proof.
  rewrite run_build_eq. cbv zeta.
  set (b0 := mkBuildState s _ []).
  assert (H0 : mat (snd (build_setup v1 v2 start goal b0)) = mat b0).
  { rewrite build_setup_eq. cbv zeta.
    repeat match goal with |- context [if ?c then _ else _] => destruct c end;
      reflexivity. }
  destruct (fst (build_setup v1 v2 start goal b0)) as [[vS vG]|].
  - destruct (build_search_trace fuel rnd vS vG (snd (build_setup v1 v2 start goal b0)))
      as (evs & _ & _ & Hm & _).
    cbv zeta in Hm. rewrite Hm, H0. reflexivity.
  - cbn [snd]. rewrite H0. reflexivity.
Qed.

Lemma existsAsVertex_kept (p : TGlobalOrd) (s s' : GlobalMap) :
  map_ok (vertexLUT_ s) -> entries_kept s s' ->
  existsAsVertex p s = true -> existsAsVertex p s' = true.
Proof.
  unfold existsAsVertex. intros Hs Hk E.
  apply existsb_exists in E. destruct E as ([k o] & Hin & Ho).
  apply existsb_exists. exists (k, o). split; [|exact Ho].
  apply lut_find_is_In, Hk. now apply lut_find_of_In.
Qed.

(** After [findOrAdd(p)], [p] is the ordinate of a vertex, when [p] equals
    itself and the ids of the table are below the next one; and the ids
    still are. *)
Lemma findOrAdd_exists (p : TGlobalOrd) (s : GlobalMap) :
  ids_below_next s ->
  ids_below_next (snd (findOrAdd p s))
  /\ (same_ord p p = true -> existsAsVertex p (snd (findOrAdd p s)) = true).
Proof.
  intros Hb. pose proof (findOrAdd_call p Hb) as C.
  unfold findOrAdd_contract in C. cbn [pre arg result post] in C.
  destruct (existsAsVertex p s) eqn:E.
  - destruct C as [-> _]. auto.
  - destruct C as (Cv & _ & Cl & _ & Cn & _). split.
    + unfold ids_below_next. rewrite Cl, Cn, Cv. unfold keys. rewrite map_app.
      apply Forall_app. split.
      * eapply Forall_impl; [|exact Hb]. cbn. intros; lia.
      * cbn. constructor; [lia|constructor].
    + intros Hp. unfold existsAsVertex. rewrite Cl, existsb_app. cbn [existsb snd].
      rewrite Hp. now rewrite !orb_true_r.
Qed.

(** The sampling loop reads no draw but those of the passes 1 to 999. *)
Lemma sampling_loop_draws (rnd rnd' : Z -> double * double) (vS vG : vertex)
  (fuel : nat) :
  (forall n, (1 <= n <= 999)%Z -> rnd n = rnd' n) ->
  forall (cnt : Z) (b : BuildState),
    (0 <= cnt <= 999)%Z ->
    sampling_loop fuel rnd vS vG cnt b = sampling_loop fuel rnd' vS vG cnt b.
Proof.
  intros Hr. induction fuel as [|fuel IH]; intros cnt b Hc; [reflexivity|].
  rewrite !sampling_loop_S. cbv zeta.
  assert (Hmod : ((cnt + 1) mod 2 ^ 32 = cnt + 1)%Z) by (apply Z.mod_small; lia).
  rewrite Hmod.
  destruct (Z.eqb_spec (cnt + 1) 1000); [reflexivity|].
  rewrite <- (Hr (cnt + 1)%Z) by lia.
  destruct (fst (sample_once _ vS vG _)); [reflexivity|].
  apply IH. lia.
Qed.

End GrowthFacts.

Section BuildProperties.
Context `{D : Double} `{G : !GraphOps} `{L : !LocalMapOps}.

(** X10. Whatever it returns, a call of [build] leaves the image it got by
    reference dilated once, leaves the map object, the reference, the map
    size and the robot diameter as they were, and hands out at most 1001
    vertex ids: two for the ends and one for each of the at most 999
    samples. *)
Theorem build_dilates_once_and_hands_out_at_most_1001_ids
  (fuel : nat) (rnd : Z -> double * double) (vStart0 vGoal0 : vertex)
  (m : Mat) (start goal : TGlobalOrd) (s : GlobalMap) :
  let b := snd (run_build fuel rnd vStart0 vGoal0 m start goal s) in
  mat b = expandConfigSpace (lmap_ s) m (robotDiameter_ s)
  /\ same_settings s (self b)
  /\ (nextVertexId_ s <= nextVertexId_ (self b) <= nextVertexId_ s + 1001)%N.
Proof.
  cbv zeta. split; [apply run_build_mat|].
  destruct (run_build_grows fuel rnd vStart0 vGoal0 m start goal s) as (H1 & H2 & _).
  auto.
Qed.

(** X11. A call of [build] on a table whose keys are in order leaves them in
    order and keeps every entry: no vertex is removed and no ordinate
    changed, so an ordinate that was a vertex before the call is one after
    it. *)
Theorem build_keeps_every_vertex
  (fuel : nat) (rnd : Z -> double * double) (vStart0 vGoal0 : vertex)
  (m : Mat) (start goal : TGlobalOrd) (s : GlobalMap) :
  map_ok (vertexLUT_ s) ->
  let s' := self (snd (run_build fuel rnd vStart0 vGoal0 m start goal s)) in
  map_ok (vertexLUT_ s')
  /\ entries_kept s s'
  /\ forall p, existsAsVertex p s = true -> existsAsVertex p s' = true.
Proof.
  intros Hs. cbv zeta.
  destruct (run_build_grows fuel rnd vStart0 vGoal0 m start goal s) as (_ & _ & H3).
  destruct (H3 Hs) as (H4 & H5).
  split; [exact H4|]. split; [exact H5|].
  intros p. now apply existsAsVertex_kept.
Qed.

(** X12. [build] reads the draws of the passes 1 to 999 of its sampling loop
    and no other: two sources of draws that agree on these give the same
    result and leave the same state. *)
Theorem build_reads_the_draws_1_to_999
  (fuel : nat) (rnd rnd' : Z -> double * double) (vStart0 vGoal0 : vertex)
  (m : Mat) (start goal : TGlobalOrd) (s : GlobalMap) :
  (forall n, (1 <= n <= 999)%Z -> rnd n = rnd' n) ->
  run_build fuel rnd vStart0 vGoal0 m start goal s
  = run_build fuel rnd' vStart0 vGoal0 m start goal s.
Proof.
  intros Hr. rewrite !run_build_eq. cbv zeta.
  destruct (fst (build_setup _ _ _ _ _)) as [[vS vG]|]; [|reflexivity].
  rewrite !build_search_eq. cbv zeta.
  destruct (0 <? length _)%nat; [reflexivity|].
  destruct (0 <? length _)%nat; [reflexivity|].
  apply sampling_loop_draws; [exact Hr|lia].
Qed.

(** X13. When [build] finds both ends accessible, they are vertices of the
    roadmap when it returns (ordinates that equal themselves, on a table
    whose keys are in order and below the next id). From then on a call
    of [build] with the same ends, on whatever image, skips the set-up:
    its first call is a shortest-path query. *)
Theorem build_makes_its_ends_vertices_for_good
  (fuel : nat) (rnd : Z -> double * double) (vStart0 vGoal0 : vertex)
  (m : Mat) (start goal : TGlobalOrd) (s : GlobalMap) :
  map_ok (vertexLUT_ s) ->
  ids_below_next s ->
  same_ord start start = true ->
  same_ord goal goal = true ->
  let m' := expandConfigSpace (lmap_ s) m (robotDiameter_ s) in
  isAccessible (lmap_ s) m' (convertToPoint (lmap_ s) (reference_ s) start) = true ->
  isAccessible (lmap_ s) m' (convertToPoint (lmap_ s) (reference_ s) goal) = true ->
  let s' := self (snd (run_build fuel rnd vStart0 vGoal0 m start goal s)) in
  existsAsVertex start s' = true
  /\ existsAsVertex goal s' = true
  /\ forall fuel2 rnd2 v1 v2 m2,
       exists vS vG r rest,
         trace (snd (run_build fuel2 rnd2 v1 v2 m2 start goal s'))
         = ShortestPath vS vG r :: rest.
Proof.
  intros Hs Hb Hss Hgg m' Hst Hgo s'.
  assert (Hends : existsAsVertex start s' = true /\ existsAsVertex goal s' = true).
  { subst s'. rewrite run_build_eq. cbv zeta. fold m'.
    set (b0 := mkBuildState s m' []).
    assert (Hset : exists vS vG b1,
               build_setup vStart0 vGoal0 start goal b0 = (Some (vS, vG), b1)
               /\ map_ok (vertexLUT_ (self b1))
               /\ existsAsVertex start (self b1) = true
               /\ existsAsVertex goal (self b1) = true).
    { rewrite build_setup_eq. cbv zeta. cbn [self mat b0]. rewrite Hst, Hgo.
      destruct (negb (existsAsVertex start s) || negb (existsAsVertex goal s)) eqn:Eg.
      - do 3 eexists. split; [reflexivity|]. cbn [self].
        destruct (findOrAdd_grows start s) as (_ & _ & K1).
        destruct (K1 Hs) as (Hs1 & Hk1).
        destruct (findOrAdd_grows goal (snd (findOrAdd start s))) as (_ & _ & K2).
        destruct (K2 Hs1) as (Hs2 & Hk2).
        destruct (findOrAdd_exists start Hb) as (Hb1 & He1).
        destruct (findOrAdd_exists goal Hb1) as (_ & He2).
        split; [exact Hs2|]. split; [|auto].
        eapply existsAsVertex_kept; [exact Hs1|exact Hk2|auto].
      - apply orb_false_iff in Eg. destruct Eg as [E1 E2].
        apply negb_false_iff in E1, E2.
        do 3 eexists. split; [reflexivity|]. cbn [self b0]. auto. }
    destruct Hset as (vS & vG & b1 & -> & Hs1 & He1 & He2). cbn [fst snd].
    destruct (build_search_grows fuel rnd vS vG b1) as (_ & _ & K).
    destruct (K Hs1) as (_ & Hk).
    split; eapply existsAsVertex_kept; eauto. }
  destruct Hends as [He1 He2]. split; [exact He1|]. split; [exact He2|].
  intros fuel2 rnd2 v1 v2 m2.
  rewrite run_build_eq. cbv zeta. rewrite build_setup_eq. cbv zeta.
  cbn [self mat]. rewrite He1, He2. cbn [negb orb fst snd].
  match goal with
  | |- context [build_search fuel2 rnd2 v1 v2 ?b] =>
      destruct (build_search_trace fuel2 rnd2 v1 v2 b) as (evs & E1 & _)
  end.
  cbv zeta in E1. rewrite E1. cbn [trace app]. eauto.
Qed.

End BuildProperties.

(* ================================================================== *)
(** * What a pass of the planner loop leaves *)
Section PassFacts.
Context `{D : Double} `{G : !GraphOps} `{L : !LocalMapOps}.

Lemma dilated_S (n : nat) (s : GlobalMap) (m : Mat) :
  dilated (S n) s m = expandConfigSpace (lmap_ s) (dilated n s m) (robotDiameter_ s).
Proof. reflexivity. Qed.

Lemma dilated_same_settings (n : nat) (s s' : GlobalMap) (m : Mat) :
  same_settings s s' -> dilated n s' m = dilated n s m.
Proof.
  intros (E1 & _ & _ & E4). unfold dilated. now rewrite E1, E4.
Qed.

(** A call of [gmap_.build] from the planner loop: what it returns and
    what it leaves in the roadmap and in [ogMap]. *)
Lemma call_build_run (orc : BuildOracle) (robotOrd : TGlobalOrd) (p : PlannerState) :
  exists path g,
    call_build orc robotOrd p
    = (Some path,
       mkPlannerState g (currentGoal_ p) (GoalRecieved p) (buffer_ p)
         (dilated 1 (gmap_ p) (ogMap p))
         (robotPos p) (published p)
         (builds p ++ [mkBuildCall robotOrd (currentGoal_ p) path]))
    /\ grows_by 1001 (gmap_ p) g.
Proof.
  unfold call_build. rewrite bind_run. unfold get. cbn [fst snd].
  destruct (run_build_ends 0 (rnd orc) (vStart0 orc) (vGoal0 orc) (ogMap p)
              robotOrd (currentGoal_ p) (gmap_ p)) as (path & P1 & _).
  cbv zeta in P1. change (1000 + 0)%nat with build_fuel in P1.
  pose proof (run_build_mat build_fuel (rnd orc) (vStart0 orc) (vGoal0 orc) (ogMap p)
                robotOrd (currentGoal_ p) (gmap_ p)) as Hm.
  pose proof (run_build_grows build_fuel (rnd orc) (vStart0 orc) (vGoal0 orc) (ogMap p)
                robotOrd (currentGoal_ p) (gmap_ p)) as Hg.
  destruct (run_build build_fuel (rnd orc) (vStart0 orc) (vGoal0 orc) (ogMap p)
              robotOrd (currentGoal_ p) (gmap_ p)) as [r b].
  cbn [fst snd] in *. subst r.
  exists path, (self b). split; [|exact Hg].
  rewrite !bind_run. unfold modify, ret. cbn [fst snd]. rewrite Hm. reflexivity.
Qed.

(** Lines 119-129: the calls of [build] of a pass, from the state [p]
    the pass is in when it makes the first. *)
Lemma build_calls_run (k : nat) (orc : Z -> BuildOracle) (robotOrd : TGlobalOrd)
  (p : PlannerState) :
  exists path g calls,
    (first <- call_build (orc 1%Z) robotOrd ;;
     match first with
     | None => ret None
     | Some path => retry_loop (2 + k) orc robotOrd 1 path
     end) p
    = (Some path,
       mkPlannerState g (currentGoal_ p) (GoalRecieved p) (buffer_ p)
         (dilated (length calls) (gmap_ p) (ogMap p))
         (robotPos p) (published p) (builds p ++ calls))
    /\ grows_by 3003 (gmap_ p) g
    /\ (1 <= length calls <= 3)%nat
    /\ last (map call_result calls) [] = path.
Proof.
  rewrite bind_run.
  destruct (call_build_run (orc 1%Z) robotOrd p) as (path1 & g1 & E1 & G1).
  rewrite E1. cbn [fst snd].
  set (p1 := mkPlannerState g1 _ _ _ _ _ _ _).
  change (2 + k)%nat with (S (S k)). cbn [retry_loop].
  destruct path1 as [|o1 path1]; cbn [length Nat.eqb].
  2:{ exists (o1 :: path1), g1, [mkBuildCall robotOrd (currentGoal_ p) (o1 :: path1)].
      split; [reflexivity|]. split; [|split; [cbn; lia|reflexivity]].
      apply (grows_by_more (n := 1001)); [lia|exact G1]. }
  rewrite bind_run.
  destruct (call_build_run (orc (1 + 1)%Z) robotOrd p1) as (path2 & g2 & E2 & G2).
  rewrite E2. cbn [fst snd]. change (1 + 1 >? 2)%Z with false. cbv iota.
  subst p1. cbn [gmap_ ogMap currentGoal_ GoalRecieved buffer_ robotPos published builds] in *.
  assert (G12 : grows_by 2002 (gmap_ p) g2)
    by (apply (grows_by_trans (n := 1001) (m := 1001) G1 G2)).
  assert (M2 : dilated 1 g1 (dilated 1 (gmap_ p) (ogMap p)) = dilated 2 (gmap_ p) (ogMap p)).
  { destruct G1 as (S1 & _). rewrite (dilated_same_settings 1 _ S1). reflexivity. }
  rewrite M2 in *.
  set (p2 := mkPlannerState g2 _ _ _ _ _ _ _).
  destruct path2 as [|o2 path2].
  2:{ exists (o2 :: path2), g2,
        [mkBuildCall robotOrd (currentGoal_ p) [];
         mkBuildCall robotOrd (currentGoal_ p) (o2 :: path2)].
      split.
      { destruct k; cbn [retry_loop length Nat.eqb]; unfold ret; subst p2;
          rewrite <- app_assoc; reflexivity. }
      split; [|split; [cbn; lia|reflexivity]].
      apply (grows_by_more (n := 2002)); [lia|exact G12]. }
  destruct (call_build_run (orc (1 + 1 + 1)%Z) robotOrd p2) as (path3 & g3 & E3 & G3).
  subst p2. cbn [gmap_ ogMap currentGoal_ GoalRecieved buffer_ robotPos published builds] in *.
  assert (M3 : dilated 1 g2 (dilated 2 (gmap_ p) (ogMap p)) = dilated 3 (gmap_ p) (ogMap p)).
  { destruct G12 as (S2 & _). rewrite (dilated_same_settings 1 _ S2). reflexivity. }
  rewrite M3 in E3.
  exists path3, g3,
    [mkBuildCall robotOrd (currentGoal_ p) [];
     mkBuildCall robotOrd (currentGoal_ p) [];
     mkBuildCall robotOrd (currentGoal_ p) path3].
  split.
  { destruct k; cbn [retry_loop length Nat.eqb]; rewrite bind_run, E3;
      cbn [fst snd]; change (1 + 1 + 1 >? 2)%Z with true; cbv iota;
      unfold ret; rewrite <- !app_assoc; reflexivity. }
  split; [|split; [cbn; lia|reflexivity]].
  apply (grows_by_trans (n := 2002) (m := 1001) G12 G3).
Qed.

(** Lines 87-151: the state a pass of the planner loop leaves. *)
Lemma planning_cycle_run (k : nat) (orc : Z -> BuildOracle) (p : PlannerState) :
  let robotOrd := mkOrd (geometry_msgs.x (geometry_msgs.position (latest_pose p)))
                        (geometry_msgs.y (geometry_msgs.position (latest_pose p))) in
  let rest := mkBuffer (tl (ogMapDeq (buffer_ p))) (tl (poseDeq (buffer_ p))) in
  if mat_empty (latest_map p) then
    snd (planning_cycle (2 + k) orc p)
    = mkPlannerState (setReference robotOrd (gmap_ p)) (currentGoal_ p) false rest
        (latest_map p) (latest_pose p) (published p) (builds p)
  else
    exists path g calls,
      let shown := showOverlay (cvtColor (latest_map p)) path g in
      snd (planning_cycle (2 + k) orc p)
      = mkPlannerState (snd shown) (currentGoal_ p) false rest
          (dilated (length calls) (gmap_ p) (latest_map p)) (latest_pose p)
          (published p ++ OverlayMsg (fst shown)
             :: (if (0 <? length path)%nat
                 then [PathMsg (posePath path (latest_pose p))] else []))
          (builds p ++ calls)
      /\ grows_by 3003 (setReference robotOrd (gmap_ p)) g
      /\ (1 <= length calls <= 3)%nat
      /\ last (map call_result calls) [] = path.
Proof.
  cbv zeta. unfold planning_cycle. rewrite bind_run, cycle_begin_eq. cbv zeta.
  cbn [fst snd].
  destruct (mat_empty (latest_map p)); [reflexivity|].
  set (robotOrd := mkOrd _ _).
  set (p1 := mkPlannerState _ _ _ _ _ _ _ _).
  destruct (build_calls_run k orc robotOrd p1) as (path & g & calls & E & Hg & Hn & Hl).
  rewrite bind_run in E. rewrite bind_run.
  destruct (call_build (orc 1%Z) robotOrd p1) as [[path1|] p2] eqn:E1;
    cbn [fst snd] in E |- *; [|discriminate E].
  rewrite bind_run, E. cbn [fst snd]. rewrite bind_run. unfold ret. cbn [fst snd].
  exists path, g, calls.
  rewrite cycle_finish_eq. cbv zeta. subst p1.
  cbn [gmap_ currentGoal_ GoalRecieved buffer_ ogMap robotPos published builds] in *.
  split; [reflexivity|]. auto.
Qed.

(** What a pass leaves in [ogMap]. *)
Lemma planning_cycle_ogMap (k : nat) (orc : Z -> BuildOracle) (p : PlannerState) :
  ogMap (snd (planning_cycle (2 + k) orc p))
  = dilated (length (built_by p (snd (planning_cycle (2 + k) orc p))))
      (gmap_ p) (latest_map p).
Proof.
  pose proof (planning_cycle_run k orc p) as H. cbv zeta in H.
  unfold built_by.
  destruct (mat_empty (latest_map p)).
  - rewrite H. cbn [ogMap builds]. now rewrite skipn_all.
  - destruct H as (path & g & calls & -> & _).
    cbn [ogMap builds]. now rewrite skipn_length_app.
Qed.

Lemma dilated_add (a b : nat) (s : GlobalMap) (m : Mat) :
  dilated (a + b) s m = dilated b s (dilated a s m).
Proof.
  induction b as [|b IH].
  - now rewrite Nat.add_0_r.
  - rewrite Nat.add_succ_r, !dilated_S, IH. reflexivity.
Qed.

End PassFacts.

Section PassProperties.
Context `{D : Double} `{G : !GraphOps} `{L : !LocalMapOps}.

(** X14. A pass of the planner loop takes the front of each queue, when there
    is one, and nothing more; it leaves the pose it worked with in
    [robotPos], the flag [GoalRecieved] down, the goal as it found it, and
    the reference of the roadmap at the x and y of that pose. *)
Theorem pass_takes_the_front_of_each_queue
  (k : nat) (orc : Z -> BuildOracle) (p : PlannerState) :
  let p' := snd (planning_cycle (2 + k) orc p) in
  buffer_ p' = mkBuffer (tl (ogMapDeq (buffer_ p))) (tl (poseDeq (buffer_ p)))
  /\ robotPos p' = latest_pose p
  /\ GoalRecieved p' = false
  /\ currentGoal_ p' = currentGoal_ p
  /\ reference_ (gmap_ p')
     = mkOrd (geometry_msgs.x (geometry_msgs.position (latest_pose p)))
             (geometry_msgs.y (geometry_msgs.position (latest_pose p))).
Proof.
  cbv zeta. pose proof (planning_cycle_run k orc p) as H. cbv zeta in H.
  destruct (mat_empty (latest_map p)).
  - rewrite H. cbn. auto.
  - destruct H as (path & g & calls & -> & Hg & _).
    cbn [buffer_ robotPos GoalRecieved currentGoal_ gmap_].
    repeat split.
    rewrite showOverlay_run. cbn [snd].
    destruct (constructPRM_adds_defaults_only g) as (_ & _ & (_ & -> & _) & _).
    destruct Hg as ((_ & -> & _) & _). reflexivity.
Qed.

(** X15. A pass of the planner loop leaves in [ogMap] the map it took from the
    queue (or still held), dilated once for every call of [build] it
    made: [build] dilates the image it is given, and every call of the
    pass is given the same one. *)
Theorem pass_dilates_the_map_once_for_each_build
  (k : nat) (orc : Z -> BuildOracle) (p : PlannerState) :
  let p' := snd (planning_cycle (2 + k) orc p) in
  ogMap p' = dilated (length (built_by p p')) (gmap_ p) (latest_map p).
Proof.
  cbv zeta. pose proof (planning_cycle_run k orc p) as H. cbv zeta in H.
  unfold built_by.
  destruct (mat_empty (latest_map p)).
  - rewrite H. cbn [ogMap builds]. now rewrite skipn_all.
  - destruct H as (path & g & calls & -> & _).
    cbn [ogMap builds]. now rewrite skipn_length_app.
Qed.

(** X17. In a pass whose map is not empty, the overlay that is published
    is [showOverlay] of the colour copy of the map the pass works with,
    made before any call of [build] of the pass dilates it. That map is
    the front of the queue when there is one; when the queue is empty it
    is the [ogMap] the pass before left, with the dilations of the calls
    of [build] of that pass. The overlay is drawn with the path the last
    call returned and the roadmap the calls of [build] left. *)
Theorem overlay_is_drawn_before_the_pass_dilates
  (k : nat) (orc : Z -> BuildOracle) (p : PlannerState) :
  mat_empty (latest_map p) = false ->
  let p' := snd (planning_cycle (2 + k) orc p) in
  let path := last (map call_result (built_by p p')) [] in
  let worked_with := match ogMapDeq (buffer_ p) with
                     | [] => ogMap p
                     | front :: _ => front
                     end in
  exists g,
    hd_error (published_by p p')
    = Some (OverlayMsg (fst (showOverlay (cvtColor worked_with) path g)))
    /\ gmap_ p' = snd (showOverlay (cvtColor worked_with) path g)
    /\ ogMap p' = dilated (length (built_by p p')) (gmap_ p) worked_with
    /\ grows_by 3003
         (setReference
            (mkOrd (geometry_msgs.x (geometry_msgs.position (latest_pose p)))
                   (geometry_msgs.y (geometry_msgs.position (latest_pose p))))
            (gmap_ p)) g.
Proof.
  intros He. cbv zeta. pose proof (planning_cycle_run k orc p) as H. cbv zeta in H.
  rewrite He in H. destruct H as (path & g & calls & -> & Hg & _ & Hl).
  unfold built_by, published_by. cbn [published builds gmap_ ogMap].
  change (match ogMapDeq (buffer_ p) with [] => ogMap p | front :: _ => front end)
    with (latest_map p).
  rewrite !skipn_length_app, Hl. exists g. cbn [hd_error]. auto.
Qed.

(** X18. With no request served in between, every call of [build] of a pass
    gets the same two ordinates: the x and y of the pose the pass works
    with as the start, and the goal the pass found in [currentGoal_]. *)
Theorem builds_of_a_pass_have_the_same_ends
  (k : nat) (orc : Z -> BuildOracle) (p : PlannerState) :
  let p' := snd (planning_cycle (2 + k) orc p) in
  Forall (fun c =>
            call_start c
            = mkOrd (geometry_msgs.x (geometry_msgs.position (latest_pose p)))
                    (geometry_msgs.y (geometry_msgs.position (latest_pose p)))
            /\ call_goal c = currentGoal_ p)
         (built_by p p').
Proof.
  cbv zeta. destruct (planning_cycle_spec k orc p) as (_ & H).
  unfold pass_outcome, built_by in *.
  destruct (mat_empty (latest_map p)).
  - destruct H as (_ & ->). rewrite skipn_all. constructor.
  - destruct H as (front & c & img & -> & _ & _ & _ & Hf & _).
    rewrite skipn_length_app. exact Hf.
Qed.

(** X16. When no new map has come in, the next pass of the planner loop works
    on the map the pass before left in [ogMap], dilated already, and
    dilates it again with every call of [build]. *)
Theorem map_that_is_not_renewed_is_dilated_again
  (k : nat) (orc orc' : Z -> BuildOracle) (p : PlannerState) :
  (length (ogMapDeq (buffer_ p)) <= 1)%nat ->
  let p' := snd (planning_cycle (2 + k) orc p) in
  let p'' := snd (planning_cycle (2 + k) orc' p') in
  latest_map p' = dilated (length (built_by p p')) (gmap_ p) (latest_map p)
  /\ ogMap p''
     = dilated (length (built_by p p') + length (built_by p' p''))
         (gmap_ p) (latest_map p).
Proof.
  intros Hq p' p''.
  pose proof (planning_cycle_ogMap k orc p) as H1.
  pose proof (planning_cycle_ogMap k orc' p') as H2.
  fold p' in H1, H2. fold p'' in H2.
  pose proof (planning_cycle_run k orc p) as Hr. cbv zeta in Hr. fold p' in Hr.
  assert (Hbuf : ogMapDeq (buffer_ p') = []
                 /\ lmap_ (gmap_ p') = lmap_ (gmap_ p)
                 /\ robotDiameter_ (gmap_ p') = robotDiameter_ (gmap_ p)).
  { destruct (mat_empty (latest_map p)).
    - rewrite Hr. cbn. split; [|auto].
      destruct (ogMapDeq (buffer_ p)) as [|m0 [|m1 q]]; cbn in *; auto; lia.
    - destruct Hr as (path & g & calls & -> & Hg & _).
      cbn [buffer_ ogMapDeq gmap_]. split.
      + destruct (ogMapDeq (buffer_ p)) as [|m0 [|m1 q]]; cbn in *; auto; lia.
      + rewrite showOverlay_run. cbn [snd].
        destruct (constructPRM_adds_defaults_only g) as (_ & _ & (-> & _ & _ & ->) & _).
        destruct Hg as ((-> & _ & _ & ->) & _). auto. }
  destruct Hbuf as (Hb & Hl & Hd).
  assert (Hlm : latest_map p' = ogMap p') by (unfold latest_map; now rewrite Hb).
  split; [now rewrite Hlm|].
  rewrite H2, Hlm, H1, dilated_add. unfold dilated. now rewrite Hl, Hd.
Qed.

End PassProperties.

(* ================================================================== *)
(** * Requests and passes *)
Section ServiceFacts.
Context `{D : Double} `{G : !GraphOps} `{L : !LocalMapOps}.

Lemma run_app (orc : Z -> BuildOracle) (l1 l2 : list thread) (t : Threads) :
  run orc (l1 ++ l2) t
  = match run orc l1 t with Some t' => run orc l2 t' | None => None end.
Proof.
  revert t. induction l1 as [|th l1 IH]; intros t; cbn [app run]; [reflexivity|].
  destruct th; [destruct (planner_step orc t)|destruct (handler_step t)]; auto.
Qed.

Lemma serve_S (n : nat) :
  serve (S n) = service_thread :: service_thread :: service_thread :: serve n.
Proof.
  unfold serve. replace (3 * S n)%nat with (3 + 3 * n)%nat by lia. reflexivity.
Qed.

(** [requestGoal], run on a state. *)
Lemma requestGoal_run (req : Request) (p : PlannerState) :
  requestGoal req p
  = (mkResponse true, true,
     mkPlannerState (gmap_ p) (requested req) true (buffer_ p) (ogMap p)
       (robotPos p) (published p) (builds p)).
Proof. reflexivity. Qed.

(** The service thread, idle, serves a request in three steps. *)
Lemma serve_one (orc : Z -> BuildOracle) (req : Request) (rest : list Request)
  (t : Threads) :
  handler t = Idle -> incoming t = req :: rest ->
  run orc [service_thread; service_thread; service_thread] t
  = Some (mkThreads (snd (requestGoal req (mem t))) (planner t) Idle rest).
Proof.
  destruct t as [p pc h inc]. cbn [handler incoming mem planner].
  intros -> ->. reflexivity.
Qed.

(** The service thread, idle, serves the requests [reqs ++ [req]] one
    after the other: the goal is that of the last one, the flag is up,
    and nothing else has changed. *)
Lemma serve_all (orc : Z -> BuildOracle) (req : Request) (rest : list Request)
  (reqs : list Request) :
  forall t : Threads,
    handler t = Idle -> incoming t = reqs ++ req :: rest ->
    run orc (serve (length reqs + 1)) t
    = Some (mkThreads
              (mkPlannerState (gmap_ (mem t)) (requested req) true (buffer_ (mem t))
                 (ogMap (mem t)) (robotPos (mem t)) (published (mem t))
                 (builds (mem t)))
              (planner t) Idle rest).
Proof.
  induction reqs as [|r reqs IH]; intros t Hh Hi; cbn [length Nat.add].
  - change (serve 1) with [service_thread; service_thread; service_thread].
    rewrite (serve_one orc (req := req) (rest := rest) t Hh Hi). reflexivity.
  - rewrite serve_S.
    change (service_thread :: service_thread :: service_thread
              :: serve (length reqs + 1))
      with ([service_thread; service_thread; service_thread]
              ++ serve (length reqs + 1)).
    rewrite run_app, (serve_one orc (req := r) (rest := reqs ++ req :: rest) t Hh Hi).
    rewrite IH by reflexivity. reflexivity.
Qed.

End ServiceFacts.

Section ThreadProperties.
Context `{D : Double} `{G : !GraphOps} `{L : !LocalMapOps}.

(** X20. A step of the planner thread never writes the goal and never raises
    the flag [GoalRecieved]; it leaves the service thread where it is,
    with the requests it still has to serve. *)
Theorem planner_step_never_writes_the_goal
  (orc : Z -> BuildOracle) (t t' : Threads) :
  planner_step orc t = Some t' ->
  currentGoal_ (mem t') = currentGoal_ (mem t)
  /\ (GoalRecieved (mem t') = true -> GoalRecieved (mem t) = true)
  /\ handler t' = handler t
  /\ incoming t' = incoming t.
Proof.
  destruct t as [p pc h inc]. unfold planner_step. cbn [planner mem handler incoming].
  destruct pc as [| |cnt robotOrd colourMap|colourMap path].
  - destruct (GoalRecieved p); intros E; inversion E; subst; cbn; auto.
  - rewrite cycle_begin_eq. cbv zeta.
    destruct (mat_empty (latest_map p)); intros E; inversion E; subst; cbn;
      repeat split; auto; discriminate.
  - destruct (call_build_returns (orc cnt) robotOrd p) as (path & g & m & ->).
    destruct (_ || _); intros E; inversion E; subst; cbn; auto.
  - pose proof (cycle_finish_eq colourMap path p) as Hf. cbv zeta in Hf.
    destruct (cycle_finish colourMap path p) as [u p']. cbn [snd] in Hf. subst p'.
    intros E; inversion E; subst; cbn; auto.
Qed.

(** X22. Requests are not queued. When the service thread serves several
    requests while the planner thread waits, the planner thread then
    makes one pass, at most three calls of [build], all of them towards
    the goal of the last request, and waits again: the goals of the
    requests before the last are never built. *)
Theorem requests_served_during_the_wait_get_one_pass
  (orc : Z -> BuildOracle) (reqs : list Request) (req : Request) (t : Threads) :
  planner t = AtWait ->
  handler t = Idle ->
  incoming t = reqs ++ [req] ->
  exists n t',
    (n <= 6)%nat
    /\ run orc (serve (length reqs + 1) ++ repeat planner_thread n) t = Some t'
    /\ planner t' = AtWait /\ handler t' = Idle /\ incoming t' = []
    /\ planner_step orc t' = None
    /\ (length (built_by (mem t) (mem t')) <= 3)%nat
    /\ Forall (fun c => call_goal c = requested req) (built_by (mem t) (mem t')).
Proof.
  intros Hp Hh Hi.
  pose proof (serve_all orc req [] reqs t Hh Hi) as Hs.
  rewrite Hp in Hs.
  set (p1 := mkPlannerState _ _ _ _ _ _ _ _) in Hs.
  set (t1 := mkThreads p1 AtWait Idle []) in Hs.
  assert (Hwake : planner_step orc t1 = Some (mkThreads p1 AtLine87 Idle [])) by reflexivity.
  destruct (planner_alone_makes_a_pass 0 orc (mkThreads p1 AtLine87 Idle []) eq_refl)
    as (n & Hn & Hrun).
  cbn [mem handler incoming] in Hrun.
  set (p2 := snd (planning_cycle (2 + 0) orc p1)) in *.
  exists (S n), (mkThreads p2 AtWait Idle []).
  split; [lia|]. split.
  { rewrite run_app, Hs. cbn [repeat run]. rewrite Hwake. exact Hrun. }
  cbn [planner handler incoming mem].
  destruct (planning_cycle_spec 0 orc p1) as (_ & Ho). fold p2 in Ho.
  pose proof (planning_cycle_run 0 orc p1) as Hr. cbv zeta in Hr. fold p2 in Hr.
  assert (Hflag : GoalRecieved p2 = false).
  { destruct (mat_empty (latest_map p1)); [now rewrite Hr|].
    destruct Hr as (path & g & calls & -> & _). reflexivity. }
  split; [reflexivity|]. split; [reflexivity|]. split; [reflexivity|].
  split; [unfold planner_step; cbn [planner mem]; now rewrite Hflag|].
  unfold pass_outcome, built_by in *.
  change (builds p1) with (builds (mem t)) in Ho.
  destruct (mat_empty (latest_map p1)).
  - destruct Ho as (_ & ->). rewrite skipn_all. split; [cbn; lia|constructor].
  - destruct Ho as (front & c & img & -> & Hlen & _ & _ & Hf & _).
    rewrite skipn_length_app. split; [rewrite length_app; cbn; lia|].
    eapply Forall_impl; [|exact Hf]. cbn. intros c' [_ Hc]. exact Hc.
Qed.

End ThreadProperties.

(* ================================================================== *)
(** * What the other runs show *)
Module OtherRunFacts.
Import Runs OtherRuns.
Open Scope Q_scope.

(** The left-hand side is run by the virtual machine and compared with
    the right-hand side. *)
Ltac by_vm :=
  match goal with |- _ = ?r => vm_cast_no_check (eq_refl r) end.

(** The start, asked for twice on the new planner. *)
Lemma start_found_again :
  findOrAdd start (snd (findOrAdd start fresh_planner)) = findOrAdd start fresh_planner.
Proof.
  refine (@findOrAdd_again_gives_the_same_vertex QDouble SpecGraphOps SpecGridOps
            start fresh_planner _ _).
  - constructor.
  - by_vm.
Defined.

(** The start, added to the new planner and read back. *)
Lemma start_read_back :
  let found := findOrAdd start fresh_planner in
  exists o,
    convertPath [fst found] (snd found) = ([o], snd found)
    /\ if existsAsVertex start fresh_planner then same_ord o start = true else o = start.
Proof.
  refine (@convertPath_reads_back_findOrAdd QDouble SpecGraphOps SpecGridOps
            start fresh_planner _ _).
  - constructor.
  - constructor.
Defined.

(** [showOverlay] on the roadmap the first call of [build] left: every
    vertex of its graph has an entry. *)
Lemma overlay_after_first_build_changes_nothing :
  snd (showOverlay (free_image 40) [start; origin; goal] after_first_build)
  = after_first_build.
Proof.
  refine (@showOverlay_changes_nothing_when_graph_known QDouble SpecGraphOps SpecGridOps
            (free_image 40) [start; origin; goal] after_first_build _).
  by_vm.
Defined.

(** The start is vertex 0 of the roadmap the first call of [build] left. *)
Lemma start_connected_again :
  snd (connectToExistingNodes (free_image 40) 0%N after_first_build)
  = set_graph (fold_left (connect_to (free_image 40) 0%N start after_first_build)
                 (vertexLUT_ after_first_build) (graph_ after_first_build))
      after_first_build.
Proof.
  refine (@connectToExistingNodes_adds_edges_from_the_node_only
            QDouble SpecGraphOps SpecGridOps (free_image 40) 0%N start
            after_first_build _).
  by_vm.
Defined.

(** A later call of [build], with new ends, on the roadmap of three
    vertices the first call left: the table has five entries afterwards,
    and the three it had are among them, as they were. *)
Lemma later_build_keeps_every_vertex :
  vertexLUT_ after_first_build = [(0%N, start); (1%N, goal); (2%N, origin)]
  /\ vertexLUT_ (self (snd later_build))
     = [(0%N, start); (1%N, goal); (2%N, origin); (3%N, far_start); (4%N, far_goal)]
  /\ (let s' := self (snd (run_build 1000 close_draws 0%N 0%N (free_image 40)
                             far_start far_goal after_first_build)) in
      map_ok (vertexLUT_ s')
      /\ entries_kept after_first_build s'
      /\ forall p, existsAsVertex p after_first_build = true ->
                   existsAsVertex p s' = true).
Proof.
  split; [by_vm|]. split; [by_vm|].
  refine (@build_keeps_every_vertex QDouble SpecGraphOps SpecGridOps
            1000 close_draws 0%N 0%N (free_image 40) far_start far_goal
            after_first_build _).
  apply (@map_ok_by_test QDouble). by_vm.
Defined.

(** The first call of [build] with draws that differ outside the passes
    1 to 999. *)
Lemma first_build_with_other_draws :
  run_build 1000 at_origin 7%N 9%N (free_image 40) start goal fresh_planner
  = run_build 1000 at_origin_in_range 7%N 9%N (free_image 40) start goal fresh_planner.
Proof.
  refine (@build_reads_the_draws_1_to_999 QDouble SpecGraphOps SpecGridOps
            1000 at_origin at_origin_in_range 7%N 9%N (free_image 40) start goal
            fresh_planner _).
  intros n Hn. unfold at_origin_in_range.
  destruct (Z.leb_spec 1 n), (Z.leb_spec n 999); try lia. reflexivity.
Defined.

(** The ends of the first call of [build] are vertices from then on. *)
Lemma first_build_makes_its_ends_vertices :
  let s' := self (snd (run_build 1000 at_origin 7%N 9%N (free_image 40) start goal
                         fresh_planner)) in
  existsAsVertex start s' = true
  /\ existsAsVertex goal s' = true
  /\ forall fuel2 rnd2 v1 v2 m2,
       exists vS vG r rest,
         trace (snd (run_build fuel2 rnd2 v1 v2 m2 start goal s'))
         = ShortestPath vS vG r :: rest.
Proof.
  refine (@build_makes_its_ends_vertices_for_good QDouble SpecGraphOps SpecGridOps
            1000 at_origin 7%N 9%N (free_image 40) start goal fresh_planner
            _ _ _ _ _ _).
  - constructor.
  - constructor.
  - by_vm.
  - by_vm.
  - by_vm.
  - by_vm.
Defined.

(** A pass on the free map, the one map of the queue. *)
Lemma overlay_of_a_pass_on_the_free_map :
  let p' := snd (planning_cycle (2 + 0) oracle with_free_map) in
  let path := last (map call_result (built_by with_free_map p')) [] in
  let worked_with := match ogMapDeq (buffer_ with_free_map) with
                     | [] => ogMap with_free_map
                     | front :: _ => front
                     end in
  exists g,
    hd_error (published_by with_free_map p')
    = Some (OverlayMsg (fst (showOverlay (cvtColor worked_with) path g)))
    /\ gmap_ p' = snd (showOverlay (cvtColor worked_with) path g)
    /\ ogMap p' = dilated (length (built_by with_free_map p')) (gmap_ with_free_map)
                    worked_with
    /\ grows_by 3003
         (setReference
            (mkOrd (geometry_msgs.x (geometry_msgs.position (latest_pose with_free_map)))
                   (geometry_msgs.y (geometry_msgs.position (latest_pose with_free_map))))
            (gmap_ with_free_map)) g.
Proof.
  refine (@overlay_is_drawn_before_the_pass_dilates QDouble SpecGraphOps SpecGridOps
            0%nat oracle with_free_map _).
  by_vm.
Defined.

(** Two passes on the one free map of the queue. *)
Lemma free_map_is_dilated_twice :
  let p' := snd (planning_cycle (2 + 0) oracle with_free_map) in
  let p'' := snd (planning_cycle (2 + 0) oracle p') in
  latest_map p'
  = dilated (length (built_by with_free_map p')) (gmap_ with_free_map)
      (latest_map with_free_map)
  /\ ogMap p''
     = dilated (length (built_by with_free_map p') + length (built_by p' p''))
         (gmap_ with_free_map) (latest_map with_free_map).
Proof.
  refine (@map_that_is_not_renewed_is_dilated_again QDouble SpecGraphOps SpecGridOps
            0%nat oracle oracle with_free_map _).
  apply le_n.
Defined.

(** A vertex id the new planner has never handed out. *)
Lemma unknown_node_on_the_new_planner :
  let s1 := set_vertexLUT (lut_insert 7%N default_ord (vertexLUT_ fresh_planner))
              fresh_planner in
  lut_find 7%N (vertexLUT_ s1) = Some default_ord
  /\ snd (connectToExistingNodes (free_image 40) 7%N fresh_planner)
     = set_graph (fold_left (connect_to (free_image 40) 7%N default_ord s1)
                    (vertexLUT_ s1) (graph_ s1)) s1.
Proof.
  refine (@connectToExistingNodes_gives_an_unknown_node_the_default
            QDouble SpecGraphOps SpecGridOps (free_image 40) 7%N fresh_planner _).
  reflexivity.
Defined.

(** The first step of the service thread on the two requests. *)
Lemma first_step_of_the_service_thread :
  planner first_request_begun = planner two_requests
  /\ gmap_ (mem first_request_begun) = gmap_ (mem two_requests)
  /\ buffer_ (mem first_request_begun) = buffer_ (mem two_requests)
  /\ ogMap (mem first_request_begun) = ogMap (mem two_requests)
  /\ robotPos (mem first_request_begun) = robotPos (mem two_requests)
  /\ published (mem first_request_begun) = published (mem two_requests)
  /\ builds (mem first_request_begun) = builds (mem two_requests).
Proof.
  refine (@handler_step_leaves_the_planner_alone QDouble SpecGraphOps SpecGridOps
            two_requests first_request_begun _).
  reflexivity.
Defined.

(** The planner thread returns from the wait. *)
Lemma waking_up_writes_no_goal :
  currentGoal_ (mem woken) = currentGoal_ (mem about_to_wake)
  /\ (GoalRecieved (mem woken) = true -> GoalRecieved (mem about_to_wake) = true)
  /\ handler woken = handler about_to_wake
  /\ incoming woken = incoming about_to_wake.
Proof.
  refine (@planner_step_never_writes_the_goal QDouble SpecGraphOps SpecGridOps
            oracle about_to_wake woken _).
  reflexivity.
Defined.

(** The two requests, both served before the planner thread wakes. *)
Lemma two_requests_get_one_pass :
  exists n t',
    (n <= 6)%nat
    /\ run oracle (serve (length [mkRequest 5 5] + 1) ++ repeat planner_thread n)
                  two_requests = Some t'
    /\ planner t' = AtWait /\ handler t' = Idle /\ incoming t' = []
    /\ planner_step oracle t' = None
    /\ (length (built_by (mem two_requests) (mem t')) <= 3)%nat
    /\ Forall (fun c => call_goal c = requested (mkRequest 1 1))
              (built_by (mem two_requests) (mem t')).
Proof.
  refine (@requests_served_during_the_wait_get_one_pass QDouble SpecGraphOps SpecGridOps
            oracle [mkRequest 5 5] (mkRequest 1 1) two_requests _ _ _).
  - reflexivity.
  - reflexivity.
  - reflexivity.
Defined.

End OtherRunFacts.
